(** * lib/copydir.c: the recursive directory-tree copy of shadow-utils

    A shallow embedding of [copy_tree] and of its helpers, run against an
    executable model of the POSIX file-system calls they make.

    Layout of the development:
    - integer types and the [struct stat] fields the code reads;
    - a file-system model: an inode table keyed by (device, inode), with
      directories as ordered entry lists, path resolution that follows
      symbolic links, and the directory-relative calls ([fstatat],
      [mkdirat], [linkat], ...);
    - the process state of copydir.c: the static variables [src_orig],
      [dst_orig] and [links], a trace of the calls made, and a fault oracle
      that lets any call fail the way a kernel can refuse it, each time the
      call is made anew;
    - the functions of copydir.c, in the order of the source;
    - the properties of the specification. *)

From stdpp Require Import gmap strings list fin_maps.
From Stdlib Require Import ZArith Lia Ascii.

Local Open Scope Z_scope.

(** ** Integer types *)

(** [uid_t], [gid_t] and [mode_t] are unsigned 32-bit; [nlink_t], [dev_t]
    and [ino_t] are unsigned 64-bit (glibc, x86-64).  A value of these
    types is a [Z]; arithmetic wraps. *)
Definition wrap (bits x : Z) : Z := x mod 2 ^ bits.

Definition uid_t_bits : Z := 32.
Definition nlink_t_bits : Z := 64.
Definition mode_t_bits : Z := 32.

(** [(uid_t) -1] and [(gid_t) -1]: the "unset" sentinel. *)
Definition ID_UNSET : Z := wrap uid_t_bits (-1).

(** File-type bits of [st_mode] (<sys/stat.h>). *)
Definition S_IFMT : Z := 0xF000.
Definition S_IFSOCK : Z := 0xC000.
Definition S_IFLNK : Z := 0xA000.
Definition S_IFREG : Z := 0x8000.
Definition S_IFBLK : Z := 0x6000.
Definition S_IFDIR : Z := 0x4000.
Definition S_IFCHR : Z := 0x2000.
Definition S_IFIFO : Z := 0x1000.

(** [07777], [0700], [0600], [0200] (S_IWUSR) and [0777]. *)
Definition PERM_MASK : Z := 0xFFF.
Definition MODE_0700 : Z := 0x1C0.
Definition MODE_0600 : Z := 0x180.
Definition S_IWUSR : Z := 0x80.
Definition MODE_0777 : Z := 0x1FF.

Definition S_ISDIR (m : Z) : bool := Z.land m S_IFMT =? S_IFDIR.
Definition S_ISLNK (m : Z) : bool := Z.land m S_IFMT =? S_IFLNK.
Definition S_ISREG (m : Z) : bool := Z.land m S_IFMT =? S_IFREG.

Record timespec := { tv_sec : Z; tv_nsec : Z }.

(** The fields of [struct stat] that copydir.c reads. *)
Record stat := {
  st_dev : Z;
  st_ino : Z;
  st_mode : Z;
  st_nlink : Z;
  st_uid : Z;
  st_gid : Z;
  st_rdev : Z;
  st_atim : timespec;
  st_mtim : timespec
}.

(** ** Error numbers and system-call results *)

Inductive errno :=
| ENOENT | EEXIST | ENOTDIR | EISDIR | ELOOP | EPERM | EACCES | EINVAL
| EXDEV | ENOSPC | EIO | EINTR | ENOTSUP | ENOMEM.

#[global] Instance errno_eq_dec : EqDecision errno.
Proof. solve_decision. Defined.

Inductive result (A : Type) :=
| Ok (a : A)
| Err (e : errno).
Arguments Ok {A} a.
Arguments Err {A} e.

Definition rbind {A B} (r : result A) (f : A -> result B) : result B :=
  match r with
  | Ok a => f a
  | Err e => Err e
  end.

Definition is_ok {A} (r : result A) : bool :=
  match r with Ok _ => true | Err _ => false end.

(** ** Strings *)

Definition strlen (s : string) : nat := String.length s.

(** [s + n]: the tail of a C string [n] bytes in (the empty string when
    [n] reaches the terminator). *)
Fixpoint str_offset (s : string) (n : nat) {struct n} : string :=
  match n, s with
  | O, _ => s
  | S n', String _ s' => str_offset s' n'
  | S _, EmptyString => EmptyString
  end.

(** Modelled from the spec: [streq] of lib/string/strcmp/streq.h, string
    equality. *)
Definition streq (a b : string) : bool := String.eqb a b.

(** Modelled from the spec: [strprefix] of lib/string/strcmp/strprefix.h;
    the source uses it as a truth value, "is [s] prefixed by [prefix]". *)
Definition strprefix (s prefix : string) : bool := String.prefix prefix s.

(** Path components: the non-empty names between slashes. *)
Fixpoint split_path_from (cur : string) (s : string) : list string :=
  match s with
  | EmptyString => if String.eqb cur "" then [] else [cur]
  | String c s' =>
      if Ascii.eqb c "/"%char
      then (if String.eqb cur "" then split_path_from "" s'
            else cur :: split_path_from "" s')
      else split_path_from (cur +:+ String c EmptyString) s'
  end.

Definition split_path (s : string) : list string := split_path_from "" s.

Definition is_absolute (s : string) : bool :=
  match s with
  | String c _ => Ascii.eqb c "/"%char
  | EmptyString => false
  end.

(** A path that ends in a slash is meant to name a directory. *)
Fixpoint ends_with_slash (s : string) : bool :=
  match s with
  | EmptyString => false
  | String c EmptyString => Ascii.eqb c "/"%char
  | String _ s' => ends_with_slash s'
  end.

Fixpoint split_last {A} (l : list A) : option (list A * A) :=
  match l with
  | [] => None
  | [x] => Some ([], x)
  | x :: l' =>
      match split_last l' with
      | Some (init, last) => Some (x :: init, last)
      | None => None
      end
  end.

(** ** The file-system model *)

(** A file is identified by its device and inode numbers. *)
Abbreviation fileid := (Z * Z)%type.

(** The special files: FIFO, character and block device, socket. *)
Inductive node_kind := NFifo | NChr | NBlk | NSock.

Definition node_bits (k : node_kind) : Z :=
  match k with
  | NFifo => S_IFIFO
  | NChr => S_IFCHR
  | NBlk => S_IFBLK
  | NSock => S_IFSOCK
  end.

Inductive payload :=
| PDir (entries : list (string * fileid))
| PReg (data : list Byte.byte)
| PLnk (target : string)
| PNode (kind : node_kind) (rdev : Z).

(** An inode.  [i_perm] holds the permission bits ([07777]); the file-type
    bits of [st_mode] follow from the payload.  A directory lists its
    entries in [readdir] order, "." and ".." included. *)
Record inode := {
  i_perm : Z;
  i_nlink : Z;
  i_uid : Z;
  i_gid : Z;
  i_atim : timespec;
  i_mtim : timespec;
  i_acl : list Z;
  i_xattr : list (string * string);
  i_body : payload
}.

Record filesys := {
  fs_inodes : gmap (Z * Z) inode;
  fs_root : fileid;
  fs_cwd : fileid;
  fs_euid : Z;
  fs_egid : Z;
  fs_next_ino : Z;
  fs_clock : Z
}.

Definition ftype_bits (p : payload) : Z :=
  match p with
  | PDir _ => S_IFDIR
  | PReg _ => S_IFREG
  | PLnk _ => S_IFLNK
  | PNode k _ => node_bits k
  end.

Definition rdev_of (p : payload) : Z :=
  match p with
  | PNode _ r => r
  | _ => 0
  end.

Definition stat_of (id : fileid) (i : inode) : stat :=
  {| st_dev := fst id;
     st_ino := snd id;
     st_mode := Z.lor (ftype_bits (i_body i)) (Z.land (i_perm i) PERM_MASK);
     st_nlink := i_nlink i;
     st_uid := i_uid i;
     st_gid := i_gid i;
     st_rdev := rdev_of (i_body i);
     st_atim := i_atim i;
     st_mtim := i_mtim i |}.

Fixpoint dir_lookup (es : list (string * fileid)) (name : string) : option fileid :=
  match es with
  | [] => None
  | (n, id) :: es' => if String.eqb n name then Some id else dir_lookup es' name
  end.

Definition fs_entries (fs : filesys) (d : fileid) : result (list (string * fileid)) :=
  match fs_inodes fs !! d with
  | Some i =>
      match i_body i with
      | PDir es => Ok es
      | _ => Err ENOTDIR
      end
  | None => Err ENOENT
  end.

Definition link_target (fs : filesys) (id : fileid) : option string :=
  match fs_inodes fs !! id with
  | Some i =>
      match i_body i with
      | PLnk t => Some t
      | _ => None
      end
  | None => None
  end.

Definition is_nil {A} (l : list A) : bool :=
  match l with [] => true | _ => false end.

(** One pass over the components of a path.  A symbolic link met on the way
    is resolved by [follow_link]; the last component is followed only when
    [follow_last] is set (the calls of copydir.c pass AT_SYMLINK_NOFOLLOW
    or O_NOFOLLOW almost everywhere). *)
Fixpoint walk_with (fs : filesys) (follow_link : fileid -> string -> result fileid)
    (cur : fileid) (comps : list string) (follow_last : bool) : result fileid :=
  match comps with
  | [] => Ok cur
  | c :: rest =>
      match fs_entries fs cur with
      | Err e => Err e
      | Ok es =>
          match dir_lookup es c with
          | None => Err ENOENT
          | Some id =>
              match link_target fs id with
              | Some t =>
                  if follow_last || negb (is_nil rest)
                  then match follow_link cur t with
                       | Ok id' => walk_with fs follow_link id' rest follow_last
                       | Err e => Err e
                       end
                  else walk_with fs follow_link id rest follow_last
              | None => walk_with fs follow_link id rest follow_last
              end
          end
      end
  end.

Definition path_start (fs : filesys) (dir : fileid) (path : string) : fileid :=
  if is_absolute path then fs_root fs else dir.

(** Nested symbolic links are followed up to [budget] deep, then ELOOP. *)
Fixpoint walk (budget : nat) (fs : filesys) (cur : fileid) (comps : list string)
    (follow_last : bool) {struct budget} : result fileid :=
  walk_with fs
    (fun dir t =>
       match budget with
       | O => Err ELOOP
       | S b => walk b fs (path_start fs dir t) (split_path t) true
       end)
    cur comps follow_last.

Definition MAXSYMLINKS : nat := 40.

(** A directory descriptor: AT_FDCWD, or an open directory, which the
    model identifies with the file it was opened on. *)
Inductive fd :=
| AT_FDCWD
| FD (id : fileid).

Definition fd_dir (fs : filesys) (dirfd : fd) : fileid :=
  match dirfd with
  | AT_FDCWD => fs_cwd fs
  | FD id => id
  end.

(** The file a path names.  A path with a slash at its end names what
    its last component leads to, and that has to be a directory: a
    symbolic link in that place is followed whatever the flags say. *)
Definition resolve (fs : filesys) (dirfd : fd) (path : string) (follow_last : bool)
  : result fileid :=
  if String.eqb path "" then Err ENOENT
  else if ends_with_slash path then
    rbind (walk MAXSYMLINKS fs (path_start fs (fd_dir fs dirfd) path)
             (split_path path) true)
      (fun id => rbind (fs_entries fs id) (fun _ => Ok id))
  else walk MAXSYMLINKS fs (path_start fs (fd_dir fs dirfd) path)
         (split_path path) follow_last.

(** The directory in which the last component of [path] lives, and that
    component. *)
Definition resolve_parent (fs : filesys) (dirfd : fd) (path : string)
  : result (fileid * string) :=
  if String.eqb path "" then Err ENOENT
  else match split_last (split_path path) with
       | None => Err EEXIST
       | Some (init, last) =>
           rbind (walk MAXSYMLINKS fs (path_start fs (fd_dir fs dirfd) path) init true)
             (fun d => Ok (d, last))
       end.

Definition fs_inode (fs : filesys) (id : fileid) : result inode :=
  match fs_inodes fs !! id with
  | Some i => Ok i
  | None => Err ENOENT
  end.

(** [fstatat (dirfd, path, &sb, flags)]; [follow_last] is the absence of
    AT_SYMLINK_NOFOLLOW. *)
Definition fs_stat (fs : filesys) (dirfd : fd) (path : string) (follow_last : bool)
  : result stat :=
  rbind (resolve fs dirfd path follow_last) (fun id =>
  rbind (fs_inode fs id) (fun i => Ok (stat_of id i))).

(** *** Updates *)

Definition now (fs : filesys) : timespec := {| tv_sec := fs_clock fs; tv_nsec := 0 |}.

(** Replace the inode table; every update advances the clock. *)
Definition fs_commit (fs : filesys) (m : gmap (Z * Z) inode) (next : Z) : filesys :=
  {| fs_inodes := m;
     fs_root := fs_root fs;
     fs_cwd := fs_cwd fs;
     fs_euid := fs_euid fs;
     fs_egid := fs_egid fs;
     fs_next_ino := next;
     fs_clock := fs_clock fs + 1 |}.

Definition set_body (b : payload) (i : inode) : inode :=
  {| i_perm := i_perm i; i_nlink := i_nlink i; i_uid := i_uid i; i_gid := i_gid i;
     i_atim := i_atim i; i_mtim := i_mtim i; i_acl := i_acl i; i_xattr := i_xattr i;
     i_body := b |}.

Definition set_mtim (t : timespec) (i : inode) : inode :=
  {| i_perm := i_perm i; i_nlink := i_nlink i; i_uid := i_uid i; i_gid := i_gid i;
     i_atim := i_atim i; i_mtim := t; i_acl := i_acl i; i_xattr := i_xattr i;
     i_body := i_body i |}.

Definition set_times (a m : timespec) (i : inode) : inode :=
  {| i_perm := i_perm i; i_nlink := i_nlink i; i_uid := i_uid i; i_gid := i_gid i;
     i_atim := a; i_mtim := m; i_acl := i_acl i; i_xattr := i_xattr i;
     i_body := i_body i |}.

Definition set_nlink (n : Z) (i : inode) : inode :=
  {| i_perm := i_perm i; i_nlink := n; i_uid := i_uid i; i_gid := i_gid i;
     i_atim := i_atim i; i_mtim := i_mtim i; i_acl := i_acl i; i_xattr := i_xattr i;
     i_body := i_body i |}.

Definition set_owner (u g : Z) (i : inode) : inode :=
  {| i_perm := i_perm i; i_nlink := i_nlink i; i_uid := u; i_gid := g;
     i_atim := i_atim i; i_mtim := i_mtim i; i_acl := i_acl i; i_xattr := i_xattr i;
     i_body := i_body i |}.

Definition set_perm (p : Z) (i : inode) : inode :=
  {| i_perm := p; i_nlink := i_nlink i; i_uid := i_uid i; i_gid := i_gid i;
     i_atim := i_atim i; i_mtim := i_mtim i; i_acl := i_acl i; i_xattr := i_xattr i;
     i_body := i_body i |}.

Definition set_acl (a : list Z) (i : inode) : inode :=
  {| i_perm := i_perm i; i_nlink := i_nlink i; i_uid := i_uid i; i_gid := i_gid i;
     i_atim := i_atim i; i_mtim := i_mtim i; i_acl := a; i_xattr := i_xattr i;
     i_body := i_body i |}.

Definition set_xattr (x : list (string * string)) (i : inode) : inode :=
  {| i_perm := i_perm i; i_nlink := i_nlink i; i_uid := i_uid i; i_gid := i_gid i;
     i_atim := i_atim i; i_mtim := i_mtim i; i_acl := i_acl i; i_xattr := x;
     i_body := i_body i |}.

(** Add the entry [name -> id] to a directory inode; [sub] tells that the
    new entry is a directory, whose ".." counts as a link to the parent. *)
Definition add_dirent (t : timespec) (name : string) (id : fileid) (sub : bool)
    (i : inode) : inode :=
  match i_body i with
  | PDir es =>
      set_mtim t
        (set_nlink (if sub then wrap nlink_t_bits (i_nlink i + 1) else i_nlink i)
           (set_body (PDir (es ++ [(name, id)])) i))
  | _ => i
  end.

Definition is_dir_body (b : payload) : bool :=
  match b with PDir _ => true | _ => false end.

(** An inode number is in use when some directory entry names it (or when
    the inode table holds it). *)
Definition dir_mentions (id : fileid) (i : inode) : bool :=
  match i_body i with
  | PDir es => existsb (fun e => bool_decide (snd e = id)) es
  | _ => false
  end.

Definition referenced (fs : filesys) (id : fileid) : bool :=
  existsb (fun p => dir_mentions id (snd p)) (map_to_list (fs_inodes fs)).

(** Create a new file named by [path] below [dirfd].  The file gets an
    inode number not in use on the device of its directory and belongs to
    the effective user and group of the process.  [body] receives the new
    file's id and its directory's (a new directory needs them for "." and
    "..").  Under a name with a slash at its end only a directory can be
    made. *)
Definition fs_create (fs : filesys) (dirfd : fd) (path : string) (perm : Z)
    (body : fileid -> fileid -> payload) : result (fileid * filesys) :=
  rbind (resolve_parent fs dirfd path) (fun '(d, last) =>
  rbind (fs_entries fs d) (fun es =>
    match dir_lookup es last with
    | Some _ => Err EEXIST
    | None =>
        let id := (fst d, fs_next_ino fs) in
        if ends_with_slash path && negb (is_dir_body (body id d)) then Err ENOENT else
        match fs_inodes fs !! id with
        | Some _ => Err ENOSPC
        | None =>
            if referenced fs id then Err ENOSPC else
            let b := body id d in
            let i := {| i_perm := Z.land perm PERM_MASK;
                        i_nlink := if is_dir_body b then 2 else 1;
                        i_uid := fs_euid fs;
                        i_gid := fs_egid fs;
                        i_atim := now fs;
                        i_mtim := now fs;
                        i_acl := [];
                        i_xattr := [];
                        i_body := b |} in
            Ok (id,
                fs_commit fs
                  (alter (add_dirent (now fs) last id (is_dir_body b)) d
                     (<[id := i]> (fs_inodes fs)))
                  (fs_next_ino fs + 1))
        end
    end)).

(** [mkdirat (dirfd, path, mode)] *)
Definition fs_mkdirat (fs : filesys) (dirfd : fd) (path : string) (mode : Z)
  : result (fileid * filesys) :=
  fs_create fs dirfd path mode (fun id d => PDir [(".", id); ("..", d)]).

(** [symlinkat (target, dirfd, path)] *)
Definition fs_symlinkat (fs : filesys) (target : string) (dirfd : fd) (path : string)
  : result (fileid * filesys) :=
  if String.eqb target "" then Err ENOENT
  else fs_create fs dirfd path MODE_0777 (fun _ _ => PLnk target).

(** [mknodat (dirfd, path, mode, dev)]: [mode] carries the file type.  A
    directory or a symbolic link cannot be made this way. *)
Definition fs_mknodat (fs : filesys) (dirfd : fd) (path : string) (mode dev : Z)
  : result (fileid * filesys) :=
  let t := Z.land mode S_IFMT in
  if (t =? S_IFREG) || (t =? 0) then
    fs_create fs dirfd path mode (fun _ _ => PReg [])
  else if t =? S_IFIFO then fs_create fs dirfd path mode (fun _ _ => PNode NFifo 0)
  else if t =? S_IFSOCK then fs_create fs dirfd path mode (fun _ _ => PNode NSock 0)
  else if t =? S_IFCHR then fs_create fs dirfd path mode (fun _ _ => PNode NChr dev)
  else if t =? S_IFBLK then fs_create fs dirfd path mode (fun _ _ => PNode NBlk dev)
  else if t =? S_IFDIR then Err EPERM
  else Err EINVAL.

(** [openat] with O_CREAT | O_EXCL: the file must not exist, and the path
    must not end in a slash. *)
Definition fs_open_excl (fs : filesys) (dirfd : fd) (path : string) (mode : Z)
  : result (fileid * filesys) :=
  if ends_with_slash path then Err EISDIR
  else fs_create fs dirfd path mode (fun _ _ => PReg []).

(** [linkat (olddirfd, oldpath, newdirfd, newpath, flags)]: a second name
    for the file [oldpath] names (without AT_SYMLINK_FOLLOW, the link
    itself when that is a symbolic link). *)
Definition fs_linkat (fs : filesys) (olddirfd : fd) (oldpath : string)
    (newdirfd : fd) (newpath : string) (follow_last : bool)
  : result (unit * filesys) :=
  rbind (resolve fs olddirfd oldpath follow_last) (fun id =>
  rbind (fs_inode fs id) (fun i =>
  if is_dir_body (i_body i) then Err EPERM else
  rbind (resolve_parent fs newdirfd newpath) (fun '(d, last) =>
  rbind (fs_entries fs d) (fun es =>
    if negb (fst d =? fst id) then Err EXDEV else
    match dir_lookup es last with
    | Some _ => Err EEXIST
    | None =>
        if ends_with_slash newpath then Err ENOENT else
        Ok (tt,
            fs_commit fs
              (alter (add_dirent (now fs) last id false) d
                 (alter (fun j => set_nlink (wrap nlink_t_bits (i_nlink j + 1)) j) id
                    (fs_inodes fs)))
              (fs_next_ino fs))
    end)))).

(** *** Attributes

    The calls are those of a process with CAP_FSETID, which root has and
    which the programs that call [copy_tree] run as: [chmod] stores the
    twelve bits it is given, and a write leaves the set-user-ID and
    set-group-ID bits of the file alone.  (For a process without the
    capability the kernel drops S_ISGID in [chmod] when the file's group
    is not one of the caller's, and both bits on a write.)  Permission
    checks are not part of the model: a call the kernel would refuse is a
    call the fault oracle refuses. *)

(** Change one inode in place. *)
Definition fs_update (fs : filesys) (id : fileid) (f : inode -> inode)
  : result (unit * filesys) :=
  rbind (fs_inode fs id) (fun _ =>
    Ok (tt, fs_commit fs (alter f id (fs_inodes fs)) (fs_next_ino fs))).

(** [chown]: an id of [-1] leaves that half of the ownership as it is. *)
Definition chown_inode (uid gid : Z) (i : inode) : inode :=
  set_owner (if uid =? ID_UNSET then i_uid i else uid)
            (if gid =? ID_UNSET then i_gid i else gid) i.

(** [fchownat (dirfd, path, uid, gid, flags)] *)
Definition fs_fchownat (fs : filesys) (dirfd : fd) (path : string) (uid gid : Z)
    (follow_last : bool) : result (unit * filesys) :=
  rbind (resolve fs dirfd path follow_last) (fun id =>
    fs_update fs id (chown_inode uid gid)).

(** [fchown (fd, uid, gid)] *)
Definition fs_fchown (fs : filesys) (id : fileid) (uid gid : Z)
  : result (unit * filesys) :=
  fs_update fs id (chown_inode uid gid).

(** [fchmodat (dirfd, path, mode, flags)]: not supported on a symbolic
    link. *)
Definition fs_fchmodat (fs : filesys) (dirfd : fd) (path : string) (mode : Z)
    (follow_last : bool) : result (unit * filesys) :=
  rbind (resolve fs dirfd path follow_last) (fun id =>
    match link_target fs id with
    | Some _ => Err ENOTSUP
    | None => fs_update fs id (set_perm (Z.land mode PERM_MASK))
    end).

(** [fchmod (fd, mode)] *)
Definition fs_fchmod (fs : filesys) (id : fileid) (mode : Z)
  : result (unit * filesys) :=
  fs_update fs id (set_perm (Z.land mode PERM_MASK)).

(** [utimensat (dirfd, path, mt, flags)] with [mt[0]] the access time and
    [mt[1]] the modification time.  ([struct stat] never holds the
    UTIME_NOW and UTIME_OMIT markers, which the model leaves out.) *)
Definition fs_utimensat (fs : filesys) (dirfd : fd) (path : string)
    (mt : timespec * timespec) (follow_last : bool) : result (unit * filesys) :=
  rbind (resolve fs dirfd path follow_last) (fun id =>
    fs_update fs id (set_times (fst mt) (snd mt))).

(** [readlink (path)] from the working directory. *)
Definition fs_readlink (fs : filesys) (path : string) : result string :=
  rbind (resolve fs AT_FDCWD path false) (fun id =>
    match link_target fs id with
    | Some t => Ok t
    | None => Err EINVAL
    end).

(** [openat] of an existing file; [directory] stands for O_DIRECTORY and
    [follow_last] for the absence of O_NOFOLLOW.  The descriptor is the
    file's id. *)
Definition fs_open (fs : filesys) (dirfd : fd) (path : string)
    (directory follow_last : bool) : result fileid :=
  rbind (resolve fs dirfd path follow_last) (fun id =>
  rbind (fs_inode fs id) (fun i =>
    match i_body i with
    | PLnk _ => Err ELOOP
    | PDir _ => Ok id
    | _ => if directory then Err ENOTDIR else Ok id
    end)).

(** The names [readdir] returns for an open directory, in order. *)
Definition fs_readdir (fs : filesys) (id : fileid) : result (list string) :=
  rbind (fs_entries fs id) (fun es => Ok (map fst es)).

(** The whole content of an open regular file. *)
Definition fs_read (fs : filesys) (id : fileid) : result (list Byte.byte) :=
  rbind (fs_inode fs id) (fun i =>
    match i_body i with
    | PReg data => Ok data
    | PDir _ => Err EISDIR
    | _ => Err EINVAL
    end).

(** Append [bytes] to an open regular file (by a process with CAP_FSETID:
    the mode is left as it is). *)
Definition fs_write (fs : filesys) (id : fileid) (bytes : list Byte.byte)
  : result (unit * filesys) :=
  rbind (fs_inode fs id) (fun i =>
    match i_body i with
    | PReg data =>
        Ok (tt, fs_commit fs
                  (<[id := set_mtim (now fs) (set_body (PReg (data ++ bytes)) i)]>
                     (fs_inodes fs))
                  (fs_next_ino fs))
    | _ => Err EINVAL
    end).

(** libacl's [perm_copy_fd]: the access control list of the source, and
    with it the permission bits [0777], put on the destination. *)
Definition fs_perm_copy (fs : filesys) (src dst : fileid) : result (unit * filesys) :=
  rbind (fs_inode fs src) (fun s =>
    fs_update fs dst (fun d =>
      set_acl (i_acl s)
        (set_perm (Z.lor (Z.land (i_perm d) (Z.lxor PERM_MASK MODE_0777))
                         (Z.land (i_perm s) MODE_0777)) d))).

(** libattr's [attr_copy_fd] with a NULL filter: the extended attributes of
    the source put on the destination. *)
Definition fs_attr_copy (fs : filesys) (src dst : fileid) : result (unit * filesys) :=
  rbind (fs_inode fs src) (fun s =>
    fs_update fs dst (set_xattr (i_xattr s))).

(** ** The process state of copydir.c *)

(** Flag bits (Linux, x86-64). *)
Definition AT_SYMLINK_NOFOLLOW : Z := 0x100.
Definition AT_SYMLINK_FOLLOW : Z := 0x400.
Definition O_RDONLY : Z := 0.
Definition O_WRONLY : Z := 1.
Definition O_CREAT : Z := 0x40.
Definition O_EXCL : Z := 0x80.
Definition O_TRUNC : Z := 0x200.
Definition O_NONBLOCK : Z := 0x800.
Definition O_DIRECTORY : Z := 0x10000.
Definition O_NOFOLLOW : Z := 0x20000.
Definition O_CLOEXEC : Z := 0x80000.

Definition has_flag (flags bit : Z) : bool := negb (Z.land flags bit =? 0).

(** [struct link_name]; [ln_next] is the tail of the list [links]. *)
Record link_name := {
  ln_dev : Z;
  ln_ino : Z;
  ln_count : Z;
  ln_name : string
}.

(** The calls made to the environment, with their arguments. *)
Inductive event :=
| EvFstatat (dirfd : fd) (path : string) (flags : Z)
| EvOpenat (dirfd : fd) (path : string) (flags : Z) (mode : Z)
| EvFdopendir (f : fileid)
| EvReaddir (f : fileid)
| EvClosedir (f : fileid)
| EvClose (f : fileid)
| EvMkdirat (dirfd : fd) (path : string) (mode : Z)
| EvFchownat (dirfd : fd) (path : string) (uid gid : Z) (flags : Z)
| EvFchown (f : fileid) (uid gid : Z)
| EvFchmodat (dirfd : fd) (path : string) (mode : Z) (flags : Z)
| EvFchmod (f : fileid) (mode : Z)
| EvUtimensat (dirfd : fd) (path : string) (mt : timespec * timespec) (flags : Z)
| EvReadlink (path : string)
| EvSymlinkat (target : string) (dirfd : fd) (path : string)
| EvLinkat (olddirfd : fd) (oldpath : string) (newdirfd : fd) (newpath : string) (flags : Z)
| EvMknodat (dirfd : fd) (path : string) (mode dev : Z)
| EvRead (f : fileid) (offset : nat)
| EvWrite (f : fileid) (count : nat)
| EvPermCopy (src dst : fileid)
| EvAttrCopy (src dst : fileid)
| EvSetSelinux (path : string) (ftype : Z)
| EvResetSelinux
| EvAprintf (s : string)
| EvLog (msg : string).

(** The static variables of copydir.c ([src_orig], [dst_orig], [links])
    and the environment: the file system, the calls made so far (oldest
    first), and the calls the environment refuses whatever the state of
    the file system (no permission, no space, no memory, an interrupt,
    ...).  Whether a call is refused depends on the calls made before it:
    the same call may be refused once and go through the next time. *)
Record world := {
  w_fs : filesys;
  src_orig : option string;
  dst_orig : option string;
  links : list link_name;
  w_trace : list event;
  w_fault : list event -> event -> option errno
}.

Definition set_fs (fs : filesys) (w : world) : world :=
  {| w_fs := fs; src_orig := src_orig w; dst_orig := dst_orig w; links := links w;
     w_trace := w_trace w; w_fault := w_fault w |}.

Definition set_roots (s d : option string) (w : world) : world :=
  {| w_fs := w_fs w; src_orig := s; dst_orig := d; links := links w;
     w_trace := w_trace w; w_fault := w_fault w |}.

Definition set_links (l : list link_name) (w : world) : world :=
  {| w_fs := w_fs w; src_orig := src_orig w; dst_orig := dst_orig w; links := l;
     w_trace := w_trace w; w_fault := w_fault w |}.

Definition log (ev : event) (w : world) : world :=
  {| w_fs := w_fs w; src_orig := src_orig w; dst_orig := dst_orig w; links := links w;
     w_trace := w_trace w ++ [ev]; w_fault := w_fault w |}.

(** A run returns a value and the state it leaves, or stops in a failed
    [assert], or is cut short by the step bound of the model. *)
Inductive outcome (A : Type) :=
| Ret (a : A) (w : world)
| Abort (w : world)
| OutOfFuel.
Arguments Ret {A} a w.
Arguments Abort {A} w.
Arguments OutOfFuel {A}.

Definition M (A : Type) : Type := world -> outcome A.

#[global] Instance M_ret : MRet M := fun A a w => Ret a w.
#[global] Instance M_bind : MBind M := fun A B f m w =>
  match m w with
  | Ret a w' => f a w'
  | Abort w' => Abort w'
  | OutOfFuel => OutOfFuel
  end.

Definition get {A} (f : world -> A) : M A := fun w => Ret (f w) w.
Definition modify (f : world -> world) : M unit := fun w => Ret tt (f w).
Definition assert (b : bool) : M unit := fun w => if b then Ret tt w else Abort w.
Definition out_of_fuel {A} : M A := fun _ => OutOfFuel.

(** A call to the environment: it is recorded, then refused if the oracle
    says so, and otherwise runs on the file system. *)
Definition syscall {A} (ev : event) (op : filesys -> result (A * filesys))
  : M (result A) := fun w =>
  let w1 := log ev w in
  match w_fault w (w_trace w) ev with
  | Some e => Ret (Err e) w1
  | None =>
      match op (w_fs w) with
      | Ok (a, fs') => Ret (Ok a) (set_fs fs' w1)
      | Err e => Ret (Err e) w1
      end
  end.

Definition keep {A} (op : filesys -> result A) (fs : filesys) : result (A * filesys) :=
  rbind (op fs) (fun a => Ok (a, fs)).

Definition follows (flags : Z) : bool := negb (has_flag flags AT_SYMLINK_NOFOLLOW).

Definition fstatat (dirfd : fd) (path : string) (flags : Z) : M (result stat) :=
  syscall (EvFstatat dirfd path flags)
    (keep (fun fs => fs_stat fs dirfd path (follows flags))).

Definition openat (dirfd : fd) (path : string) (flags : Z) (mode : Z) : M (result fileid) :=
  syscall (EvOpenat dirfd path flags mode)
    (fun fs =>
       if has_flag flags O_CREAT && has_flag flags O_EXCL
       then fs_open_excl fs dirfd path mode
       else keep (fun fs => fs_open fs dirfd path (has_flag flags O_DIRECTORY)
                              (negb (has_flag flags O_NOFOLLOW))) fs).

(** A directory stream: the descriptor and the names still to be read (the
    names the directory had when the stream was opened). *)
Definition DIR : Type := fileid * list string.

Definition fdopendir (f : fileid) : M (result DIR) :=
  syscall (EvFdopendir f)
    (keep (fun fs => rbind (fs_readdir fs f) (fun names => Ok (f, names)))).

(** [readdir (dir)]: the next name of the stream; NULL at its end, and
    NULL as well when the call fails. *)
Definition readdir (dir : fileid) (names : list string) : M (option string) :=
  r ← syscall (EvReaddir dir) (fun fs => Ok (head names, fs));
  mret (match r with Ok ent => ent | Err _ => None end).

Definition closedir (dir : DIR) : M unit := modify (log (EvClosedir (fst dir))).

Definition close (f : fileid) : M (result unit) :=
  syscall (EvClose f) (fun fs => Ok (tt, fs)).

Definition mkdirat (dirfd : fd) (path : string) (mode : Z) : M (result unit) :=
  syscall (EvMkdirat dirfd path mode)
    (fun fs => rbind (fs_mkdirat fs dirfd path mode) (fun r => Ok (tt, snd r))).

Definition fchownat (dirfd : fd) (path : string) (uid gid : Z) (flags : Z)
  : M (result unit) :=
  syscall (EvFchownat dirfd path uid gid flags)
    (fun fs => fs_fchownat fs dirfd path uid gid (follows flags)).

Definition fchown (f : fileid) (uid gid : Z) : M (result unit) :=
  syscall (EvFchown f uid gid) (fun fs => fs_fchown fs f uid gid).

Definition fchmodat (dirfd : fd) (path : string) (mode : Z) (flags : Z)
  : M (result unit) :=
  syscall (EvFchmodat dirfd path mode flags)
    (fun fs => fs_fchmodat fs dirfd path mode (follows flags)).

Definition fchmod (f : fileid) (mode : Z) : M (result unit) :=
  syscall (EvFchmod f mode) (fun fs => fs_fchmod fs f mode).

Definition utimensat (dirfd : fd) (path : string) (mt : timespec * timespec)
    (flags : Z) : M (result unit) :=
  syscall (EvUtimensat dirfd path mt flags)
    (fun fs => fs_utimensat fs dirfd path mt (follows flags)).

Definition symlinkat (target : string) (dirfd : fd) (path : string) : M (result unit) :=
  syscall (EvSymlinkat target dirfd path)
    (fun fs => rbind (fs_symlinkat fs target dirfd path) (fun r => Ok (tt, snd r))).

Definition linkat (olddirfd : fd) (oldpath : string) (newdirfd : fd)
    (newpath : string) (flags : Z) : M (result unit) :=
  syscall (EvLinkat olddirfd oldpath newdirfd newpath flags)
    (fun fs => fs_linkat fs olddirfd oldpath newdirfd newpath
                 (has_flag flags AT_SYMLINK_FOLLOW)).

Definition mknodat (dirfd : fd) (path : string) (mode dev : Z) : M (result unit) :=
  syscall (EvMknodat dirfd path mode dev)
    (fun fs => rbind (fs_mknodat fs dirfd path mode dev) (fun r => Ok (tt, snd r))).

(** [read (f, buf, count)] at [offset]: the bytes read, none at the end of
    the file. *)
Definition read (f : fileid) (offset count : nat) : M (result (list Byte.byte)) :=
  syscall (EvRead f offset)
    (keep (fun fs => rbind (fs_read fs f) (fun data => Ok (take count (drop offset data))))).

(** Modelled from the spec: [write_full] of lib/write_full.c, which writes
    the whole buffer, going on after short writes. *)
Definition write_full (f : fileid) (buf : list Byte.byte) : M (result unit) :=
  syscall (EvWrite f (length buf)) (fun fs => fs_write fs f buf).

(** Modelled from the spec: [areadlink] of lib/fs/readlink/areadlink.h,
    [readlink] into a fresh buffer, NULL on failure. *)
Definition areadlink (path : string) : M (option string) :=
  r ← syscall (EvReadlink path) (keep (fun fs => fs_readlink fs path));
  mret (match r with Ok t => Some t | Err _ => None end).

(** Modelled from the spec: [aprintf] of lib/string/sprintf/aprintf.h,
    the formatted string in a fresh buffer, NULL when there is no memory.
    ([xaprintf] and [XMALLOC] do not return on failure and are plain
    values here.) *)
Definition aprintf (s : string) : M (option string) :=
  r ← syscall (EvAprintf s) (fun fs => Ok (s, fs));
  mret (match r with Ok t => Some t | Err _ => None end).

(** Modelled from the spec: [set_selinux_file_context] and
    [reset_selinux_file_context] of lib/selinux.c, "set_label(path,
    file_type)" and "reset_label()".  They do not touch the files. *)
Definition set_selinux_file_context (path : string) (ftype : Z) : M (result unit) :=
  syscall (EvSetSelinux path ftype) (fun fs => Ok (tt, fs)).

Definition reset_selinux_file_context : M (result unit) :=
  syscall EvResetSelinux (fun fs => Ok (tt, fs)).

(** [fprintf (log_get_logfd (), ...)] *)
Definition fprintf_log (msg : string) : M unit := modify (log (EvLog msg)).

(** ** copydir.c *)

Record path_info := {
  full_path : string;
  dirfd : fd;
  name : string
}.

Local Infix ".|" := Z.lor (at level 40, left associativity).

(** C's [a || b] on operands that run code: [b] runs only if [a] is false. *)
Definition orelse (a b : M bool) : M bool :=
  x ← a; if x : bool then mret true else b.
Local Infix "|||" := orelse (at level 50, left associativity).

(** [call != 0] and [call == -1] for a call that returns 0 or -1. *)
Definition failed {A} (call : M (result A)) : M bool :=
  r ← call; mret (negb (is_ok r)).

(** What a call leaves in [errno]: its error if it failed. *)
Definition errno_after {A} (r : result A) (before : option errno) : option errno :=
  match r with
  | Err e => Some e
  | Ok _ => before
  end.

Definition tree_copier : Type :=
  path_info -> path_info -> bool -> bool -> Z -> Z -> Z -> Z -> M Z.

Section copydir.

(** The build options: code under [#ifdef WITH_SELINUX], [WITH_ACL],
    [WITH_ATTR] is present when the option is set. *)
Variables WITH_SELINUX WITH_ACL WITH_ATTR : bool.

(** [error_acl]: the error callback handed to libacl and libattr; the
    result is what it leaves in [errno]. *)
Definition error_acl (e : errno) : M (option errno) :=
  if decide (ENOTSUP = e) then mret None
  else fprintf_log "error_acl";; mret (Some e).

(** libacl's [perm_copy_fd] and libattr's [attr_copy_fd] with [error_acl]
    as error callback: the return value and [errno]. *)
Definition perm_copy_fd (src_fd dst_fd : fileid) : M (Z * option errno) :=
  r ← syscall (EvPermCopy src_fd dst_fd) (fun fs => fs_perm_copy fs src_fd dst_fd);
  match r with
  | Ok _ => mret (0, None)
  | Err e => en ← error_acl e; mret (-1, en)
  end.

Definition attr_copy_fd (src_fd dst_fd : fileid) : M (Z * option errno) :=
  r ← syscall (EvAttrCopy src_fd dst_fd) (fun fs => fs_attr_copy fs src_fd dst_fd);
  match r with
  | Ok _ => mret (0, None)
  | Err e => en ← error_acl e; mret (-1, en)
  end.

Definition copy_path (copy_fd : fileid -> fileid -> M (Z * option errno))
    (src dst : path_info) : M (Z * option errno) :=
  src_fd ← openat (dirfd src) (name src)
             (O_RDONLY .| O_NOFOLLOW .| O_NONBLOCK .| O_CLOEXEC) 0;
  match src_fd with
  | Err e => mret (-1, Some e)
  | Ok src_fd =>
      dst_fd ← openat (dirfd dst) (name dst)
                 (O_RDONLY .| O_NOFOLLOW .| O_NONBLOCK .| O_CLOEXEC) 0;
      match dst_fd with
      | Err e =>
          c ← close src_fd;
          mret (-1, errno_after c (Some e))
      | Ok dst_fd =>
          ret ← copy_fd src_fd dst_fd;
          c1 ← close src_fd;
          c2 ← close dst_fd;
          mret (fst ret, errno_after c2 (errno_after c1 (snd ret)))
      end
  end.

Definition perm_copy_path : path_info -> path_info -> M (Z * option errno) :=
  copy_path perm_copy_fd.

Definition attr_copy_path : path_info -> path_info -> M (Z * option errno) :=
  copy_path attr_copy_fd.

(** [(call != 0) && (errno != 0)] *)
Definition failed_with_errno (call : M (Z * option errno)) : M bool :=
  r ← call; mret (negb (fst r =? 0) && bool_decide (snd r ≠ None)).

(** [remove_link]: [ln] is the position of the node in [links]. *)
Definition remove_link (ln : nat) : M unit :=
  modify (fun w => set_links (delete ln (links w)) w).

(** The first node of [links] for the file [sb] describes. *)
Fixpoint find_link (l : list link_name) (sb : stat) : option nat :=
  match l with
  | [] => None
  | lp :: l' =>
      if (ln_dev lp =? st_dev sb) && (ln_ino lp =? st_ino sb) then Some O
      else S <$> find_link l' sb
  end.

Definition is_some {A} (o : option A) : bool :=
  match o with Some _ => true | None => false end.

Definition check_link (nm : string) (sb : stat) : M (option nat) :=
  so ← get src_orig;
  do ← get dst_orig;
  assert (is_some so);;
  assert (is_some do);;
  l ← get links;
  match find_link l sb with
  | Some lp => mret (Some lp)
  | None =>
      if st_nlink sb =? 1 then mret None
      else
        let lp := {| ln_dev := st_dev sb;
                     ln_ino := st_ino sb;
                     ln_count := st_nlink sb;
                     ln_name := default "" do +:+ str_offset nm (strlen (default "" so)) |} in
        modify (fun w => set_links (lp :: links w) w);;
        mret None
  end.

(** [def_chown_if_needed (chown_function, type_dst)] *)
Definition def_chown_if_needed {type_dst : Type}
    (chown_function : type_dst -> Z -> Z -> M (result unit))
    (dst : type_dst) (statp : stat) (old_uid new_uid old_gid new_gid : Z)
  : M (result unit) :=
  let tmpuid := ID_UNSET in
  let tmpgid := ID_UNSET in
  let tmpuid := if (ID_UNSET =? old_uid) || (st_uid statp =? old_uid)
                then new_uid else tmpuid in
  let tmpuid := if ID_UNSET =? tmpuid then st_uid statp else tmpuid in
  let tmpgid := if (ID_UNSET =? old_gid) || (st_gid statp =? old_gid)
                then new_gid else tmpgid in
  let tmpgid := if ID_UNSET =? tmpgid then st_gid statp else tmpgid in
  chown_function dst tmpuid tmpgid.

Definition fchown_if_needed : fileid -> stat -> Z -> Z -> Z -> Z -> M (result unit) :=
  def_chown_if_needed fchown.

Definition chownat_if_needed (dst : path_info) (statp : stat)
    (old_uid new_uid old_gid new_gid : Z) : M (result unit) :=
  let tmpuid := ID_UNSET in
  let tmpgid := ID_UNSET in
  let tmpuid := if (ID_UNSET =? old_uid) || (st_uid statp =? old_uid)
                then new_uid else tmpuid in
  let tmpuid := if ID_UNSET =? tmpuid then st_uid statp else tmpuid in
  let tmpgid := if (ID_UNSET =? old_gid) || (st_gid statp =? old_gid)
                then new_gid else tmpgid in
  let tmpgid := if ID_UNSET =? tmpgid then st_gid statp else tmpgid in
  fchownat (dirfd dst) (name dst) tmpuid tmpgid AT_SYMLINK_NOFOLLOW.

Definition copy_dir (copy_tree_impl : tree_copier) (src dst : path_info)
    (reset_selinux : bool) (statp : stat) (mt : timespec * timespec)
    (old_uid new_uid old_gid new_gid : Z) : M Z :=
  sel ← (if WITH_SELINUX
         then failed (set_selinux_file_context (full_path dst) S_IFDIR)
         else mret false);
  if sel : bool then mret (-1) else
  dst_sb ← fstatat (dirfd dst) (name dst) AT_SYMLINK_NOFOLLOW;
  if match dst_sb with Ok sb => S_ISDIR (st_mode sb) | Err _ => false end
  then
    r ← copy_tree_impl src dst false reset_selinux old_uid new_uid old_gid new_gid;
    mret (if r =? 0 then 0 else 1)
  else
    bad ← (failed (mkdirat (dirfd dst) (name dst) MODE_0700)
           ||| failed (chownat_if_needed dst statp old_uid new_uid old_gid new_gid)
           ||| failed (fchmodat (dirfd dst) (name dst)
                         (Z.land (st_mode statp) PERM_MASK) AT_SYMLINK_NOFOLLOW)
           ||| (if WITH_ACL
                then failed_with_errno (perm_copy_path src dst)
                else mret false)
           ||| (if WITH_ATTR && negb reset_selinux
                then failed_with_errno (attr_copy_path src dst)
                else mret false)
           ||| (r ← copy_tree_impl src dst false reset_selinux
                      old_uid new_uid old_gid new_gid;
                mret (negb (r =? 0)))
           ||| failed (utimensat (dirfd dst) (name dst) mt AT_SYMLINK_NOFOLLOW));
    mret (if bad : bool then -1 else 0).

Definition copy_symlink (src dst : path_info) (reset_selinux : bool)
    (statp : stat) (mt : timespec * timespec)
    (old_uid new_uid old_gid new_gid : Z) : M Z :=
  so ← get src_orig;
  do ← get dst_orig;
  assert (is_some so);;
  assert (is_some do);;
  oldlink ← areadlink (full_path src);
  match oldlink with
  | None => mret (-1)
  | Some oldlink =>
      let oldlink :=
        if strprefix oldlink (default "" so)
        then default "" do +:+ str_offset oldlink (strlen (default "" so))
        else oldlink in
      sel ← (if WITH_SELINUX
             then failed (set_selinux_file_context (full_path dst) S_IFLNK)
             else mret false);
      if sel : bool then mret (-1) else
      bad ← (failed (symlinkat oldlink (dirfd dst) (name dst))
             ||| failed (chownat_if_needed dst statp old_uid new_uid old_gid new_gid));
      if bad : bool then mret (-1) else
      u ← utimensat (dirfd dst) (name dst) mt AT_SYMLINK_NOFOLLOW;
      if is_ok u then mret 0 else mret (-1)
  end.

(** [lp] is the position in [links] of the node [check_link] returned. *)
Definition copy_hardlink (dst : path_info) (reset_selinux : bool) (lp : nat) : M Z :=
  l ← get links;
  match l !! lp with
  | None => fun w => Abort w
  | Some node =>
      r ← linkat AT_FDCWD (ln_name node) (dirfd dst) (name dst) 0;
      if negb (is_ok r) then mret (-1) else
      let count := wrap nlink_t_bits (ln_count node - 1) in
      modify (fun w =>
        set_links (<[lp := {| ln_dev := ln_dev node; ln_ino := ln_ino node;
                              ln_count := count; ln_name := ln_name node |}]>
                     (links w)) w);;
      (if count <=? 0 then remove_link lp else mret tt);;
      mret 0
  end.

Definition copy_special (src dst : path_info) (reset_selinux : bool)
    (statp : stat) (mt : timespec * timespec)
    (old_uid new_uid old_gid new_gid : Z) : M Z :=
  sel ← (if WITH_SELINUX
         then failed (set_selinux_file_context (full_path dst)
                        (Z.land (st_mode statp) S_IFMT))
         else mret false);
  if sel : bool then mret (-1) else
  r ← mknodat (dirfd dst) (name dst)
        (Z.land (st_mode statp) (wrap mode_t_bits (Z.lnot PERM_MASK))) (st_rdev statp);
  if negb (is_ok r) then mret (-1) else
  r ← chownat_if_needed dst statp old_uid new_uid old_gid new_gid;
  if negb (is_ok r) then mret (-1) else
  r ← fchmodat (dirfd dst) (name dst) (Z.land (st_mode statp) PERM_MASK)
        AT_SYMLINK_NOFOLLOW;
  if negb (is_ok r) then mret (-1) else
  acl ← (if WITH_ACL then failed_with_errno (perm_copy_path src dst) else mret false);
  if acl : bool then mret (-1) else
  attr ← (if WITH_ATTR && negb reset_selinux
          then failed_with_errno (attr_copy_path src dst)
          else mret false);
  if attr : bool then mret (-1) else
  r ← utimensat (dirfd dst) (name dst) mt AT_SYMLINK_NOFOLLOW;
  if negb (is_ok r) then mret (-1) else
  mret 0.

(** The [while (true)] loop of [copy_file]; [offset] is the file position
    of [ifd].  An interrupted [read] is tried again; [fuel] bounds the
    number of rounds. *)
Fixpoint copy_file_loop (fuel : nat) (ifd ofd : fileid) (offset : nat) : M Z :=
  match fuel with
  | O => out_of_fuel
  | S fuel' =>
      cnt ← read ifd offset (Z.to_nat 8192);
      match cnt with
      | Err e =>
          if decide (e = EINTR) then copy_file_loop fuel' ifd ofd offset
          else close ofd;; close ifd;; mret (-1)
      | Ok buf =>
          if is_nil buf then mret 0
          else
            w ← write_full ofd buf;
            if negb (is_ok w) then close ofd;; close ifd;; mret (-1)
            else copy_file_loop fuel' ifd ofd (offset + length buf)%nat
      end
  end.

Definition copy_file (fuel : nat) (src dst : path_info) (reset_selinux : bool)
    (statp : stat) (mt : timespec * timespec)
    (old_uid new_uid old_gid new_gid : Z) : M Z :=
  ifd ← openat (dirfd src) (name src) (O_RDONLY .| O_NOFOLLOW .| O_CLOEXEC) 0;
  match ifd with
  | Err _ => mret (-1)
  | Ok ifd =>
      sel ← (if WITH_SELINUX
             then failed (set_selinux_file_context (full_path dst) S_IFREG)
             else mret false);
      if sel : bool then close ifd;; mret (-1) else
      ofd ← openat (dirfd dst) (name dst)
              (O_WRONLY .| O_CREAT .| O_EXCL .| O_TRUNC .| O_NOFOLLOW .| O_CLOEXEC)
              MODE_0600;
      match ofd with
      | Err _ => close ifd;; mret (-1)
      | Ok ofd =>
          bad ← (failed (fchown_if_needed ofd statp old_uid new_uid old_gid new_gid)
                 ||| failed (fchmod ofd (Z.land (st_mode statp) PERM_MASK))
                 ||| (if WITH_ACL
                      then failed_with_errno (perm_copy_fd ifd ofd)
                      else mret false)
                 ||| (if WITH_ATTR && negb reset_selinux
                      then failed_with_errno (attr_copy_fd ifd ofd)
                      else mret false));
          if bad : bool then close ofd;; close ifd;; mret (-1) else
          r ← copy_file_loop fuel ifd ofd 0;
          if negb (r =? 0) then mret r else
          close ifd;;
          c ← close ofd;
          if match c with Err e => bool_decide (e ≠ EINTR) | Ok _ => false end
          then mret (-1) else
          u ← utimensat (dirfd dst) (name dst) mt AT_SYMLINK_NOFOLLOW;
          if negb (is_ok u) then mret (-1) else
          mret 0
      end
  end.

Definition copy_entry (copy_tree_impl : tree_copier) (fuel : nat)
    (src dst : path_info) (reset_selinux : bool)
    (old_uid new_uid old_gid new_gid : Z) : M Z :=
  sb ← fstatat (dirfd src) (name src) AT_SYMLINK_NOFOLLOW;
  match sb with
  | Err _ => mret 0
  | Ok sb =>
      let mt := (st_atim sb, st_mtim sb) in
      err ← (if S_ISDIR (st_mode sb)
             then copy_dir copy_tree_impl src dst reset_selinux sb mt
                    old_uid new_uid old_gid new_gid
             else mret 0);
      tmp_sb ← fstatat (dirfd dst) (name dst) AT_SYMLINK_NOFOLLOW;
      if is_ok tmp_sb then mret err
      else if S_ISLNK (st_mode sb) then
        copy_symlink src dst reset_selinux sb mt old_uid new_uid old_gid new_gid
      else
        lp ← check_link (full_path src) sb;
        match lp with
        | Some lp => copy_hardlink dst reset_selinux lp
        | None =>
            if negb (S_ISREG (st_mode sb)) then
              copy_special src dst reset_selinux sb mt old_uid new_uid old_gid new_gid
            else
              copy_file fuel src dst reset_selinux sb mt old_uid new_uid old_gid new_gid
        end
  end.

(** The body of the [while] loop of [copy_tree_impl] for one name. *)
Definition copy_tree_entry (copy_tree_impl : tree_copier) (fuel : nat)
    (src dst : path_info) (dir dst_fd : fileid) (d_name : string) (err : Z)
    (reset_selinux : bool) (old_uid new_uid old_gid new_gid : Z) : M Z :=
  if streq d_name "." || streq d_name ".." then mret err
  else
    src_name ← aprintf (full_path src +:+ "/" +:+ d_name);
    match src_name with
    | None => mret (-1)
    | Some src_name =>
        dst_name ← aprintf (full_path dst +:+ "/" +:+ d_name);
        match dst_name with
        | None => mret (-1)
        | Some dst_name =>
            let src_entry :=
              {| full_path := src_name; dirfd := FD dir; name := d_name |} in
            let dst_entry :=
              {| full_path := dst_name; dirfd := FD dst_fd; name := d_name |} in
            copy_entry copy_tree_impl fuel src_entry dst_entry reset_selinux
              old_uid new_uid old_gid new_gid
        end
    end.

(** [while ((0 == err) && (ent = readdir (dir)) != NULL)], on the names
    the stream still holds.  The loop ends when [readdir] returns NULL,
    be it at the end of the stream or on an error: [errno] is not looked
    at, and [err] is still 0 then. *)
Fixpoint copy_tree_loop (copy_tree_impl : tree_copier) (fuel : nat)
    (src dst : path_info) (dir dst_fd : fileid) (names : list string) (err : Z)
    (reset_selinux : bool) (old_uid new_uid old_gid new_gid : Z) : M Z :=
  if negb (0 =? err) then mret err
  else
    ent ← readdir dir names;
    match ent, names with
    | Some d_name, _ :: rest =>
        err ← copy_tree_entry copy_tree_impl fuel src dst dir dst_fd d_name err
                reset_selinux old_uid new_uid old_gid new_gid;
        copy_tree_loop copy_tree_impl fuel src dst dir dst_fd rest err
          reset_selinux old_uid new_uid old_gid new_gid
    | _, _ => mret err
    end.

Fixpoint copy_tree_impl (fuel : nat) (src dst : path_info)
    (copy_root reset_selinux : bool) (old_uid new_uid old_gid new_gid : Z) : M Z :=
  match fuel with
  | O => out_of_fuel
  | S fuel' =>
      if copy_root then
        d ← fstatat (dirfd dst) (name dst) 0;
        if match d with Ok _ => true | Err e => bool_decide (e ≠ ENOENT) end
        then mret (-1) else
        s ← fstatat (dirfd src) (name src) AT_SYMLINK_NOFOLLOW;
        match s with
        | Err _ => mret (-1)
        | Ok sb =>
            if negb (S_ISDIR (st_mode sb)) then
              fprintf_log (full_path src +:+ " is not a directory");;
              mret (-1)
            else
              copy_entry (copy_tree_impl fuel') fuel' src dst reset_selinux
                old_uid new_uid old_gid new_gid
        end
      else
        src_fd ← openat (dirfd src) (name src)
                   (O_DIRECTORY .| O_RDONLY .| O_NOFOLLOW .| O_CLOEXEC) 0;
        match src_fd with
        | Err _ => mret (-1)
        | Ok src_fd =>
            dst_fd ← openat (dirfd dst) (name dst)
                       (O_DIRECTORY .| O_RDONLY .| O_NOFOLLOW .| O_CLOEXEC) 0;
            match dst_fd with
            | Err _ => close src_fd;; mret (-1)
            | Ok dst_fd =>
                dir ← fdopendir src_fd;
                match dir with
                | Err _ => close src_fd;; close dst_fd;; mret (-1)
                | Ok dir =>
                    so ← get src_orig;
                    let set_orig := negb (is_some so) in
                    (if set_orig
                     then modify (set_roots (Some (full_path src)) (Some (full_path dst)))
                     else mret tt);;
                    err ← copy_tree_loop (copy_tree_impl fuel') fuel' src dst
                            (fst dir) dst_fd (snd dir) 0 reset_selinux
                            old_uid new_uid old_gid new_gid;
                    closedir dir;;
                    close dst_fd;;
                    (if set_orig then modify (set_roots None None) else mret tt);;
                    sel ← (if WITH_SELINUX then failed reset_selinux_file_context
                           else mret false);
                    mret (if sel : bool then -1 else err)
                end
            end
        end
  end.

Definition copy_tree (fuel : nat) (src_root dst_root : string)
    (copy_root reset_selinux : bool) (old_uid new_uid old_gid new_gid : Z) : M Z :=
  let src := {| full_path := src_root; dirfd := AT_FDCWD; name := src_root |} in
  let dst := {| full_path := dst_root; dirfd := AT_FDCWD; name := dst_root |} in
  copy_tree_impl fuel src dst copy_root reset_selinux old_uid new_uid old_gid new_gid.

End copydir.

(** ** The specification's remapper *)

(** Section 4.5 of the specification: the effective id is [new] if [old] is
    unset or the source id equals [old], and [new] is itself set; otherwise
    it is the source id. *)
Definition remap_spec (old new cur : Z) : Z :=
  if ((old =? ID_UNSET) || (cur =? old)) && negb (new =? ID_UNSET) then new else cur.

(** The remap law of the specification, read as a relation: [r] is the id
    the law gives to a copy of an entry whose source id is [u] (a real id,
    not the value [-1] that [chown] takes for "leave it as it is"). *)
Definition remap_law (old new u r : Z) : Prop :=
  ((old = ID_UNSET \/ u = old) /\ new <> ID_UNSET -> r = new) /\
  (~ ((old = ID_UNSET \/ u = old) /\ new <> ID_UNSET) -> u <> ID_UNSET -> r = u).

(** ** A sample tree *)

(** The scenario of the specification: /skel holds .bashrc (mode 0644),
    the link bin -> ../usr/bin, the files a and b, which are one inode
    with two links, the link self -> /skel/a and the directory sub (mode
    0555, owner 7) with one file; /home/newuser is an empty directory. *)
Definition at_time (n : Z) : timespec := {| tv_sec := n; tv_nsec := 0 |}.

Definition mk_inode (perm nlink uid gid : Z) (a m : timespec) (b : payload) : inode :=
  {| i_perm := perm; i_nlink := nlink; i_uid := uid; i_gid := gid;
     i_atim := a; i_mtim := m; i_acl := []; i_xattr := []; i_body := b |}.

Definition mk_dir (self parent : fileid) (es : list (string * fileid)) : payload :=
  PDir ((".", self) :: ("..", parent) :: es).

Definition skel_fs : filesys :=
  {| fs_inodes := list_to_map [
       ((1, 1), mk_inode 0x1ED 4 0 0 (at_time 1) (at_time 1)
                  (mk_dir (1, 1) (1, 1) [("skel", (1, 2)); ("home", (1, 3))]));
       ((1, 2), mk_inode 0x1ED 3 0 0 (at_time 2) (at_time 3)
                  (mk_dir (1, 2) (1, 1)
                     [(".bashrc", (1, 10)); ("bin", (1, 11)); ("a", (1, 12));
                      ("b", (1, 12)); ("self", (1, 13)); ("sub", (1, 14))]));
       ((1, 3), mk_inode 0x1ED 3 0 0 (at_time 1) (at_time 1)
                  (mk_dir (1, 3) (1, 1) [("newuser", (1, 4))]));
       ((1, 4), mk_inode 0x1C0 2 0 0 (at_time 1) (at_time 1) (mk_dir (1, 4) (1, 3) []));
       ((1, 10), mk_inode 0x1A4 1 0 0 (at_time 5) (at_time 6)
                   (PReg [Byte.x68; Byte.x69]));
       ((1, 11), mk_inode 0x1FF 1 0 0 (at_time 7) (at_time 8) (PLnk "../usr/bin"));
       ((1, 12), mk_inode 0x1A4 2 0 0 (at_time 9) (at_time 10) (PReg [Byte.x7a]));
       ((1, 13), mk_inode 0x1FF 1 0 0 (at_time 11) (at_time 12) (PLnk "/skel/a"));
       ((1, 14), mk_inode 0x16D 2 7 7 (at_time 13) (at_time 14)
                   (mk_dir (1, 14) (1, 2) [("f", (1, 15))]));
       ((1, 15), mk_inode 0x124 1 7 7 (at_time 15) (at_time 16) (PReg []))
     ];
     fs_root := (1, 1);
     fs_cwd := (1, 1);
     fs_euid := 0;
     fs_egid := 0;
     fs_next_ino := 100;
     fs_clock := 1000 |}.

Definition no_fault : list event -> event -> option errno := fun _ _ => None.

(** The state of a process that has not called [copy_tree] yet. *)
Definition fresh_world (fs : filesys) (fault : list event -> event -> option errno)
  : world :=
  {| w_fs := fs; src_orig := None; dst_orig := None; links := [];
     w_trace := []; w_fault := fault |}.

Definition skel_world : world := fresh_world skel_fs no_fault.

(** The state inside a walk from /skel to /home/newuser. *)
Definition skel_walk : world :=
  set_roots (Some "/skel") (Some "/home/newuser") skel_world.

Definition skel_entry (nm : string) : path_info :=
  {| full_path := "/skel/" +:+ nm; dirfd := FD (1, 2); name := nm |}.

Definition newuser_entry (nm : string) : path_info :=
  {| full_path := "/home/newuser/" +:+ nm; dirfd := FD (1, 4); name := nm |}.

(** The value and the state of a run that returned. *)
Definition result_of {A} (o : outcome A) : option A :=
  match o with Ret a _ => Some a | _ => None end.

Definition state_of {A} (o : outcome A) : option world :=
  match o with Ret _ w => Some w | _ => None end.


(** A registry node is for the file [sb] describes. *)
Definition same_file (lp : link_name) (sb : stat) : Prop :=
  ln_dev lp = st_dev sb /\ ln_ino lp = st_ino sb.

Definition with_count (n : Z) (lp : link_name) : link_name :=
  {| ln_dev := ln_dev lp; ln_ino := ln_ino lp; ln_count := n; ln_name := ln_name lp |}.

(** What [fstatat] with AT_SYMLINK_NOFOLLOW would say in state [w] if the
    environment did not refuse the call. *)
Definition lstat_in (w : world) (p : path_info) : option stat :=
  match fs_stat (w_fs w) (dirfd p) (name p) false with
  | Ok sb => Some sb
  | Err _ => None
  end.

(** [lstat] of a path from the working directory in the state a run left. *)
Definition lstat_after {A} (o : outcome A) (path : string) : option stat :=
  match o with
  | Ret _ w =>
      match fs_stat (w_fs w) AT_FDCWD path false with
      | Ok sb => Some sb
      | Err _ => None
      end
  | _ => None
  end.


(** ** Growth of the file system *)

Definition in_use (fs : filesys) (id : fileid) : Prop :=
  is_Some (fs_inodes fs !! id) \/ referenced fs id = true.

(** [fs'] extends [fs]: no file is lost, every directory keeps the entries
    it has, in their order, and a file in use that is a symbolic link stays
    one with its target (and one that is none does not become one).  The
    functions of copydir.c only ever extend the file system: they remove
    and rename nothing. *)
Record fs_ext (fs fs' : filesys) : Prop := {
  ext_root : fs_root fs' = fs_root fs;
  ext_cwd : fs_cwd fs' = fs_cwd fs;
  ext_inodes : forall id, is_Some (fs_inodes fs !! id) -> is_Some (fs_inodes fs' !! id);
  ext_entries : forall d es, fs_entries fs d = Ok es ->
                  exists extra, fs_entries fs' d = Ok (es ++ extra);
  ext_links : forall id, in_use fs id -> link_target fs' id = link_target fs id
}.

(** The same for the state of the process: the oracle and [src_orig] are
    as before. *)
Definition world_ext (w w' : world) : Prop :=
  fs_ext (w_fs w) (w_fs w') /\ w_fault w' = w_fault w /\ src_orig w' = src_orig w.

(** Every run of [m] that returns leaves a state related to the initial
    one by [R]. *)
Definition keeps (R : world -> world -> Prop) {A} (m : M A) : Prop :=
  forall w a w', m w = Ret a w' -> R w w'.


(** How the content of a file may change when the file system grows. *)
Definition body_ext (b b' : payload) : Prop :=
  match b with
  | PDir es => exists extra, b' = PDir (es ++ extra)
  | PLnk t => b' = PLnk t
  | _ => forall t, b' <> PLnk t
  end.


(** An update of the file system that can only make it grow. *)
Definition grows {A} (op : filesys -> result (A * filesys)) : Prop :=
  forall fs a fs', op fs = Ok (a, fs') -> fs_ext fs fs'.


(** ** Runs of the directory loop *)

(** The flags [copy_tree_impl] opens its two directories with. *)
Definition OPEN_DIR_FLAGS : Z :=
  Z.lor (Z.lor (Z.lor O_DIRECTORY O_RDONLY) O_NOFOLLOW) O_CLOEXEC.

(** [siblings_ok ... names w w']: from state [w] the loop of
    [copy_tree_impl] reads the names [names] one after the other, every
    one of them is handled with result 0, and the state is then [w']. *)
Inductive siblings_ok (S A X : bool) (rec : tree_copier) (fuel : nat)
    (src dst : path_info) (dir dst_fd : fileid) (rs : bool) (a b c d : Z)
  : list string -> world -> world -> Prop :=
| siblings_nil w : siblings_ok S A X rec fuel src dst dir dst_fd rs a b c d [] w w
| siblings_cons d_name names w w1 w2 :
    w_fault w (w_trace w) (EvReaddir dir) = None ->
    copy_tree_entry S A X rec fuel src dst dir dst_fd d_name 0 rs a b c d
      (log (EvReaddir dir) w) = Ret 0 w1 ->
    siblings_ok S A X rec fuel src dst dir dst_fd rs a b c d names w1 w2 ->
    siblings_ok S A X rec fuel src dst dir dst_fd rs a b c d (d_name :: names) w w2.

(** The state in which the loop of [copy_tree_impl] starts: the outermost
    call records the two roots. *)
Definition enter_walk (src dst : path_info) (w : world) : world :=
  match src_orig w with
  | None => set_roots (Some (full_path src)) (Some (full_path dst)) w
  | Some _ => w
  end.

(** The state one round of the loop leaves. *)
Definition after_entry (S A X : bool) (fuel : nat) (src dst : path_info)
    (dir dst_fd : fileid) (d_name : string) (w : world) : world :=
  match copy_tree_entry S A X (copy_tree_impl S A X fuel) fuel src dst dir dst_fd
          d_name 0 false ID_UNSET 1001 ID_UNSET 1001 (log (EvReaddir dir) w) with
  | Ret _ w' => w'
  | _ => w
  end.

(** The walk from /skel to /home/newuser in an environment that refuses to
    make the symbolic link bin. *)
Definition refuse_bin (tr : list event) (ev : event) : option errno :=
  match ev with
  | EvSymlinkat _ _ "bin" => Some EACCES
  | _ => None
  end.

Definition skel_src : path_info :=
  {| full_path := "/skel"; dirfd := AT_FDCWD; name := "/skel" |}.
Definition newuser_dst : path_info :=
  {| full_path := "/home/newuser"; dirfd := AT_FDCWD; name := "/home/newuser" |}.

Definition c9_start : world := fresh_world skel_fs refuse_bin.
Definition c9_opened : world :=
  log (EvFdopendir (1, 2))
    (log (EvOpenat AT_FDCWD "/home/newuser" OPEN_DIR_FLAGS 0)
       (log (EvOpenat AT_FDCWD "/skel" OPEN_DIR_FLAGS 0) c9_start)).
Definition c9_step (d_name : string) (w : world) : world :=
  after_entry false false false 3 skel_src newuser_dst (1, 2) (1, 4) d_name w.
Definition c9_before_bin : world :=
  c9_step ".bashrc" (c9_step ".." (c9_step "." (enter_walk skel_src newuser_dst c9_opened))).
Definition c9_after_bin : world := c9_step "bin" c9_before_bin.


(** ** Probes *)

(** The [fstatat] call with AT_SYMLINK_NOFOLLOW on the entry [p], and its
    answer in state [w]: the refusal of the environment, or the status of
    the file the path names, a symbolic link at its end not followed. *)
Definition lstat_event (p : path_info) : event :=
  EvFstatat (dirfd p) (name p) AT_SYMLINK_NOFOLLOW.

Definition probe_nofollow (w : world) (p : path_info) : result stat :=
  match w_fault w (w_trace w) (lstat_event p) with
  | Some e => Err e
  | None => fs_stat (w_fs w) (dirfd p) (name p) false
  end.


(** The state a run leaves (the initial state if it does not return). *)
Definition final_state {A} (w : world) (m : M A) : world :=
  match m w with
  | Ret _ w' => w'
  | _ => w
  end.

Definition self_stat : stat :=
  stat_of (1, 13) (mk_inode 0x1FF 1 0 0 (at_time 11) (at_time 12) (PLnk "/skel/a")).

Definition c6_after : world :=
  final_state skel_walk
    (copy_symlink false (skel_entry "self") (newuser_entry "self") false self_stat
       (at_time 11, at_time 12) ID_UNSET 1001 ID_UNSET 1001).


(** ** Timestamps *)

(** In state [w] the entry [dst] is there with access and modification
    times [mt], and the last call made was the [utimensat] that set them. *)
Definition stamped (w : world) (dst : path_info) (mt : timespec * timespec) : Prop :=
  (exists sb, fs_stat (w_fs w) (dirfd dst) (name dst) false = Ok sb /\
              st_atim sb = fst mt /\ st_mtim sb = snd mt) /\
  exists tr, w_trace w = tr ++ [EvUtimensat (dirfd dst) (name dst) mt AT_SYMLINK_NOFOLLOW].


(** ** The steps of the directory strategy *)

(** The SELinux step and the two attribute-copy steps as the strategies
    have them: present when built in, and for the extended attributes when
    [reset_selinux] is off; the value is "failed". *)
Definition selinux_step (S : bool) (path : string) (ftype : Z) : M bool :=
  if S then failed (set_selinux_file_context path ftype) else mret false.

Definition acl_step (A : bool) (src dst : path_info) : M bool :=
  if A then failed_with_errno (perm_copy_path src dst) else mret false.

Definition attr_step (X rs : bool) (src dst : path_info) : M bool :=
  if X && negb rs then failed_with_errno (attr_copy_path src dst) else mret false.

(** The permission bits and the owner-write bit of the entry [p] in state
    [w]. *)
Definition perm_in (w : world) (p : path_info) : option Z :=
  match fs_stat (w_fs w) (dirfd p) (name p) false with
  | Ok sb => Some (Z.land (st_mode sb) PERM_MASK)
  | Err _ => None
  end.

Definition owner_writable (perm : Z) : bool := negb (Z.land perm S_IWUSR =? 0).

(** [dir_copied ... w w']: from state [w] the directory strategy has run
    in full, with result 0, and has left [w'].  After the SELinux step it
    has either found a directory at the destination and run the walk [rec]
    into it; or made the directory with mode 0700, set its owner and its
    mode, copied ACL and extended attributes, run the walk, and set the
    times, each step from the state the step before it left. *)
Definition dir_copied (S A X : bool) (rec : tree_copier) (src dst : path_info)
    (rs : bool) (statp : stat) (mt : timespec * timespec) (a b c d : Z)
    (w w' : world) : Prop :=
  exists w0,
    selinux_step S (full_path dst) S_IFDIR w = Ret false w0 /\
    ((exists sb', probe_nofollow w0 dst = Ok sb' /\ S_ISDIR (st_mode sb') = true /\
        rec src dst false rs a b c d (log (lstat_event dst) w0) = Ret 0 w') \/
     ((forall sb', probe_nofollow w0 dst = Ok sb' -> S_ISDIR (st_mode sb') = false) /\
      exists w1 w2 w3 w4 wp wr,
        mkdirat (dirfd dst) (name dst) MODE_0700 (log (lstat_event dst) w0) = Ret (Ok tt) w1 /\
        chownat_if_needed dst statp a b c d w1 = Ret (Ok tt) w2 /\
        fchmodat (dirfd dst) (name dst) (Z.land (st_mode statp) PERM_MASK)
          AT_SYMLINK_NOFOLLOW w2 = Ret (Ok tt) w3 /\
        acl_step A src dst w3 = Ret false w4 /\
        attr_step X rs src dst w4 = Ret false wp /\
        rec src dst false rs a b c d wp = Ret 0 wr /\
        utimensat (dirfd dst) (name dst) mt AT_SYMLINK_NOFOLLOW wr = Ret (Ok tt) w')).


(** [fs'] extends [fs] and every file of [fs] has the type and the
    permission bits it had. *)
Definition modes_kept (fs fs' : filesys) : Prop :=
  fs_ext fs fs' /\
  forall id i, fs_inodes fs !! id = Some i ->
    exists i', fs_inodes fs' !! id = Some i' /\
               st_mode (stat_of id i') = st_mode (stat_of id i).

Definition world_modes_kept (w w' : world) : Prop := modes_kept (w_fs w) (w_fs w').


(** The directory /skel/sub of the sample tree: mode 0555, owner 7. *)
Definition sub_stat : stat :=
  stat_of (1, 14) (mk_inode 0x16D 2 7 7 (at_time 13) (at_time 14)
                     (mk_dir (1, 14) (1, 2) [("f", (1, 15))])).

Definition c3_after : world :=
  final_state skel_walk
    (copy_dir false false false (copy_tree_impl false false false 3)
       (skel_entry "sub") (newuser_entry "sub") false sub_stat
       (at_time 13, at_time 14) ID_UNSET 1001 ID_UNSET 1001).

(** A walk that first writes to the log whether the destination directory
    is writable by its owner, and then is [copy_tree_impl]. *)
Definition report_writable (dst : path_info) : M unit :=
  fun w =>
    Ret tt (log (EvLog (match perm_in w dst with
                        | Some p => if owner_writable p then "owner-writable"
                                    else "not owner-writable"
                        | None => "missing"
                        end)) w).

Definition observed_walk (fuel : nat) : tree_copier :=
  fun src dst copy_root rs a b c d =>
    report_writable dst;;
    copy_tree_impl false false false fuel src dst copy_root rs a b c d.


Definition bashrc_stat : stat :=
  stat_of (1, 10) (mk_inode 0x1A4 1 0 0 (at_time 5) (at_time 6) (PReg [Byte.x68; Byte.x69])).

Definition sample_copy_entry (nm : string) : M Z :=
  copy_entry false false false (copy_tree_impl false false false 3) 3
    (skel_entry nm) (newuser_entry nm) false ID_UNSET 1001 ID_UNSET 1001.

Definition c7_after : world := final_state skel_walk (sample_copy_entry ".bashrc").

(** The sample tree with a directory /home/newuser/sub already there. *)
Definition merge_world : world :=
  final_state skel_walk (mkdirat (FD (1, 4)) "sub" 0x1ED).

(** No [utimensat] in a trace names the path [nm]. *)
Definition never_stamped (nm : string) (tr : list event) : bool :=
  forallb (fun ev => match ev with
                     | EvUtimensat _ p _ _ => negb (String.eqb p nm)
                     | _ => true
                     end) tr.


(** The [fstatat] call without flags on [p], which follows a symbolic link
    at the end of the path, and its answer in state [w]. *)
Definition stat_event (p : path_info) : event := EvFstatat (dirfd p) (name p) 0.

Definition probe_follow (w : world) (p : path_info) : result stat :=
  match w_fault w (w_trace w) (stat_event p) with
  | Some e => Err e
  | None => fs_stat (w_fs w) (dirfd p) (name p) true
  end.

(** ** Copies of the sample tree *)

(** The status of the directory /skel. *)
Definition skel_stat : stat :=
  stat_of (1, 2)
    (mk_inode 0x1ED 3 0 0 (at_time 2) (at_time 3)
       (mk_dir (1, 2) (1, 1)
          [(".bashrc", (1, 10)); ("bin", (1, 11)); ("a", (1, 12));
           ("b", (1, 12)); ("self", (1, 13)); ("sub", (1, 14))])).

Definition home_u2 : path_info :=
  {| full_path := "/home/u2"; dirfd := AT_FDCWD; name := "/home/u2" |}.

(** [copy_tree ("/skel", "/home/u2", true, ...)]: the destination is not
    there. *)
Definition copy_root_run : outcome Z :=
  copy_tree false false false 5 "/skel" "/home/u2" true false
    ID_UNSET 1001 ID_UNSET 1001 skel_world.

(** The same call in an environment that lets the first [lstat] of /skel
    through and refuses the second one. *)
Definition is_lstat_skel (ev : event) : bool :=
  match ev with
  | EvFstatat AT_FDCWD path flags =>
      String.eqb path "/skel" && (flags =? AT_SYMLINK_NOFOLLOW)
  | _ => false
  end.

Definition refuse_second_probe (tr : list event) (ev : event) : option errno :=
  if is_lstat_skel ev && existsb is_lstat_skel tr then Some EINTR else None.

Definition copy_root_probe_refused : outcome Z :=
  copy_tree false false false 5 "/skel" "/home/u2" true false
    ID_UNSET 1001 ID_UNSET 1001 (fresh_world skel_fs refuse_second_probe).

(** [copy_tree ("/skel", "/home/newuser", false, ...)] *)
Definition whole_run : outcome Z :=
  copy_tree false false false 5 "/skel" "/home/newuser" false false
    ID_UNSET 1001 ID_UNSET 1001 skel_world.

(** The content of a path in the state a run left. *)
Definition content_after {A} (o : outcome A) (path : string) : option (list Byte.byte) :=
  match o with
  | Ret _ w =>
      match resolve (w_fs w) AT_FDCWD path false with
      | Ok id =>
          match fs_read (w_fs w) id with
          | Ok data => Some data
          | Err _ => None
          end
      | Err _ => None
      end
  | _ => None
  end.

(** [hardlinked rs lp dsts w w']: from state [w] the hardlink strategy makes
    the names [dsts], one after the other, for the registry node at [lp],
    each with result 0, and the state is then [w']. *)
Inductive hardlinked (rs : bool) (lp : nat) : list path_info -> world -> world -> Prop :=
| hardlinked_nil w : hardlinked rs lp [] w w
| hardlinked_cons dst dsts w w1 w2 :
    copy_hardlink dst rs lp w = Ret 0 w1 ->
    hardlinked rs lp dsts w1 w2 ->
    hardlinked rs lp (dst :: dsts) w w2.


(** ** The step bound *)

(** Every run of [m] that returns is a run of [m'] with the same result. *)
Definition refines {A} (m m' : M A) : Prop :=
  forall w a w', m w = Ret a w' -> m' w = Ret a w'.


(** The [linkat] calls of a trace, and the names of the files a trace
    creates for a content copy ([openat] with O_CREAT). *)
Definition linkat_calls (tr : list event) : list event :=
  List.filter (fun ev => match ev with EvLinkat _ _ _ _ _ => true | _ => false end) tr.

Definition created_files (tr : list event) : list string :=
  omap (fun ev => match ev with
                  | EvOpenat _ p flags _ => if has_flag flags O_CREAT then Some p else None
                  | _ => None
                  end) tr.


(** ** The static variables across a call *)

(** [src_orig] is as before, and so is [dst_orig], unless the call was an
    outermost one ([src_orig] unset), which leaves [dst_orig] unset. *)
Definition roots_kept (w w' : world) : Prop :=
  src_orig w' = src_orig w /\
  (dst_orig w' = dst_orig w \/ (src_orig w = None /\ dst_orig w' = None)).

(** The key of a registry node, and the registry holding at most one node
    per file. *)
Definition ln_key (lp : link_name) : Z * Z := (ln_dev lp, ln_ino lp).

Definition one_node_per_file (l : list link_name) : Prop := NoDup (ln_key <$> l).

Definition session_kept (w w' : world) : Prop :=
  roots_kept w w' /\ (one_node_per_file (links w) -> one_node_per_file (links w')).

(** Every value a run of [m] returns satisfies [P]. *)
Definition returns {A} (P : A -> Prop) (m : M A) : Prop :=
  forall w a w', m w = Ret a w' -> P a.

(** The values [copy_tree] returns. *)
Definition exit_code (r : Z) : Prop := r = 0 \/ r = -1 \/ r = 1.


(** The sample tree with a directory /home/newuser/sub already there, in a
    process that has not called [copy_tree] yet and an environment that
    refuses to create a file named f. *)
Definition refuse_f (tr : list event) (ev : event) : option errno :=
  match ev with
  | EvOpenat _ "f" flags _ => if has_flag flags O_CREAT then Some EACCES else None
  | _ => None
  end.

Definition merge_start : world := fresh_world (w_fs merge_world) refuse_f.

(** The same tree in an environment that moreover refuses to reset the
    SELinux context, and the states of a walk from /skel into
    /home/newuser there, built with SELinux support: when the stream is
    open, when the entries before sub are done, and when sub is. *)
Definition refuse_f_and_reset (tr : list event) (ev : event) : option errno :=
  match ev with
  | EvResetSelinux => Some EACCES
  | _ => refuse_f tr ev
  end.

Definition c9s_start : world := fresh_world (w_fs merge_world) refuse_f_and_reset.
Definition c9s_opened : world :=
  log (EvFdopendir (1, 2))
    (log (EvOpenat AT_FDCWD "/home/newuser" OPEN_DIR_FLAGS 0)
       (log (EvOpenat AT_FDCWD "/skel" OPEN_DIR_FLAGS 0) c9s_start)).
Definition c9s_step (d_name : string) (w : world) : world :=
  after_entry true false false 3 skel_src newuser_dst (1, 2) (1, 4) d_name w.
Definition c9s_before_sub : world :=
  c9s_step "self" (c9s_step "b" (c9s_step "a" (c9s_step "bin" (c9s_step ".bashrc"
    (c9s_step ".." (c9s_step "." (enter_walk skel_src newuser_dst c9s_opened))))))).
Definition c9s_after_sub : world := c9s_step "sub" c9s_before_sub.

(** The entry [p] is a directory in state [w], a symbolic link at the end
    of its path not followed, unless the path ends with a slash. *)
Definition is_directory_in (w : world) (p : path_info) : bool :=
  match lstat_in w p with
  | Some sb => S_ISDIR (st_mode sb)
  | None => false
  end.

(** A destination below a directory that is not there. *)
Definition nowhere_u2 : path_info :=
  {| full_path := "/nowhere/u2"; dirfd := AT_FDCWD; name := "/nowhere/u2" |}.

(** The sample tree with a symbolic link /lnk -> /skel, and the two ways
    to name the link as a source root. *)
Definition lnk_world : world :=
  fresh_world
    (match fs_symlinkat skel_fs "/skel" AT_FDCWD "/lnk" with
     | Ok (_, fs) => fs
     | Err _ => skel_fs
     end)
    no_fault.

Definition lnk_src : path_info :=
  {| full_path := "/lnk"; dirfd := AT_FDCWD; name := "/lnk" |}.

Definition lnk_slash_src : path_info :=
  {| full_path := "/lnk/"; dirfd := AT_FDCWD; name := "/lnk/" |}.


(** ** What a copy leaves *)

(** The attributes of [i'] are those of [i]: every field but the content
    and the modification time. *)
Definition same_attrs (i i' : inode) : Prop :=
  i_perm i' = i_perm i /\ i_nlink i' = i_nlink i /\ i_uid i' = i_uid i /\
  i_gid i' = i_gid i /\ i_atim i' = i_atim i /\ i_acl i' = i_acl i /\
  i_xattr i' = i_xattr i.

(** The owner [chown] leaves when it is given [id], on a file owned by
    [cur]. *)
Definition owner_after (id cur : Z) : Z := if id =? ID_UNSET then cur else id.

(** The set-user-ID, set-group-ID and sticky bits of a mode. *)
Definition MODE_07000 : Z := 0xE00.

(** One change of the attributes of the file [ofd], of which [P] tells
    what it did: the other files are as they were, and the file system has
    only grown. *)
Definition attr_step_on (ofd : fileid) (P : inode -> inode -> Prop) (fs fs' : filesys) : Prop :=
  (forall i, fs_inodes fs !! ofd = Some i ->
     exists i', fs_inodes fs' !! ofd = Some i' /\ P i i') /\
  (forall id, id <> ofd -> fs_inodes fs' !! id = fs_inodes fs !! id) /\
  fs_ext fs fs'.

(** What the copy of an access control list or of extended attributes may
    change: not the owner, not the content, not the bits above the nine
    permission bits, and nothing of the mode unless ACLs are built in. *)
Definition meta_kept (A : bool) (i i' : inode) : Prop :=
  i_uid i' = i_uid i /\ i_gid i' = i_gid i /\ i_body i' = i_body i /\
  Z.land (i_perm i') MODE_07000 = Z.land (i_perm i) MODE_07000 /\
  (A = false -> i_perm i' = i_perm i).

(** The copy of /skel/.bashrc of the sample tree by [copy_file], for the
    user 1001. *)
Definition copy_bashrc : M Z :=
  copy_file false false false 3 (skel_entry ".bashrc") (newuser_entry ".bashrc") false
    bashrc_stat (at_time 5, at_time 6) ID_UNSET 1001 ID_UNSET 1001.

(** ** Files that are left alone *)

(** [i'] is the file [i] with its permission bits, owner, group, access
    control list and extended attributes; if it is a directory, it may
    have new entries after the ones it had, and with them a new
    modification time; if not, it has its content and its modification
    time.  (Nothing is said of the link count and of the access time.) *)
Definition inode_kept (i i' : inode) : Prop :=
  i_perm i' = i_perm i /\ i_uid i' = i_uid i /\ i_gid i' = i_gid i /\
  i_acl i' = i_acl i /\ i_xattr i' = i_xattr i /\
  match i_body i with
  | PDir es => exists extra, i_body i' = PDir (es ++ extra)
  | b => i_body i' = b /\ i_mtim i' = i_mtim i
  end.

(** [fs'] extends [fs], and has every file of [fs] as it was. *)
Definition files_kept (fs fs' : filesys) : Prop :=
  fs_ext fs fs' /\
  forall id i, fs_inodes fs !! id = Some i ->
    exists i', fs_inodes fs' !! id = Some i' /\ inode_kept i i'.

Definition world_files_kept (w w' : world) : Prop := files_kept (w_fs w) (w_fs w').

(** An operation that leaves the files that are there alone. *)
Definition tidy {A} (op : filesys -> result (A * filesys)) : Prop :=
  forall fs a fs', op fs = Ok (a, fs') -> files_kept fs fs'.

(** The state of a strategy that has made its destination: the files of
    [fs0], the file system the strategy started from, are as they were,
    and the entry [p] names the file [id], which [fs0] did not have. *)
Definition anchored (fs0 : filesys) (id : fileid) (p : path_info) (fs : filesys) : Prop :=
  files_kept fs0 fs /\ resolve fs (dirfd p) (name p) false = Ok id.

Definition anchor_kept (fs0 : filesys) (id : fileid) (p : path_info) (w w' : world) : Prop :=
  anchored fs0 id p (w_fs w) -> anchored fs0 id p (w_fs w').

Definition anchor_op (fs0 : filesys) (id : fileid) (p : path_info) {A}
    (op : filesys -> result (A * filesys)) : Prop :=
  forall fs a fs', op fs = Ok (a, fs') -> anchored fs0 id p fs -> anchored fs0 id p fs'.

(** A chain of steps [x] that begins with the making of the entry [p] and
    has the value "failed": it leaves the files that were there alone,
    and when no step failed, [p] names a file that was not there. *)
Definition makes (p : path_info) (x : M bool) : Prop :=
  forall w b w', x w = Ret b w' ->
    files_kept (w_fs w) (w_fs w') /\
    (b = false ->
     exists id, fs_inodes (w_fs w) !! id = None /\
                resolve (w_fs w') (dirfd p) (name p) false = Ok id).

(** ** More runs on the sample tree *)

(** The status of /skel/a, a file with two names, and the node
    [check_link] makes for it in a walk from /skel to /home/newuser. *)
Definition a_stat : stat :=
  stat_of (1, 12) (mk_inode 0x1A4 2 0 0 (at_time 9) (at_time 10) (PReg [Byte.x7a])).

Definition a_node : link_name :=
  {| ln_dev := 1; ln_ino := 12; ln_count := 2; ln_name := "/home/newuser/a" |}.

(** The state of the walk when the dispatcher has copied /skel/a, and
    then when [copy_hardlink] has made /home/newuser/b. *)
Definition a_copied : world := final_state skel_walk (sample_copy_entry "a").

Definition b_linked : world :=
  final_state a_copied (copy_hardlink (newuser_entry "b") false 0).

(** The state [copy_tree ("/skel", "/home/newuser", false, ...)] leaves. *)
Definition whole_end : world :=
  final_state skel_world
    (copy_tree false false false 5 "/skel" "/home/newuser" false false
       ID_UNSET 1001 ID_UNSET 1001).


(** * Properties *)

(** ** Runs *)

Lemma bind_Ret_inv {A B} (m : M A) (f : A -> M B) w b w' :
  (m ≫= f) w = Ret b w' ->
  exists a w1, m w = Ret a w1 /\ f a w1 = Ret b w'.
Proof.
  unfold mbind, M_bind. destruct (m w) as [a w1| |]; [|discriminate..].
  intros H. exists a, w1. auto.
Qed.

Lemma bind_Ret {A B} (m : M A) (f : A -> M B) w a w1 :
  m w = Ret a w1 -> (m ≫= f) w = f a w1.
Proof. unfold mbind, M_bind. intros ->. reflexivity. Qed.

(** What a call to the environment can do to the state. *)
Lemma syscall_inv {A} ev (op : filesys -> result (A * filesys)) w r w' :
  syscall ev op w = Ret r w' ->
  w_trace w' = w_trace w ++ [ev] /\ links w' = links w /\
  src_orig w' = src_orig w /\ dst_orig w' = dst_orig w /\
  w_fault w' = w_fault w /\
  ((exists e, r = Err e /\ w_fs w' = w_fs w) \/
   (exists a, r = Ok a /\ w_fault w (w_trace w) ev = None /\
              op (w_fs w) = Ok (a, w_fs w'))).
Proof.
  unfold syscall. destruct (w_fault w _ ev) as [e|] eqn:Hf.
  - intros [= <- <-]. simpl. repeat split; eauto.
  - destruct (op (w_fs w)) as [[a fs']|e] eqn:Hop; intros [= <- <-]; simpl;
      repeat split; eauto 6.
Qed.

(** A call that only reads leaves the files as they are. *)
Lemma syscall_keep_inv {A} ev (op : filesys -> result A) w r w' :
  syscall ev (keep op) w = Ret r w' ->
  w' = log ev w /\
  r = match w_fault w (w_trace w) ev with Some e => Err e | None => op (w_fs w) end.
Proof.
  unfold syscall, keep. destruct (w_fault w _ ev) as [e|].
  - intros [= <- <-]. auto.
  - destruct (op (w_fs w)) as [a|e]; simpl; intros [= <- <-]; split; auto.
Qed.

(** ** Ownership remap *)

Lemma remap_chain old new cur :
  (let tmp := ID_UNSET in
   let tmp := if (ID_UNSET =? old) || (cur =? old) then new else tmp in
   if ID_UNSET =? tmp then cur else tmp) = remap_spec old new cur.
Proof.
  unfold remap_spec. cbv zeta.
  rewrite (Z.eqb_sym ID_UNSET old).
  destruct ((old =? ID_UNSET) || (cur =? old)); cbn [andb].
  - rewrite (Z.eqb_sym ID_UNSET new). destruct (new =? ID_UNSET); reflexivity.
  - rewrite Z.eqb_refl. reflexivity.
Qed.

Lemma remap_spec_cases old new cur :
  ((old = ID_UNSET \/ cur = old) /\ new <> ID_UNSET -> remap_spec old new cur = new) /\
  (~ ((old = ID_UNSET \/ cur = old) /\ new <> ID_UNSET) -> remap_spec old new cur = cur).
Proof.
  unfold remap_spec.
  destruct (Z.eqb_spec old ID_UNSET), (Z.eqb_spec cur old), (Z.eqb_spec new ID_UNSET);
    simpl; split; intros; try reflexivity; try tauto.
Qed.

(** What the remapper gives, with the owner [chown] then leaves, is what
    the remap law says. *)
Lemma remap_law_owner old new u cur :
  remap_law old new u (owner_after (remap_spec old new u) cur).
Proof.
  destruct (remap_spec_cases old new u) as [Hy Hn]. split.
  - intros Hc. rewrite (Hy Hc). unfold owner_after.
    destruct (Z.eqb_spec new ID_UNSET); [tauto|reflexivity].
  - intros Hc Hu. rewrite (Hn Hc). unfold owner_after.
    destruct (Z.eqb_spec u ID_UNSET); [contradiction|reflexivity].
Qed.

(** ** The hardlink registry *)

Lemma find_link_Some l sb lp :
  find_link l sb = Some lp ->
  exists node, l !! lp = Some node /\ same_file node sb.
Proof.
  revert lp. induction l as [|x l IH]; intros lp; simpl; [discriminate|].
  destruct ((ln_dev x =? st_dev sb) && (ln_ino x =? st_ino sb)) eqn:E.
  - intros [= <-]. exists x. split; [reflexivity|].
    apply andb_true_iff in E as [E1 E2]. split; lia.
  - destruct (find_link l sb) as [n|]; simpl; [|discriminate].
    intros [= <-]. destruct (IH n eq_refl) as (node & Hn & Hs). eauto.
Qed.

Lemma find_link_None l sb :
  find_link l sb = None <-> (forall node, node ∈ l -> ~ same_file node sb).
Proof.
  induction l as [|x l IH]; simpl.
  - split; [|reflexivity]. intros _ node Hin. inversion Hin.
  - destruct ((ln_dev x =? st_dev sb) && (ln_ino x =? st_ino sb)) eqn:E.
    + split; [discriminate|]. intros H. exfalso. apply (H x); [left|].
      apply andb_true_iff in E as [E1 E2]. split; lia.
    + split.
      * intros Hf node Hin [Hd Hi]. apply elem_of_cons in Hin as [->|Hin].
        -- apply andb_false_iff in E as [E|E]; lia.
        -- destruct (find_link l sb); [discriminate|].
           destruct IH as [IH _]. apply (IH eq_refl node Hin). split; assumption.
      * intros H. destruct IH as [_ IH]. rewrite IH; [reflexivity|].
        intros node Hin. apply H. right. exact Hin.
Qed.

(** C8, amended: inside a walk, [check_link] on a file whose (device,
    inode) pair is in the registry returns the node that records the
    destination path and changes nothing; on a pair not in the registry it
    returns nothing, and it registers nothing exactly when the link count
    is 1: for any other link count (0 included) it puts a new node in
    front, keyed by the pair, with the link count as remaining count and
    the destination path of this entry. *)
Theorem C8_check_link_contract (nm : string) (sb : stat) (w : world) (so do : string) :
  src_orig w = Some so -> dst_orig w = Some do ->
  ((exists node, node ∈ links w /\ same_file node sb) ->
     exists lp node, check_link nm sb w = Ret (Some lp) w /\
       links w !! lp = Some node /\ same_file node sb) /\
  ((forall node, node ∈ links w -> ~ same_file node sb) ->
     (st_nlink sb = 1 -> check_link nm sb w = Ret None w) /\
     (st_nlink sb <> 1 ->
        check_link nm sb w =
          Ret None
            (set_links ({| ln_dev := st_dev sb; ln_ino := st_ino sb;
                           ln_count := st_nlink sb;
                           ln_name := do +:+ str_offset nm (strlen so) |} :: links w) w))).
Proof.
  intros Hs Hd. unfold check_link, mbind, M_bind, get, assert, modify, mret, M_ret.
  rewrite Hs, Hd. simpl. split.
  - intros (node & Hin & Hsame).
    destruct (find_link (links w) sb) as [lp|] eqn:Hf.
    + destruct (find_link_Some _ _ _ Hf) as (node' & Hl & Hs').
      exists lp, node'. auto.
    + exfalso. exact (proj1 (find_link_None _ _) Hf node Hin Hsame).
  - intros Hnone. rewrite (proj2 (find_link_None _ _) Hnone). split.
    + intros ->. reflexivity.
    + intros Hn. destruct (Z.eqb_spec (st_nlink sb) 1); [contradiction|reflexivity].
Qed.

(** C8 as it is stated fails for a link count of 0, which is at most 1:
    the file is registered. *)
Lemma C8_nlink_zero_registers :
  let sb := stat_of (1, 10) (mk_inode 0x1A4 0 0 0 (at_time 5) (at_time 6) (PReg [])) in
  st_nlink sb <= 1 /\ links skel_walk = [] /\
  check_link "/skel/.bashrc" sb skel_walk =
    Ret None (set_links [ {| ln_dev := 1; ln_ino := 10; ln_count := 0;
                             ln_name := "/home/newuser/.bashrc" |} ] skel_walk).
Proof. split; [vm_compute; discriminate|]. split; reflexivity. Qed.

Lemma C8_witness :
  let sb := stat_of (1, 12) (mk_inode 0x1A4 2 0 0 (at_time 9) (at_time 10) (PReg [])) in
  ((exists node, node ∈ links skel_walk /\ same_file node sb) ->
     exists lp node, check_link "/skel/a" sb skel_walk = Ret (Some lp) skel_walk /\
       links skel_walk !! lp = Some node /\ same_file node sb) /\
  ((forall node, node ∈ links skel_walk -> ~ same_file node sb) ->
     (st_nlink sb = 1 -> check_link "/skel/a" sb skel_walk = Ret None skel_walk) /\
     (st_nlink sb <> 1 ->
        check_link "/skel/a" sb skel_walk =
          Ret None
            (set_links ({| ln_dev := st_dev sb; ln_ino := st_ino sb;
                           ln_count := st_nlink sb;
                           ln_name := "/home/newuser" +:+ str_offset "/skel/a" (strlen "/skel") |}
                          :: links skel_walk) skel_walk))).
Proof.
  exact (C8_check_link_contract "/skel/a" _ skel_walk "/skel" "/home/newuser"
           eq_refl eq_refl).
Defined.

Lemma delete_insert_same {A} (l : list A) (i : nat) (x : A) :
  delete i (<[i := x]> l) = delete i l.
Proof.
  revert i. induction l as [|y l IH]; intros [|i]; simpl; try reflexivity.
  f_equal. apply IH.
Qed.

(** C10: when [linkat] fails, [copy_hardlink] returns -1 and the registry
    is as before; only when [linkat] has made the link is the remaining
    count of the node decremented, and the node removed if the count is
    then 0. *)
Theorem C10_registry_untouched_on_failure (dst : path_info) (reset_selinux : bool)
    (lp : nat) (node : link_name) (w : world) (r : result unit) (w1 : world) :
  links w !! lp = Some node ->
  linkat AT_FDCWD (ln_name node) (dirfd dst) (name dst) 0 w = Ret r w1 ->
  (is_ok r = false ->
     copy_hardlink dst reset_selinux lp w = Ret (-1) w1 /\ links w1 = links w) /\
  (is_ok r = true ->
     let count := wrap nlink_t_bits (ln_count node - 1) in
     exists w', copy_hardlink dst reset_selinux lp w = Ret 0 w' /\
       w_fs w' = w_fs w1 /\
       links w' = if count <=? 0 then delete lp (links w)
                  else <[lp := with_count count node]> (links w)).
Proof.
  intros Hlp Hlink.
  assert (Hl1 : links w1 = links w).
  { unfold linkat in Hlink. apply syscall_inv in Hlink. tauto. }
  unfold copy_hardlink, mbind, M_bind, get. rewrite Hlp, Hlink. split.
  - intros Hr. rewrite Hr. simpl. auto.
  - intros Hr. rewrite Hr. cbn zeta. simpl negb. cbv iota.
    unfold modify, mret, M_ret, remove_link, modify.
    destruct (wrap nlink_t_bits (ln_count node - 1) <=? 0) eqn:E.
    + eexists. split; [reflexivity|]. simpl. split; [reflexivity|].
      rewrite Hl1. apply delete_insert_same.
    + eexists. split; [reflexivity|]. simpl. split; [reflexivity|].
      rewrite Hl1. reflexivity.
Qed.

Lemma C10_witness :
  let w := set_links [ {| ln_dev := 1; ln_ino := 12; ln_count := 2;
                          ln_name := "/home/newuser/nothing" |} ] skel_walk in
  let w1 := log (EvLinkat AT_FDCWD "/home/newuser/nothing" (FD (1, 4)) "b" 0) w in
  copy_hardlink (newuser_entry "b") false 0 w = Ret (-1) w1 /\ links w1 = links w.
Proof.
  intros w w1.
  apply (C10_registry_untouched_on_failure (newuser_entry "b") false 0
           {| ln_dev := 1; ln_ino := 12; ln_count := 2;
              ln_name := "/home/newuser/nothing" |} w (Err ENOENT) w1).
  - reflexivity.
  - vm_compute. reflexivity.
  - reflexivity.
Defined.

(** ** Path resolution and growth of the file system *)

Lemma dir_lookup_app es extra c x :
  dir_lookup es c = Some x -> dir_lookup (es ++ extra) c = Some x.
Proof.
  induction es as [|[n id] es IH]; simpl; [discriminate|].
  destruct (String.eqb n c); auto.
Qed.

Lemma dir_lookup_app_None es extra c :
  dir_lookup es c = None -> dir_lookup (es ++ extra) c = dir_lookup extra c.
Proof.
  induction es as [|[n id] es IH]; simpl; [reflexivity|].
  destruct (String.eqb n c); [discriminate|auto].
Qed.

Lemma dir_lookup_In es c x : dir_lookup es c = Some x -> In (c, x) es.
Proof.
  induction es as [|[n id] es IH]; simpl; [discriminate|].
  destruct (String.eqb_spec n c) as [->|Hne].
  - intros [= ->]. left. reflexivity.
  - intros H. right. auto.
Qed.

Lemma referenced_intro fs d es c id :
  fs_entries fs d = Ok es -> dir_lookup es c = Some id -> referenced fs id = true.
Proof.
  unfold fs_entries, referenced. intros Hd Hl.
  destruct (fs_inodes fs !! d) as [i|] eqn:Hi; [|discriminate].
  destruct (i_body i) as [es'| | |] eqn:Hb; try discriminate.
  injection Hd as ->.
  apply existsb_exists. exists (d, i). split.
  - apply list_elem_of_In, elem_of_map_to_list. exact Hi.
  - simpl. unfold dir_mentions. rewrite Hb. apply existsb_exists.
    exists (c, id). split; [apply dir_lookup_In; exact Hl|].
    simpl. apply bool_decide_eq_true. reflexivity.
Qed.

Lemma referenced_elim fs id :
  referenced fs id = true ->
  exists d es c, fs_entries fs d = Ok es /\ In (c, id) es.
Proof.
  unfold referenced. intros H. apply existsb_exists in H as ([d i] & Hin & Hm).
  apply list_elem_of_In, elem_of_map_to_list in Hin. simpl in Hm.
  unfold dir_mentions in Hm. destruct (i_body i) as [es| | |] eqn:Hb; try discriminate.
  apply existsb_exists in Hm as ([c x] & Hx & Heq).
  apply bool_decide_eq_true in Heq. simpl in Heq. subst x.
  exists d, es, c. split; [|exact Hx].
  unfold fs_entries. rewrite Hin, Hb. reflexivity.
Qed.

Lemma referenced_In fs d es c id :
  fs_entries fs d = Ok es -> In (c, id) es -> referenced fs id = true.
Proof.
  unfold fs_entries, referenced. intros Hd Hl.
  destruct (fs_inodes fs !! d) as [i|] eqn:Hi; [|discriminate].
  destruct (i_body i) as [es'| | |] eqn:Hb; try discriminate.
  injection Hd as ->.
  apply existsb_exists. exists (d, i). split.
  - apply list_elem_of_In, elem_of_map_to_list. exact Hi.
  - simpl. unfold dir_mentions. rewrite Hb. apply existsb_exists.
    exists (c, id). split; [exact Hl|].
    simpl. apply bool_decide_eq_true. reflexivity.
Qed.

Lemma fs_ext_refl fs : fs_ext fs fs.
Proof.
  split; auto. intros d es H. exists []. rewrite app_nil_r. exact H.
Qed.

Lemma fs_ext_in_use fs fs' id : fs_ext fs fs' -> in_use fs id -> in_use fs' id.
Proof.
  intros E [H|H]; [left; apply (ext_inodes _ _ E); exact H|].
  right. apply referenced_elim in H as (d & es & c & Hd & Hin).
  destruct (ext_entries _ _ E d es Hd) as (extra & Hd').
  eapply referenced_In; [exact Hd'|]. apply in_or_app. left. exact Hin.
Qed.

Lemma fs_ext_trans fs1 fs2 fs3 : fs_ext fs1 fs2 -> fs_ext fs2 fs3 -> fs_ext fs1 fs3.
Proof.
  intros E1 E2. split.
  - rewrite (ext_root _ _ E2). apply (ext_root _ _ E1).
  - rewrite (ext_cwd _ _ E2). apply (ext_cwd _ _ E1).
  - intros id H. apply (ext_inodes _ _ E2), (ext_inodes _ _ E1), H.
  - intros d es H. destruct (ext_entries _ _ E1 d es H) as (x1 & H1).
    destruct (ext_entries _ _ E2 d _ H1) as (x2 & H2).
    exists (x1 ++ x2). rewrite app_assoc. exact H2.
  - intros id H. rewrite (ext_links _ _ E2 id (fs_ext_in_use _ _ _ E1 H)).
    apply (ext_links _ _ E1 id H).
Qed.

(** A path that resolves keeps resolving to the same file when the file
    system grows. *)
Lemma walk_with_ext fs fs' fl fl' :
  fs_ext fs fs' ->
  (forall d t r, fl d t = Ok r -> fl' d t = Ok r) ->
  forall comps cur follow r,
    walk_with fs fl cur comps follow = Ok r ->
    walk_with fs' fl' cur comps follow = Ok r.
Proof.
  intros E Hfl. induction comps as [|c rest IH]; intros cur follow r; simpl; [auto|].
  destruct (fs_entries fs cur) as [es|e] eqn:He; [|discriminate].
  destruct (ext_entries _ _ E cur es He) as (extra & He'). rewrite He'.
  destruct (dir_lookup es c) as [id|] eqn:Hl; [|discriminate].
  rewrite (dir_lookup_app _ extra _ _ Hl).
  rewrite (ext_links _ _ E id (or_intror (referenced_intro _ _ _ _ _ He Hl))).
  destruct (link_target fs id) as [t|]; [|apply IH].
  destruct (follow || negb (is_nil rest)); [|apply IH].
  destruct (fl cur t) as [id'|e] eqn:Hf; [|discriminate].
  rewrite (Hfl _ _ _ Hf). apply IH.
Qed.

Lemma walk_ext fs fs' :
  fs_ext fs fs' ->
  forall budget cur comps follow r,
    walk budget fs cur comps follow = Ok r -> walk budget fs' cur comps follow = Ok r.
Proof.
  intros E. induction budget as [|b IH]; intros cur comps follow r; simpl.
  - apply walk_with_ext; [exact E|]. intros d t r'. discriminate.
  - apply walk_with_ext; [exact E|]. intros d t r'.
    unfold path_start. rewrite (ext_root _ _ E). apply IH.
Qed.

Lemma resolve_ext fs fs' dirfd path follow r :
  fs_ext fs fs' ->
  resolve fs dirfd path follow = Ok r -> resolve fs' dirfd path follow = Ok r.
Proof.
  intros E. unfold resolve. destruct (String.eqb path ""); [discriminate|].
  unfold path_start, fd_dir. rewrite (ext_root _ _ E), (ext_cwd _ _ E).
  destruct (ends_with_slash path); [|apply walk_ext; exact E].
  destruct (walk MAXSYMLINKS fs _ (split_path path) true) as [id|e] eqn:Hw; [|discriminate].
  rewrite (walk_ext _ _ E _ _ _ _ _ Hw). simpl.
  destruct (fs_entries fs id) as [es|e] eqn:He; [|discriminate].
  destruct (ext_entries _ _ E id es He) as (extra & ->). auto.
Qed.

(** Resolving a path without following its last component is resolving
    the directory part and looking the last component up there. *)
Lemma walk_with_snoc fs fl init last :
  forall cur,
    walk_with fs fl cur (init ++ [last]) false =
    rbind (walk_with fs fl cur init true) (fun d =>
    rbind (fs_entries fs d) (fun es =>
      match dir_lookup es last with
      | Some id => Ok id
      | None => Err ENOENT
      end)).
Proof.
  induction init as [|c rest IH]; intros cur; simpl.
  - destruct (fs_entries fs cur) as [es|e]; [|reflexivity]. simpl.
    destruct (dir_lookup es last) as [id|]; [|reflexivity].
    destruct (link_target fs id); reflexivity.
  - destruct (fs_entries fs cur) as [es|e]; [|reflexivity].
    destruct (dir_lookup es c) as [id|]; [|reflexivity].
    destruct (link_target fs id) as [t|]; [|apply IH].
    replace (negb (is_nil (rest ++ [last]))) with true by (destruct rest; reflexivity).
    simpl. destruct (fl cur t); [apply IH|reflexivity].
Qed.

Lemma walk_snoc budget fs cur init last :
  walk budget fs cur (init ++ [last]) false =
  rbind (walk budget fs cur init true) (fun d =>
  rbind (fs_entries fs d) (fun es =>
    match dir_lookup es last with
    | Some id => Ok id
    | None => Err ENOENT
    end)).
Proof. destruct budget; apply walk_with_snoc. Qed.

(** The same when the last component is followed: a symbolic link found
    there is resolved in its turn. *)
Lemma walk_with_snoc_follow fs fl init last :
  forall cur,
    walk_with fs fl cur (init ++ [last]) true =
    rbind (walk_with fs fl cur init true) (fun d =>
    rbind (fs_entries fs d) (fun es =>
      match dir_lookup es last with
      | Some id =>
          match link_target fs id with
          | Some t => fl d t
          | None => Ok id
          end
      | None => Err ENOENT
      end)).
Proof.
  induction init as [|c rest IH]; intros cur; simpl.
  - destruct (fs_entries fs cur) as [es|e]; [|reflexivity]. simpl.
    destruct (dir_lookup es last) as [id|]; [|reflexivity].
    destruct (link_target fs id) as [t|]; [|reflexivity]. destruct (fl cur t); reflexivity.
  - destruct (fs_entries fs cur) as [es|e]; [|reflexivity].
    destruct (dir_lookup es c) as [id|]; [|reflexivity].
    destruct (link_target fs id) as [t|]; [|apply IH].
    destruct (fl cur t); [apply IH|reflexivity].
Qed.

(** A path that resolves, its last component followed, has that component
    in its directory; and it resolves to the file found there if this is
    no symbolic link. *)
Lemma walk_snoc_follow_inv budget fs cur init last id :
  walk budget fs cur (init ++ [last]) true = Ok id ->
  exists d es x,
    walk budget fs cur init true = Ok d /\ fs_entries fs d = Ok es /\
    dir_lookup es last = Some x.
Proof.
  intros H.
  destruct budget; simpl in H; rewrite walk_with_snoc_follow in H.
  all: match type of H with rbind ?m _ = _ => destruct m as [d|e] eqn:Hw end;
    [|discriminate].
  all: simpl in H; destruct (fs_entries fs d) as [es|e] eqn:He; [|discriminate].
  all: simpl in H; destruct (dir_lookup es last) as [x|] eqn:Hl; [|discriminate].
  all: exists d, es, x; auto.
Qed.

Lemma walk_snoc_follow_plain budget fs cur init last d es id :
  walk budget fs cur init true = Ok d -> fs_entries fs d = Ok es ->
  dir_lookup es last = Some id -> link_target fs id = None ->
  walk budget fs cur (init ++ [last]) true = Ok id.
Proof.
  intros Hw He Hl Ht.
  destruct budget; simpl in *; rewrite walk_with_snoc_follow, Hw; simpl;
    rewrite He; simpl; rewrite Hl, Ht; reflexivity.
Qed.

Lemma split_last_app {A} (l init : list A) (last : A) :
  split_last l = Some (init, last) -> l = init ++ [last].
Proof.
  revert init. induction l as [|x l IH]; intros init; simpl; [discriminate|].
  destruct l as [|y l].
  - intros [= <- <-]. reflexivity.
  - destruct (split_last (y :: l)) as [[i la]|]; [|discriminate].
    intros [= <- <-]. simpl. f_equal. apply IH. reflexivity.
Qed.

(** [resolve] without following, in terms of [resolve_parent], for a path
    with no slash at its end. *)
Lemma resolve_via_parent fs dirfd path d last :
  ends_with_slash path = false ->
  resolve_parent fs dirfd path = Ok (d, last) ->
  resolve fs dirfd path false =
    rbind (fs_entries fs d) (fun es =>
      match dir_lookup es last with
      | Some id => Ok id
      | None => Err ENOENT
      end).
Proof.
  unfold resolve_parent, resolve. intros ->. destruct (String.eqb path ""); [discriminate|].
  destruct (split_last (split_path path)) as [[init la]|] eqn:Hs; [|discriminate].
  rewrite (split_last_app _ _ _ Hs), walk_snoc.
  destruct (walk MAXSYMLINKS fs _ init true) as [d'|e]; simpl; [|discriminate].
  intros [= -> ->]. reflexivity.
Qed.

(** A path, with or without a slash at its end, names the directory that
    its last component is the name of. *)
Lemma resolve_to_dir fs dirfd path d last es id es' :
  resolve_parent fs dirfd path = Ok (d, last) ->
  fs_entries fs d = Ok es -> dir_lookup es last = Some id ->
  fs_entries fs id = Ok es' ->
  resolve fs dirfd path false = Ok id.
Proof.
  intros Hp He Hl Hd. destruct (ends_with_slash path) eqn:Hsl.
  - assert (Ht : link_target fs id = None).
    { unfold link_target. unfold fs_entries in Hd.
      destruct (fs_inodes fs !! id) as [i|]; [|reflexivity].
      destruct (i_body i); try discriminate; reflexivity. }
    unfold resolve_parent in Hp. unfold resolve. rewrite Hsl.
    destruct (String.eqb path ""); [discriminate|].
    destruct (split_last (split_path path)) as [[init la]|] eqn:Hs; [|discriminate].
    rewrite (split_last_app _ _ _ Hs).
    destruct (walk MAXSYMLINKS fs _ init true) as [d'|e] eqn:Hw; simpl in Hp; [|discriminate].
    injection Hp as -> ->.
    rewrite (walk_snoc_follow_plain _ _ _ _ _ _ _ _ Hw He Hl Ht). simpl.
    rewrite Hd. reflexivity.
  - rewrite (resolve_via_parent _ _ _ _ _ Hsl Hp), He. simpl. rewrite Hl. reflexivity.
Qed.

Lemma resolve_parent_ext fs fs' dirfd path r :
  fs_ext fs fs' ->
  resolve_parent fs dirfd path = Ok r -> resolve_parent fs' dirfd path = Ok r.
Proof.
  intros E. unfold resolve_parent. destruct (String.eqb path ""); [discriminate|].
  destruct (split_last (split_path path)) as [[init la]|]; [|discriminate].
  unfold path_start, fd_dir. rewrite (ext_root _ _ E), (ext_cwd _ _ E).
  destruct (walk MAXSYMLINKS fs _ init true) as [d|e] eqn:Hw; [|discriminate].
  rewrite (walk_ext _ _ E _ _ _ _ _ Hw). auto.
Qed.

(** A path that resolves names an entry of its directory, so a file cannot
    be created there. *)
Lemma resolve_parent_of_resolved fs dirfd path id :
  resolve fs dirfd path false = Ok id ->
  resolve_parent fs dirfd path = Err EEXIST \/
  exists d last es x,
    resolve_parent fs dirfd path = Ok (d, last) /\
    fs_entries fs d = Ok es /\ dir_lookup es last = Some x /\
    (ends_with_slash path = false -> x = id).
Proof.
  unfold resolve, resolve_parent. destruct (String.eqb path ""); [discriminate|].
  destruct (split_last (split_path path)) as [[init la]|] eqn:Hs; [|auto].
  rewrite (split_last_app _ _ _ Hs). destruct (ends_with_slash path).
  - intros H.
    destruct (walk MAXSYMLINKS fs _ (init ++ [la]) true) as [id'|e] eqn:Hw;
      [|discriminate].
    apply walk_snoc_follow_inv in Hw as (d & es & x & Hw & He & Hl).
    rewrite Hw. simpl. right. exists d, la, es, x.
    split; [reflexivity|]. split; [exact He|]. split; [exact Hl|discriminate].
  - rewrite walk_snoc.
    destruct (walk MAXSYMLINKS fs _ init true) as [d|e]; simpl; [|discriminate].
    destruct (fs_entries fs d) as [es|e] eqn:He; simpl; [|discriminate].
    destruct (dir_lookup es la) as [x|] eqn:Hl; [|discriminate].
    intros [= ->]. right. exists d, la, es, id. auto.
Qed.

Lemma body_ext_refl b : body_ext b b.
Proof.
  destruct b; simpl; try discriminate; [|reflexivity].
  exists []. rewrite app_nil_r. reflexivity.
Qed.

Lemma fs_ext_commit fs m next :
  (forall id i, fs_inodes fs !! id = Some i ->
     exists i', m !! id = Some i' /\ body_ext (i_body i) (i_body i')) ->
  (forall id, fs_inodes fs !! id = None -> referenced fs id = true -> m !! id = None) ->
  fs_ext fs (fs_commit fs m next).
Proof.
  intros Hold Hnew. split; try reflexivity.
  - intros id [i Hi]. destruct (Hold id i Hi) as (i' & Hi' & _). simpl. eauto.
  - intros d es. unfold fs_entries. simpl.
    destruct (fs_inodes fs !! d) as [i|] eqn:Hi; [|discriminate].
    destruct (Hold d i Hi) as (i' & -> & Hb).
    destruct (i_body i) as [es0| | |]; try discriminate.
    intros [= ->]. destruct Hb as (extra & ->). eauto.
  - intros id Hin. unfold link_target. simpl.
    destruct (fs_inodes fs !! id) as [i|] eqn:Hi.
    + destruct (Hold id i Hi) as (i' & -> & Hb).
      destruct (i_body i) as [es| |t|]; simpl in Hb.
      * destruct Hb as (extra & ->). reflexivity.
      * destruct (i_body i'); try reflexivity. exfalso. eapply Hb. reflexivity.
      * rewrite Hb. reflexivity.
      * destruct (i_body i'); try reflexivity. exfalso. eapply Hb. reflexivity.
    + destruct Hin as [[i Hi']|Hr]; [congruence|].
      rewrite (Hnew id Hi Hr). reflexivity.
Qed.

Lemma fs_update_inv fs id f fs' :
  fs_update fs id f = Ok (tt, fs') ->
  exists i, fs_inodes fs !! id = Some i /\
    fs' = fs_commit fs (alter f id (fs_inodes fs)) (fs_next_ino fs).
Proof.
  unfold fs_update, fs_inode. destruct (fs_inodes fs !! id) as [i|]; [|discriminate].
  simpl. intros [= <-]. eauto.
Qed.

Lemma fs_update_ext fs id f u fs' :
  (forall i, i_body (f i) = i_body i) ->
  fs_update fs id f = Ok (u, fs') -> fs_ext fs fs'.
Proof.
  intros Hf H. destruct u. apply fs_update_inv in H as (i & Hi & ->).
  apply fs_ext_commit.
  - intros id' i' Hi'. rewrite lookup_alter. destruct (decide (id = id')) as [->|Hne].
    + rewrite Hi'. simpl. eexists. split; [reflexivity|]. rewrite Hf. apply body_ext_refl.
    + exists i'. split; [exact Hi'|apply body_ext_refl].
  - intros id' Hn _. rewrite lookup_alter. destruct (decide (id = id')) as [->|Hne].
    + rewrite Hn. reflexivity.
    + exact Hn.
Qed.

Lemma fs_update_lookup fs id f u fs' :
  fs_update fs id f = Ok (u, fs') ->
  exists i, fs_inodes fs !! id = Some i /\ fs_inodes fs' !! id = Some (f i).
Proof.
  intros H. destruct u. apply fs_update_inv in H as (i & Hi & ->).
  exists i. split; [exact Hi|]. simpl. rewrite lookup_alter_eq, Hi. reflexivity.
Qed.

Lemma add_dirent_body t nm id sub i :
  body_ext (i_body i) (i_body (add_dirent t nm id sub i)).
Proof.
  unfold add_dirent. destruct (i_body i) eqn:Hb; simpl; rewrite ?Hb; simpl;
    try discriminate; eauto.
Qed.

Lemma fs_write_ext fs id bytes u fs' :
  fs_write fs id bytes = Ok (u, fs') -> fs_ext fs fs'.
Proof.
  unfold fs_write, fs_inode. destruct (fs_inodes fs !! id) as [i|] eqn:Hi; [|discriminate].
  simpl. destruct (i_body i) as [|data| |] eqn:Hb; try discriminate.
  intros [= <- <-]. apply fs_ext_commit.
  - intros id' i' Hi'. rewrite lookup_insert. destruct (decide (id = id')) as [->|Hne].
    + eexists. split; [reflexivity|]. simpl.
      assert (i' = i) as -> by congruence. rewrite Hb. discriminate.
    + exists i'. split; [exact Hi'|apply body_ext_refl].
  - intros id' Hn _. rewrite lookup_insert_ne; [exact Hn|]. congruence.
Qed.

(** What a successful creation did. *)
Lemma fs_create_inv fs dirfd path perm body id fs' :
  fs_create fs dirfd path perm body = Ok (id, fs') ->
  exists d last es i,
    resolve_parent fs dirfd path = Ok (d, last) /\
    fs_entries fs d = Ok es /\ dir_lookup es last = None /\
    id = (fst d, fs_next_ino fs) /\
    fs_inodes fs !! id = None /\ referenced fs id = false /\
    i_body i = body id d /\ i_perm i = Z.land perm PERM_MASK /\
    fs' = fs_commit fs
            (alter (add_dirent (now fs) last id (is_dir_body (body id d))) d
               (<[id := i]> (fs_inodes fs)))
            (fs_next_ino fs + 1).
Proof.
  unfold fs_create.
  destruct (resolve_parent fs dirfd path) as [[d last]|e]; [|discriminate]. simpl.
  destruct (fs_entries fs d) as [es|e] eqn:He; [|discriminate]. simpl.
  destruct (dir_lookup es last) eqn:Hl; [discriminate|].
  destruct (ends_with_slash path && negb (is_dir_body (body _ d))); [discriminate|].
  destruct (fs_inodes fs !! (fst d, fs_next_ino fs)) eqn:Hi; [discriminate|].
  destruct (referenced fs (fst d, fs_next_ino fs)) eqn:Hr; [discriminate|].
  intros [= <- <-]. eexists d, last, es, _. repeat split; eauto.
Qed.

(** Under a name with a slash at its end, what was made is a directory. *)
Lemma fs_create_slash fs dirfd path perm body id fs' d last :
  fs_create fs dirfd path perm body = Ok (id, fs') ->
  resolve_parent fs dirfd path = Ok (d, last) ->
  ends_with_slash path = true ->
  is_dir_body (body id d) = true.
Proof.
  unfold fs_create. intros H Hp Hsl. rewrite Hp, Hsl in H. simpl in H.
  destruct (fs_entries fs d) as [es|e]; [|discriminate]. simpl in H.
  destruct (dir_lookup es last); [discriminate|].
  destruct (is_dir_body (body (fst d, fs_next_ino fs) d)) eqn:Hb; [|discriminate].
  simpl in H.
  destruct (fs_inodes fs !! (fst d, fs_next_ino fs)); [discriminate|].
  destruct (referenced fs (fst d, fs_next_ino fs)); [discriminate|].
  injection H as <- _. exact Hb.
Qed.

Lemma fs_create_ext fs dirfd path perm body id fs' :
  fs_create fs dirfd path perm body = Ok (id, fs') -> fs_ext fs fs'.
Proof.
  intros H. apply fs_create_inv in H
    as (d & last & es & i & Hp & He & Hl & Hid & Hfree & Hunref & Hb & _ & ->).
  assert (Hd : d <> id).
  { intros ->. unfold fs_entries in He. rewrite Hfree in He. discriminate. }
  apply fs_ext_commit.
  - intros id' i' Hi'. rewrite lookup_alter. destruct (decide (d = id')) as [<-|Hne].
    + rewrite lookup_insert_ne, Hi' by congruence. simpl.
      eexists. split; [reflexivity|]. apply add_dirent_body.
    + rewrite lookup_insert_ne by congruence.
      exists i'. split; [exact Hi'|apply body_ext_refl].
  - intros id' Hn Hr. rewrite lookup_alter. destruct (decide (d = id')) as [<-|Hne].
    + rewrite lookup_insert_ne, Hn by congruence. reflexivity.
    + rewrite lookup_insert_ne; [exact Hn|]. congruence.
Qed.

Lemma fs_open_excl_create fs dirfd path mode r :
  fs_open_excl fs dirfd path mode = Ok r ->
  fs_create fs dirfd path mode (fun _ _ => PReg []) = Ok r.
Proof. unfold fs_open_excl. destruct (ends_with_slash path); [discriminate|auto]. Qed.

(** The new file is what its path names afterwards. *)
Lemma fs_create_resolve fs dirfd path perm body id fs' :
  fs_create fs dirfd path perm body = Ok (id, fs') ->
  resolve fs' dirfd path false = Ok id /\
  exists i d, fs_inodes fs' !! id = Some i /\ i_body i = body id d /\
              i_perm i = Z.land perm PERM_MASK.
Proof.
  intros H. pose proof (fs_create_ext _ _ _ _ _ _ _ H) as E. pose proof H as H0.
  apply fs_create_inv in H
    as (d & last & es & i & Hp & He & Hl & Hid & Hfree & Hunref & Hb & Hperm & Hfs').
  assert (Hd : d <> id).
  { intros ->. unfold fs_entries in He. rewrite Hfree in He. discriminate. }
  assert (Hi' : fs_inodes fs' !! id = Some i).
  { rewrite Hfs'. simpl. rewrite lookup_alter_ne, lookup_insert_eq by congruence.
    reflexivity. }
  assert (He' : fs_entries fs' d = Ok (es ++ [(last, id)])).
  { rewrite Hfs'. unfold fs_entries. simpl.
    rewrite lookup_alter_eq, lookup_insert_ne by congruence.
    unfold fs_entries in He. destruct (fs_inodes fs !! d) as [di|]; [|discriminate].
    simpl. unfold add_dirent. destruct (i_body di); try discriminate.
    injection He as ->. reflexivity. }
  assert (Hl' : dir_lookup (es ++ [(last, id)]) last = Some id).
  { rewrite (dir_lookup_app_None _ _ _ Hl). simpl. rewrite String.eqb_refl. reflexivity. }
  pose proof (resolve_parent_ext _ _ _ _ _ E Hp) as Hp'.
  split.
  - destruct (ends_with_slash path) eqn:Hsl.
    + pose proof (fs_create_slash _ _ _ _ _ _ _ _ _ H0 Hp Hsl) as Hdir.
      assert (exists es', fs_entries fs' id = Ok es') as (es' & Hes').
      { unfold fs_entries. rewrite Hi', Hb. destruct (body id d); try discriminate. eauto. }
      exact (resolve_to_dir _ _ _ _ _ _ _ _ Hp' He' Hl' Hes').
    + rewrite (resolve_via_parent _ _ _ d last Hsl Hp'), He'. simpl. rewrite Hl'.
      reflexivity.
  - exists i, d. auto.
Qed.

Lemma fs_linkat_ext fs olddirfd oldpath newdirfd newpath follow u fs' :
  fs_linkat fs olddirfd oldpath newdirfd newpath follow = Ok (u, fs') -> fs_ext fs fs'.
Proof.
  unfold fs_linkat.
  destruct (resolve fs olddirfd oldpath follow) as [id|e]; [|discriminate]. simpl.
  destruct (fs_inode fs id) as [i|e]; [|discriminate]. simpl.
  destruct (is_dir_body (i_body i)); [discriminate|].
  destruct (resolve_parent fs newdirfd newpath) as [[d last]|e]; [|discriminate]. simpl.
  destruct (fs_entries fs d) as [es|e]; [|discriminate]. simpl.
  destruct (negb (fst d =? fst id)); [discriminate|].
  destruct (dir_lookup es last); [discriminate|].
  destruct (ends_with_slash newpath); [discriminate|].
  intros [= <- <-]. apply fs_ext_commit.
  - intros id' i' Hi'. rewrite !lookup_alter.
    repeat case_decide; subst; rewrite ?Hi'; simpl;
      (eexists; split; [reflexivity|]);
      first [ apply body_ext_refl
            | apply add_dirent_body
            | apply (add_dirent_body _ _ _ _ (set_nlink _ _)) ].
  - intros id' Hn _. rewrite !lookup_alter.
    repeat case_decide; subst; rewrite ?Hn; reflexivity.
Qed.

(** ** What every function of copydir.c preserves *)

Section keeps_rules.
Variable R : world -> world -> Prop.
Hypothesis R_refl : forall w, R w w.
Hypothesis R_trans : forall w1 w2 w3, R w1 w2 -> R w2 w3 -> R w1 w3.

Lemma keeps_ret {A} (a : A) : keeps R (mret a).
Proof. intros w a' w' [= _ <-]. apply R_refl. Qed.

Lemma keeps_bind {A B} (m : M A) (f : A -> M B) :
  keeps R m -> (forall a, keeps R (f a)) -> keeps R (m ≫= f).
Proof.
  intros Hm Hf w b w' H. apply bind_Ret_inv in H as (a & w1 & H1 & H2).
  eapply R_trans; [eapply Hm|eapply Hf]; eassumption.
Qed.

Lemma keeps_get {A} (f : world -> A) : keeps R (get f).
Proof. intros w a w' [= _ <-]. apply R_refl. Qed.

Lemma keeps_assert b : keeps R (assert b).
Proof. intros w a w'. unfold assert. destruct b; [|discriminate].
  intros [= _ <-]. apply R_refl. Qed.

Lemma keeps_abort {A} : keeps R (fun w => @Abort A w).
Proof. intros w a w'. discriminate. Qed.

Lemma keeps_out_of_fuel {A} : keeps R (@out_of_fuel A).
Proof. intros w a w'. discriminate. Qed.

Lemma keeps_modify (f : world -> world) :
  (forall w, R w (f w)) -> keeps R (modify f).
Proof. intros Hf w a w' [= _ <-]. apply Hf. Qed.
End keeps_rules.

Lemma world_ext_refl w : world_ext w w.
Proof. split; [apply fs_ext_refl|auto]. Qed.

Lemma world_ext_trans w1 w2 w3 : world_ext w1 w2 -> world_ext w2 w3 -> world_ext w1 w3.
Proof.
  intros (E1 & F1 & S1) (E2 & F2 & S2). split; [eapply fs_ext_trans; eassumption|].
  split; congruence.
Qed.

Lemma keeps_syscall {A} ev (op : filesys -> result (A * filesys)) :
  grows op -> keeps world_ext (syscall ev op).
Proof.
  intros Hop w r w' H. apply syscall_inv in H as (_ & _ & Hs & _ & Hf & Hr).
  split; [|auto]. destruct Hr as [(e & _ & ->)|(a & _ & _ & Ho)].
  - apply fs_ext_refl.
  - eapply Hop. exact Ho.
Qed.

Lemma grows_keep {A} (op : filesys -> result A) : grows (keep op).
Proof.
  intros fs a fs'. unfold keep. destruct (op fs); simpl; [|discriminate].
  intros [= _ <-]. apply fs_ext_refl.
Qed.

Lemma grows_id {A} (a : A) : grows (fun fs => Ok (a, fs)).
Proof. intros fs a' fs' [= _ <-]. apply fs_ext_refl. Qed.

Lemma grows_create dirfd path perm body :
  grows (fun fs => fs_create fs dirfd path perm body).
Proof. intros fs a fs'. apply fs_create_ext. Qed.

Lemma grows_drop_id (op : filesys -> result (fileid * filesys)) :
  grows op -> grows (fun fs => rbind (op fs) (fun r => Ok (tt, snd r))).
Proof.
  intros Hop fs a fs'. destruct (op fs) as [[id fs1]|e] eqn:Ho; simpl; [|discriminate].
  intros [= _ <-]. eapply Hop. exact Ho.
Qed.

Lemma grows_mknodat dirfd path mode dev :
  grows (fun fs => fs_mknodat fs dirfd path mode dev).
Proof.
  intros fs a fs'. unfold fs_mknodat.
  repeat match goal with |- context [if ?b then _ else _] => destruct b end;
    try discriminate; apply fs_create_ext.
Qed.

Lemma grows_symlinkat target dirfd path :
  grows (fun fs => fs_symlinkat fs target dirfd path).
Proof.
  intros fs a fs'. unfold fs_symlinkat.
  destruct (String.eqb target ""); [discriminate|]. apply fs_create_ext.
Qed.

Lemma grows_linkat olddirfd oldpath newdirfd newpath follow :
  grows (fun fs => fs_linkat fs olddirfd oldpath newdirfd newpath follow).
Proof. intros fs a fs'. apply fs_linkat_ext. Qed.

Lemma grows_update id f :
  (forall i, i_body (f i) = i_body i) -> grows (fun fs => fs_update fs id f).
Proof. intros Hf fs a fs'. apply fs_update_ext. exact Hf. Qed.

Lemma grows_resolve_update dirfd path follow (f : inode -> inode) :
  (forall i, i_body (f i) = i_body i) ->
  grows (fun fs => rbind (resolve fs dirfd path follow) (fun id => fs_update fs id f)).
Proof.
  intros Hf fs a fs'. destruct (resolve fs dirfd path follow); simpl; [|discriminate].
  apply fs_update_ext. exact Hf.
Qed.

Lemma grows_fchmodat dirfd path mode follow :
  grows (fun fs => fs_fchmodat fs dirfd path mode follow).
Proof.
  intros fs a fs'. unfold fs_fchmodat.
  destruct (resolve fs dirfd path follow) as [id|]; simpl; [|discriminate].
  destruct (link_target fs id); [discriminate|].
  apply fs_update_ext. reflexivity.
Qed.

Lemma grows_write id bytes : grows (fun fs => fs_write fs id bytes).
Proof. intros fs a fs'. apply fs_write_ext. Qed.

Lemma grows_perm_copy src dst : grows (fun fs => fs_perm_copy fs src dst).
Proof.
  intros fs a fs'. unfold fs_perm_copy. destruct (fs_inode fs src); simpl; [|discriminate].
  apply fs_update_ext. reflexivity.
Qed.

Lemma grows_attr_copy src dst : grows (fun fs => fs_attr_copy fs src dst).
Proof.
  intros fs a fs'. unfold fs_attr_copy. destruct (fs_inode fs src); simpl; [|discriminate].
  apply fs_update_ext. reflexivity.
Qed.

Lemma grows_openat dirfd path flags mode :
  grows (fun fs =>
           if has_flag flags O_CREAT && has_flag flags O_EXCL
           then fs_open_excl fs dirfd path mode
           else keep (fun fs => fs_open fs dirfd path (has_flag flags O_DIRECTORY)
                                  (negb (has_flag flags O_NOFOLLOW))) fs).
Proof.
  intros fs a fs'. destruct (has_flag flags O_CREAT && has_flag flags O_EXCL).
  - intros H. apply fs_open_excl_create in H. eapply fs_create_ext. exact H.
  - apply grows_keep.
Qed.

Create HintDb keeps discriminated.

#[local] Hint Resolve world_ext_refl world_ext_trans : keeps.
#[local] Hint Resolve grows_keep grows_id grows_create grows_drop_id grows_mknodat
  grows_symlinkat grows_linkat grows_update grows_resolve_update grows_fchmodat
  grows_write grows_perm_copy grows_attr_copy grows_openat : keeps.

Lemma world_ext_same w w' :
  w_fs w' = w_fs w -> w_fault w' = w_fault w -> src_orig w' = src_orig w ->
  world_ext w w'.
Proof. intros Hfs Hf Hs. split; [rewrite Hfs; apply fs_ext_refl|auto]. Qed.

Lemma keeps_log ev : keeps world_ext (modify (log ev)).
Proof. apply keeps_modify. intros w. apply world_ext_same; reflexivity. Qed.

Lemma keeps_set_links (f : world -> list link_name) :
  keeps world_ext (modify (fun w => set_links (f w) w)).
Proof. apply keeps_modify. intros w. apply world_ext_same; reflexivity. Qed.

(** One step of a syntax-directed proof of [keeps world_ext m]. *)
Ltac keeps_step :=
  lazymatch goal with
  | |- keeps _ (mbind _ _) =>
      apply (keeps_bind _ world_ext_trans); [|intros ?]
  | |- keeps _ (mret _) => apply (keeps_ret _ world_ext_refl)
  | |- keeps _ (get _) => apply (keeps_get _ world_ext_refl)
  | |- keeps _ (assert _) => apply (keeps_assert _ world_ext_refl)
  | |- keeps _ (fun w => Abort w) => apply keeps_abort
  | |- keeps _ out_of_fuel => apply keeps_out_of_fuel
  | |- keeps _ (modify (log _)) => apply keeps_log
  | |- keeps _ (modify (fun w => set_links _ w)) => apply keeps_set_links
  | |- keeps _ (syscall _ _) => apply keeps_syscall; auto with keeps
  | |- keeps _ (match ?x with _ => _ end) => destruct x
  | |- keeps _ (let _ := _ in _) => cbv zeta
  end.

Ltac keeps_auto := repeat first [ assumption | solve [auto with keeps] | keeps_step ].

Lemma keeps_fstatat dirfd path flags : keeps world_ext (fstatat dirfd path flags).
Proof. unfold fstatat. keeps_auto. Qed.

Lemma keeps_openat dirfd path flags mode : keeps world_ext (openat dirfd path flags mode).
Proof. unfold openat. keeps_auto. Qed.

Lemma keeps_fdopendir f : keeps world_ext (fdopendir f).
Proof. unfold fdopendir. keeps_auto. Qed.

Lemma keeps_readdir dir names : keeps world_ext (readdir dir names).
Proof. unfold readdir. keeps_auto. Qed.

Lemma keeps_closedir d : keeps world_ext (closedir d).
Proof. unfold closedir. keeps_auto. Qed.

Lemma keeps_close f : keeps world_ext (close f).
Proof. unfold close. keeps_auto. Qed.

Lemma keeps_mkdirat dirfd path mode : keeps world_ext (mkdirat dirfd path mode).
Proof. unfold mkdirat, fs_mkdirat. keeps_auto. Qed.

Lemma keeps_fchownat dirfd path uid gid flags :
  keeps world_ext (fchownat dirfd path uid gid flags).
Proof. unfold fchownat, fs_fchownat. keeps_auto. Qed.

Lemma keeps_fchown f uid gid : keeps world_ext (fchown f uid gid).
Proof. unfold fchown, fs_fchown. keeps_auto. Qed.

Lemma keeps_fchmodat dirfd path mode flags :
  keeps world_ext (fchmodat dirfd path mode flags).
Proof. unfold fchmodat. keeps_auto. Qed.

Lemma keeps_fchmod f mode : keeps world_ext (fchmod f mode).
Proof. unfold fchmod, fs_fchmod. keeps_auto. Qed.

Lemma keeps_utimensat dirfd path mt flags :
  keeps world_ext (utimensat dirfd path mt flags).
Proof. unfold utimensat, fs_utimensat. keeps_auto. Qed.

Lemma keeps_symlinkat target dirfd path : keeps world_ext (symlinkat target dirfd path).
Proof. unfold symlinkat. keeps_auto. Qed.

Lemma keeps_linkat olddirfd oldpath newdirfd newpath flags :
  keeps world_ext (linkat olddirfd oldpath newdirfd newpath flags).
Proof. unfold linkat. keeps_auto. Qed.

Lemma keeps_mknodat dirfd path mode dev : keeps world_ext (mknodat dirfd path mode dev).
Proof. unfold mknodat. keeps_auto. Qed.

Lemma keeps_read f offset count : keeps world_ext (read f offset count).
Proof. unfold read. keeps_auto. Qed.

Lemma keeps_write_full f buf : keeps world_ext (write_full f buf).
Proof. unfold write_full. keeps_auto. Qed.

Lemma keeps_areadlink path : keeps world_ext (areadlink path).
Proof. unfold areadlink. keeps_auto. Qed.

Lemma keeps_aprintf s : keeps world_ext (aprintf s).
Proof. unfold aprintf. keeps_auto. Qed.

Lemma keeps_set_selinux path t : keeps world_ext (set_selinux_file_context path t).
Proof. unfold set_selinux_file_context. keeps_auto. Qed.

Lemma keeps_reset_selinux : keeps world_ext reset_selinux_file_context.
Proof. unfold reset_selinux_file_context. keeps_auto. Qed.

Lemma keeps_fprintf_log msg : keeps world_ext (fprintf_log msg).
Proof. unfold fprintf_log. keeps_auto. Qed.

#[local] Hint Resolve keeps_fstatat keeps_openat keeps_fdopendir keeps_readdir
  keeps_closedir keeps_close keeps_mkdirat keeps_fchownat keeps_fchown keeps_fchmodat keeps_fchmod
  keeps_utimensat keeps_symlinkat keeps_linkat keeps_mknodat keeps_read
  keeps_write_full keeps_areadlink keeps_aprintf keeps_set_selinux
  keeps_reset_selinux keeps_fprintf_log : keeps.

Lemma keeps_failed {A} (call : M (result A)) :
  keeps world_ext call -> keeps world_ext (failed call).
Proof. intros H. unfold failed. keeps_auto. Qed.

Lemma keeps_orelse (a b : M bool) :
  keeps world_ext a -> keeps world_ext b -> keeps world_ext (orelse a b).
Proof. intros Ha Hb. unfold orelse. keeps_auto. Qed.

Lemma keeps_failed_with_errno (call : M (Z * option errno)) :
  keeps world_ext call -> keeps world_ext (failed_with_errno call).
Proof. intros H. unfold failed_with_errno. keeps_auto. Qed.

#[local] Hint Resolve keeps_failed keeps_orelse keeps_failed_with_errno : keeps.

Ltac keeps_comb :=
  lazymatch goal with
  | |- keeps _ (orelse _ _) => apply keeps_orelse
  | |- keeps _ (failed _) => apply keeps_failed
  | |- keeps _ (failed_with_errno _) => apply keeps_failed_with_errno
  end.

Ltac keeps_all :=
  repeat first [ assumption | solve [auto with keeps] | keeps_comb | keeps_step ].

Lemma keeps_error_acl e : keeps world_ext (error_acl e).
Proof. unfold error_acl. keeps_all. Qed.

#[local] Hint Resolve keeps_error_acl : keeps.

Lemma keeps_perm_copy_fd s d : keeps world_ext (perm_copy_fd s d).
Proof. unfold perm_copy_fd. keeps_all. Qed.

Lemma keeps_attr_copy_fd s d : keeps world_ext (attr_copy_fd s d).
Proof. unfold attr_copy_fd. keeps_all. Qed.

Lemma keeps_copy_path copy_fd src dst :
  (forall s d, keeps world_ext (copy_fd s d)) -> keeps world_ext (copy_path copy_fd src dst).
Proof. intros H. unfold copy_path. keeps_all. Qed.

#[local] Hint Resolve keeps_perm_copy_fd keeps_attr_copy_fd keeps_copy_path : keeps.

Lemma keeps_perm_copy_path src dst : keeps world_ext (perm_copy_path src dst).
Proof. unfold perm_copy_path. auto with keeps. Qed.

Lemma keeps_attr_copy_path src dst : keeps world_ext (attr_copy_path src dst).
Proof. unfold attr_copy_path. auto with keeps. Qed.

Lemma keeps_remove_link ln : keeps world_ext (remove_link ln).
Proof. unfold remove_link. keeps_all. Qed.

Lemma keeps_check_link nm sb : keeps world_ext (check_link nm sb).
Proof. unfold check_link. keeps_all. Qed.

Lemma keeps_chownat_if_needed dst statp a b c d :
  keeps world_ext (chownat_if_needed dst statp a b c d).
Proof. unfold chownat_if_needed. keeps_all. Qed.

Lemma keeps_fchown_if_needed dst statp a b c d :
  keeps world_ext (fchown_if_needed dst statp a b c d).
Proof. unfold fchown_if_needed, def_chown_if_needed. keeps_all. Qed.

#[local] Hint Resolve keeps_perm_copy_path keeps_attr_copy_path keeps_remove_link
  keeps_check_link keeps_chownat_if_needed keeps_fchown_if_needed : keeps.

Lemma keeps_copy_symlink S src dst rs statp mt a b c d :
  keeps world_ext (copy_symlink S src dst rs statp mt a b c d).
Proof. unfold copy_symlink. keeps_all. Qed.

Lemma keeps_copy_hardlink dst rs lp : keeps world_ext (copy_hardlink dst rs lp).
Proof. unfold copy_hardlink. keeps_all. Qed.

Lemma keeps_copy_special S A X src dst rs statp mt a b c d :
  keeps world_ext (copy_special S A X src dst rs statp mt a b c d).
Proof. unfold copy_special. keeps_all. Qed.

Lemma keeps_copy_file_loop fuel ifd ofd :
  forall offset, keeps world_ext (copy_file_loop fuel ifd ofd offset).
Proof. induction fuel as [|fuel IH]; intros offset; simpl; keeps_all. Qed.

#[local] Hint Resolve keeps_copy_symlink keeps_copy_hardlink keeps_copy_special
  keeps_copy_file_loop : keeps.

Lemma keeps_copy_file S A X fuel src dst rs statp mt a b c d :
  keeps world_ext (copy_file S A X fuel src dst rs statp mt a b c d).
Proof. unfold copy_file. keeps_all. Qed.

#[local] Hint Resolve keeps_copy_file : keeps.

Section keeps_recursion.
Variables S A X : bool.
Variable rec : tree_copier.
Hypothesis keeps_rec :
  forall src dst cr rs a b c d, keeps world_ext (rec src dst cr rs a b c d).

Lemma keeps_copy_dir src dst rs statp mt a b c d :
  keeps world_ext (copy_dir S A X rec src dst rs statp mt a b c d).
Proof. unfold copy_dir. keeps_all. Qed.

Lemma keeps_copy_entry fuel src dst rs a b c d :
  keeps world_ext (copy_entry S A X rec fuel src dst rs a b c d).
Proof. pose proof keeps_copy_dir. unfold copy_entry. keeps_all. Qed.

Lemma keeps_copy_tree_entry fuel src dst dir dst_fd d_name err rs a b c d :
  keeps world_ext (copy_tree_entry S A X rec fuel src dst dir dst_fd d_name err rs a b c d).
Proof. pose proof keeps_copy_entry. unfold copy_tree_entry. keeps_all. Qed.

Lemma keeps_copy_tree_loop fuel src dst dir dst_fd names rs a b c d :
  forall err,
    keeps world_ext
      (copy_tree_loop S A X rec fuel src dst dir dst_fd names err rs a b c d).
Proof.
  pose proof keeps_copy_tree_entry.
  induction names as [|d_name rest IH]; intros err; simpl; keeps_all.
Qed.
End keeps_recursion.

(** [copy_tree_impl] sets [src_orig] only if it is unset and unsets it
    again, so the whole call leaves it as it was. *)
Lemma keeps_copy_tree_impl S A X fuel :
  forall src dst cr rs a b c d,
    keeps world_ext (copy_tree_impl S A X fuel src dst cr rs a b c d).
Proof.
  induction fuel as [|fuel IH]; intros src dst cr rs a b c d; simpl; [keeps_all|].
  pose proof (keeps_copy_entry S A X _ IH) as Hentry.
  pose proof (keeps_copy_tree_loop S A X _ IH) as Hloop.
  destruct cr; [keeps_all|].
  do 3 (keeps_step; [keeps_all|]; keeps_step; [|keeps_all]).
  intros w r w' H. apply bind_Ret_inv in H as (so & w0 & [= <- <-] & H).
  destruct (src_orig w) eqn:Hso; simpl in H.
  - refine ((_ : keeps world_ext _) w r w' H). keeps_all.
  - apply bind_Ret_inv in H as ([] & w1 & [= <-] & H).
    apply bind_Ret_inv in H as (err & w2 & H2 & H).
    apply Hloop in H2 as (E2 & F2 & S2).
    apply bind_Ret_inv in H as ([] & w3 & [= <-] & H).
    apply bind_Ret_inv in H as (cl & w4 & H4 & H).
    apply keeps_close in H4 as (E4 & F4 & S4).
    apply bind_Ret_inv in H as ([] & w5 & [= <-] & H).
    assert (Hrest : keeps world_ext
              (sel ← (if S then failed reset_selinux_file_context else mret false);
               mret (if sel : bool then -1 else err))) by keeps_all.
    apply Hrest in H as (E6 & F6 & S6). simpl in *.
    split; [|split].
    + eapply fs_ext_trans; [exact E2|]. eapply fs_ext_trans; [exact E4|exact E6].
    + congruence.
    + rewrite S6, Hso. reflexivity.
Qed.

(** ** The directory loop *)

Lemma readdir_run dir names w :
  readdir dir names w =
  Ret (match w_fault w (w_trace w) (EvReaddir dir) with
       | Some _ => None
       | None => head names
       end) (log (EvReaddir dir) w).
Proof.
  unfold readdir, syscall, mbind, M_bind. destruct (w_fault w _ _); reflexivity.
Qed.

Section walk_loop.
Variables S A X : bool.
Variable rec : tree_copier.
Variables (fuel : nat) (src dst : path_info) (dir dst_fd : fileid) (rs : bool).
Variables a b c d : Z.

Lemma copy_tree_loop_cons d_name rest w :
  w_fault w (w_trace w) (EvReaddir dir) = None ->
  copy_tree_loop S A X rec fuel src dst dir dst_fd (d_name :: rest) 0 rs a b c d w =
  (err ← copy_tree_entry S A X rec fuel src dst dir dst_fd d_name 0 rs a b c d;
   copy_tree_loop S A X rec fuel src dst dir dst_fd rest err rs a b c d)
    (log (EvReaddir dir) w).
Proof.
  intros Hr. cbn [copy_tree_loop]. change (negb (0 =? 0)) with false. cbv iota.
  rewrite (bind_Ret _ _ _ _ _ (readdir_run dir (d_name :: rest) w)), Hr. reflexivity.
Qed.

(** [readdir] returns NULL: the loop is over. *)
Lemma copy_tree_loop_end names w :
  names = [] \/ w_fault w (w_trace w) (EvReaddir dir) <> None ->
  copy_tree_loop S A X rec fuel src dst dir dst_fd names 0 rs a b c d w =
  Ret 0 (log (EvReaddir dir) w).
Proof.
  intros H.
  assert (E : copy_tree_loop S A X rec fuel src dst dir dst_fd names 0 rs a b c d w =
              (ent ← readdir dir names;
               match ent, names with
               | Some d_name, _ :: rest =>
                   err ← copy_tree_entry S A X rec fuel src dst dir dst_fd d_name 0
                           rs a b c d;
                   copy_tree_loop S A X rec fuel src dst dir dst_fd rest err rs a b c d
               | _, _ => mret 0
               end) w) by (destruct names; reflexivity).
  rewrite E, (bind_Ret _ _ _ _ _ (readdir_run dir names w)).
  destruct H as [->|H].
  - destruct (w_fault w _ _); reflexivity.
  - destruct (w_fault w _ _); [reflexivity|contradiction].
Qed.

Lemma copy_tree_loop_stop names err w :
  err <> 0 ->
  copy_tree_loop S A X rec fuel src dst dir dst_fd names err rs a b c d w = Ret err w.
Proof.
  intros Herr. destruct names; simpl; destruct err; try congruence; reflexivity.
Qed.

Lemma copy_tree_loop_first_failure earlier d_name later w w0 w1 err :
  siblings_ok S A X rec fuel src dst dir dst_fd rs a b c d earlier w w0 ->
  w_fault w0 (w_trace w0) (EvReaddir dir) = None ->
  copy_tree_entry S A X rec fuel src dst dir dst_fd d_name 0 rs a b c d
    (log (EvReaddir dir) w0) = Ret err w1 ->
  err <> 0 ->
  copy_tree_loop S A X rec fuel src dst dir dst_fd (earlier ++ d_name :: later) 0
    rs a b c d w = Ret err w1.
Proof.
  intros Hok Hread Hfail Herr. induction Hok as [w|n names w wa wb Hr Hn Hok IH].
  - simpl app. rewrite (copy_tree_loop_cons _ _ _ Hread), (bind_Ret _ _ _ _ _ Hfail).
    apply copy_tree_loop_stop. exact Herr.
  - simpl app. rewrite (copy_tree_loop_cons _ _ _ Hr), (bind_Ret _ _ _ _ _ Hn).
    apply IH; assumption.
Qed.

(** A loop that ends with 0 has handled, with result 0, the names of the
    stream one after the other, up to its end or to the first [readdir]
    that failed. *)
Lemma copy_tree_loop_ok_inv names :
  forall w w',
    copy_tree_loop S A X rec fuel src dst dir dst_fd names 0 rs a b c d w = Ret 0 w' ->
    exists handled rest w1,
      names = handled ++ rest /\
      siblings_ok S A X rec fuel src dst dir dst_fd rs a b c d handled w w1 /\
      (rest = [] \/ w_fault w1 (w_trace w1) (EvReaddir dir) <> None) /\
      w' = log (EvReaddir dir) w1.
Proof.
  induction names as [|d_name names IH]; intros w w' H.
  - rewrite copy_tree_loop_end in H by auto. injection H as <-.
    exists [], [], w. split; [reflexivity|]. split; [constructor|]. auto.
  - destruct (w_fault w (w_trace w) (EvReaddir dir)) as [e|] eqn:Hr.
    + rewrite copy_tree_loop_end in H by (right; congruence). injection H as <-.
      exists [], (d_name :: names), w. split; [reflexivity|]. split; [constructor|].
      split; [right; congruence|reflexivity].
    + rewrite (copy_tree_loop_cons _ _ _ Hr) in H.
      apply bind_Ret_inv in H as (err & w2 & He & H).
      destruct (Z.eq_dec err 0) as [->|Hne].
      * apply IH in H as (handled & rest & w1 & -> & Hs & Hend & ->).
        exists (d_name :: handled), rest, w1. split; [reflexivity|].
        split; [econstructor; eassumption|]. auto.
      * rewrite copy_tree_loop_stop in H by exact Hne. congruence.
Qed.
End walk_loop.

(** [copy_tree_impl] without [copy_root], once its two directories and the
    stream are open. *)
Lemma copy_tree_impl_opened S A X fuel src dst rs a b c d w src_fd dst_fd dir wa wb wc :
  openat (dirfd src) (name src) OPEN_DIR_FLAGS 0 w = Ret (Ok src_fd) wa ->
  openat (dirfd dst) (name dst) OPEN_DIR_FLAGS 0 wa = Ret (Ok dst_fd) wb ->
  fdopendir src_fd wb = Ret (Ok dir) wc ->
  copy_tree_impl S A X (Datatypes.S fuel) src dst false rs a b c d w =
  (err ← copy_tree_loop S A X (copy_tree_impl S A X fuel) fuel src dst (fst dir) dst_fd
           (snd dir) 0 rs a b c d;
   closedir dir;;
   close dst_fd;;
   (if negb (is_some (src_orig wc)) then modify (set_roots None None) else mret tt);;
   sel ← (if S then failed reset_selinux_file_context else mret false);
   mret (if sel : bool then -1 else err)) (enter_walk src dst wc).
Proof.
  intros H1 H2 H3. simpl.
  change (Z.lor (Z.lor (Z.lor O_DIRECTORY O_RDONLY) O_NOFOLLOW) O_CLOEXEC)
    with OPEN_DIR_FLAGS.
  rewrite (bind_Ret _ _ _ _ _ H1), (bind_Ret _ _ _ _ _ H2), (bind_Ret _ _ _ _ _ H3).
  unfold enter_walk, mbind at 1, M_bind, get.
  destruct (src_orig wc); reflexivity.
Qed.

(** A call that does not touch the files only adds itself to the trace,
    and fails exactly when the environment refuses it. *)
Lemma syscall_id_run {A} ev (a : A) w :
  syscall ev (fun fs => Ok (a, fs)) w =
  Ret (match w_fault w (w_trace w) ev with Some e => Err e | None => Ok a end) (log ev w).
Proof.
  unfold syscall. destruct (w_fault w _ ev); reflexivity.
Qed.

(** What [copy_tree_impl] does once its loop is over. *)
Lemma walk_epilogue (S : bool) (dir : DIR) (dst_fd : fileid) (unset : bool) (err : Z) w1 :
  exists w',
    (closedir dir;;
     close dst_fd;;
     (if unset then modify (set_roots None None) else mret tt);;
     sel ← (if S then failed reset_selinux_file_context else mret false);
     mret (if sel : bool then -1 else err)) w1 =
    Ret (if S
         then match w_fault w1 (w_trace w1 ++ [EvClosedir (fst dir); EvClose dst_fd])
                      EvResetSelinux with
              | Some _ => -1
              | None => err
              end
         else err) w' /\
    w_fs w' = w_fs w1 /\ links w' = links w1 /\
    w_trace w' = w_trace w1 ++ [EvClosedir (fst dir); EvClose dst_fd]
                   ++ (if S then [EvResetSelinux] else []) /\
    src_orig w' = (if unset then None else src_orig w1) /\
    dst_orig w' = (if unset then None else dst_orig w1).
Proof.
  unfold closedir, modify, mbind at 1, M_bind.
  unfold close. rewrite (bind_Ret _ _ _ _ _ (syscall_id_run _ _ _)).
  set (w3 := log (EvClose dst_fd) (log (EvClosedir (fst dir)) w1)).
  assert (Hroots : exists w4,
            (if unset then modify (set_roots None None) else mret tt) w3 = Ret tt w4 /\
            w_fs w4 = w_fs w1 /\ links w4 = links w1 /\ w_trace w4 = w_trace w3 /\
            w_fault w4 = w_fault w1 /\
            src_orig w4 = (if unset then None else src_orig w1) /\
            dst_orig w4 = (if unset then None else dst_orig w1)).
  { destruct unset; eexists; (split; [reflexivity|]); auto 7. }
  destruct Hroots as (w4 & H4 & Hfs4 & Hl4 & Htr4 & Hf4 & Hs4 & Hd4).
  rewrite (bind_Ret _ _ _ _ _ H4).
  assert (Htr3 : w_trace w3 = w_trace w1 ++ [EvClosedir (fst dir); EvClose dst_fd]).
  { unfold w3. simpl. rewrite <- app_assoc. reflexivity. }
  destruct S.
  - unfold failed, reset_selinux_file_context, mbind, M_bind.
    rewrite syscall_id_run, Hf4, Htr4, Htr3.
    exists (log EvResetSelinux w4). split.
    { destruct (w_fault w1 _ EvResetSelinux); reflexivity. }
    simpl. rewrite Htr4, Htr3, <- app_assoc. auto 7.
  - exists w4. split; [reflexivity|]. rewrite Htr4, Htr3, app_nil_r. auto 7.
Qed.

(** C9, amended: in a walk whose directories are open, when the entries
    read so far were handled with result 0 and the next entry fails with
    [err], the call stops there: whatever names are still to be read, it
    only closes the stream and the destination directory (and resets the
    SELinux context when built with SELinux), and it fails.  It returns
    [err] itself, but when built with SELinux and that reset fails as
    well, it returns -1, whatever [err] was.  The file system is as
    the failed entry left it, an extension of the file system the earlier
    siblings left. *)
Theorem C9_first_failure_aborts_walk (S A X : bool) (fuel : nat) (src dst : path_info)
    (rs : bool) (a b c d : Z) (w wa wb wc w0 w1 : world) (src_fd dst_fd : fileid)
    (earlier later : list string) (d_name : string) (err : Z) :
  openat (dirfd src) (name src) OPEN_DIR_FLAGS 0 w = Ret (Ok src_fd) wa ->
  openat (dirfd dst) (name dst) OPEN_DIR_FLAGS 0 wa = Ret (Ok dst_fd) wb ->
  fdopendir src_fd wb = Ret (Ok (src_fd, earlier ++ d_name :: later)) wc ->
  siblings_ok S A X (copy_tree_impl S A X fuel) fuel src dst src_fd dst_fd rs a b c d
    earlier (enter_walk src dst wc) w0 ->
  w_fault w0 (w_trace w0) (EvReaddir src_fd) = None ->
  copy_tree_entry S A X (copy_tree_impl S A X fuel) fuel src dst src_fd dst_fd d_name 0
    rs a b c d (log (EvReaddir src_fd) w0) = Ret err w1 ->
  err <> 0 ->
  exists r w',
    copy_tree_impl S A X (Datatypes.S fuel) src dst false rs a b c d w = Ret r w' /\
    r <> 0 /\
    r = (if S
         then match w_fault w1 (w_trace w1 ++ [EvClosedir src_fd; EvClose dst_fd])
                      EvResetSelinux with
              | Some _ => -1
              | None => err
              end
         else err) /\
    w_fs w' = w_fs w1 /\
    w_trace w' = w_trace w1 ++ [EvClosedir src_fd; EvClose dst_fd]
                   ++ (if S then [EvResetSelinux] else []) /\
    fs_ext (w_fs w0) (w_fs w').
Proof.
  intros H1 H2 H3 Hok Hread Hfail Herr.
  rewrite (copy_tree_impl_opened _ _ _ _ _ _ _ _ _ _ _ _ _ _ _ _ _ _ H1 H2 H3).
  cbn [fst snd].
  rewrite (bind_Ret _ _ _ _ _
             (copy_tree_loop_first_failure S A X _ fuel src dst src_fd dst_fd rs a b c d
                earlier d_name later _ w0 w1 err Hok Hread Hfail Herr)).
  assert (Hext : fs_ext (w_fs w0) (w_fs w1)).
  { pose proof (keeps_copy_tree_entry S A X _ (keeps_copy_tree_impl S A X fuel)
                  fuel src dst src_fd dst_fd d_name 0 rs a b c d _ _ _ Hfail) as (E & _).
    exact E. }
  destruct (walk_epilogue S (src_fd, earlier ++ d_name :: later) dst_fd
              (negb (is_some (src_orig wc))) err w1)
    as (w' & Hrun & Hfs & _ & Htr & _).
  cbn [fst] in Hrun, Htr.
  eexists _, w'. split; [exact Hrun|]. split.
  { destruct S; [|exact Herr].
    destruct (w_fault w1 _ EvResetSelinux); [discriminate|exact Herr]. }
  split; [reflexivity|]. split; [exact Hfs|]. split; [exact Htr|].
  rewrite Hfs. exact Hext.
Qed.

Lemma C9_witness :
  exists r w',
    copy_tree_impl false false false 4 skel_src newuser_dst false false
      ID_UNSET 1001 ID_UNSET 1001 c9_start = Ret r w' /\
    r <> 0 /\
    r = -1 /\
    w_fs w' = w_fs c9_after_bin /\
    w_trace w' = w_trace c9_after_bin ++ [EvClosedir (1, 2); EvClose (1, 4)] ++ [] /\
    fs_ext (w_fs c9_before_bin) (w_fs w').
Proof.
  apply (C9_first_failure_aborts_walk false false false 3 skel_src newuser_dst false
           ID_UNSET 1001 ID_UNSET 1001 c9_start
           (log (EvOpenat AT_FDCWD "/skel" OPEN_DIR_FLAGS 0) c9_start)
           (log (EvOpenat AT_FDCWD "/home/newuser" OPEN_DIR_FLAGS 0)
              (log (EvOpenat AT_FDCWD "/skel" OPEN_DIR_FLAGS 0) c9_start))
           c9_opened c9_before_bin c9_after_bin (1, 2) (1, 4)
           ["."; ".."; ".bashrc"] ["a"; "b"; "self"; "sub"] "bin" (-1)).
  - vm_compute. reflexivity.
  - vm_compute. reflexivity.
  - vm_compute. reflexivity.
  - apply siblings_cons with (w1 := c9_step "." (enter_walk skel_src newuser_dst c9_opened));
      [reflexivity|vm_compute; reflexivity|].
    apply siblings_cons
      with (w1 := c9_step ".." (c9_step "." (enter_walk skel_src newuser_dst c9_opened)));
      [reflexivity|vm_compute; reflexivity|].
    apply siblings_cons with (w1 := c9_before_bin);
      [reflexivity|vm_compute; reflexivity|].
    apply siblings_nil.
  - reflexivity.
  - vm_compute. reflexivity.
  - discriminate.
Defined.

(** C9 as it is stated fails: the failure does not always propagate
    unchanged.  Built with SELinux support, in a walk from /skel into a
    /home/newuser that holds a directory sub already, the entry sub fails
    with 1 (its file f cannot be made, and [copy_dir] turns the failure of
    the walk into sub into 1); the environment then refuses to reset the
    SELinux context, and the walk returns -1. *)
Lemma C9_reset_replaces_failure :
  copy_tree_entry true false false (copy_tree_impl true false false 3) 3
    skel_src newuser_dst (1, 2) (1, 4) "sub" 0 false ID_UNSET 1001 ID_UNSET 1001
    (log (EvReaddir (1, 2)) c9s_before_sub) = Ret 1 c9s_after_sub /\
  exists w',
    copy_tree_impl true false false 4 skel_src newuser_dst false false
      ID_UNSET 1001 ID_UNSET 1001 c9s_start = Ret (-1) w' /\
    w_fs w' = w_fs c9s_after_sub /\
    w_trace w' = w_trace c9s_after_sub
                   ++ [EvClosedir (1, 2); EvClose (1, 4); EvResetSelinux].
Proof.
  split; [vm_compute; reflexivity|].
  eexists. split; [vm_compute; reflexivity|]. split; vm_compute; reflexivity.
Qed.

(** ** The entry dispatcher *)

Lemma fstatat_nofollow_run w p :
  fstatat (dirfd p) (name p) AT_SYMLINK_NOFOLLOW w =
  Ret (probe_nofollow w p) (log (lstat_event p) w).
Proof.
  unfold fstatat, syscall, keep, probe_nofollow, lstat_event.
  destruct (w_fault w _ _); [reflexivity|].
  change (follows AT_SYMLINK_NOFOLLOW) with false.
  destruct (fs_stat (w_fs w) (dirfd p) (name p) false); reflexivity.
Qed.

(** C5: [copy_entry] probes the source without following a symbolic link
    and, if the probe fails, returns 0 having done nothing else.
    Otherwise a directory source goes through [copy_dir] first; then the
    destination is probed without following, and if it is there the
    result of the first stage is returned and nothing more is done.  If
    it is not there, a symbolic link goes to [copy_symlink]; any other
    source is looked up in the registry and goes to [copy_hardlink] on a
    hit, else to [copy_special] unless it is a regular file, which alone
    goes to [copy_file]. *)
Theorem C5_entry_dispatch (S A X : bool) (rec : tree_copier) (fuel : nat)
    (src dst : path_info) (rs : bool) (a b c d : Z) (w : world) :
  let run := copy_entry S A X rec fuel src dst rs a b c d w in
  match probe_nofollow w src with
  | Err _ => run = Ret 0 (log (lstat_event src) w)
  | Ok sb =>
      let mt := (st_atim sb, st_mtim sb) in
      forall err w2,
        (if S_ISDIR (st_mode sb)
         then copy_dir S A X rec src dst rs sb mt a b c d
         else mret 0) (log (lstat_event src) w) = Ret err w2 ->
        let w3 := log (lstat_event dst) w2 in
        match probe_nofollow w2 dst with
        | Ok _ => run = Ret err w3
        | Err _ =>
            if S_ISLNK (st_mode sb)
            then run = copy_symlink S src dst rs sb mt a b c d w3
            else
              forall lp w4,
                check_link (full_path src) sb w3 = Ret lp w4 ->
                match lp with
                | Some lp => run = copy_hardlink dst rs lp w4
                | None =>
                    if S_ISREG (st_mode sb)
                    then run = copy_file S A X fuel src dst rs sb mt a b c d w4
                    else run = copy_special S A X src dst rs sb mt a b c d w4
                end
        end
  end.
Proof.
  cbv zeta. unfold copy_entry.
  rewrite (bind_Ret _ _ _ _ _ (fstatat_nofollow_run w src)).
  destruct (probe_nofollow w src) as [sb|e]; [|reflexivity].
  intros err w2 Hfirst.
  rewrite (bind_Ret _ _ _ _ _ Hfirst).
  rewrite (bind_Ret _ _ _ _ _ (fstatat_nofollow_run w2 dst)).
  destruct (probe_nofollow w2 dst) as [sb2|e2]; [reflexivity|].
  cbn [is_ok]. destruct (S_ISLNK (st_mode sb)); [reflexivity|].
  intros lp w4 Hlp. rewrite (bind_Ret _ _ _ _ _ Hlp).
  destruct lp as [lp|]; [reflexivity|].
  destruct (S_ISREG (st_mode sb)); reflexivity.
Qed.

(** The dispatcher on the sample tree: the symbolic link bin goes to
    [copy_symlink], and a name that the source does not hold is skipped
    with result 0. *)
Lemma C5_witness :
  let go nm w :=
    copy_entry false false false (copy_tree_impl false false false 2) 2
      (skel_entry nm) (newuser_entry nm) false ID_UNSET 1001 ID_UNSET 1001 w in
  let probed nm w := log (lstat_event (newuser_entry nm)) (log (lstat_event (skel_entry nm)) w) in
  (forall sb,
     probe_nofollow skel_walk (skel_entry "bin") = Ok sb ->
     go "bin" skel_walk =
       copy_symlink false (skel_entry "bin") (newuser_entry "bin") false sb
         (st_atim sb, st_mtim sb) ID_UNSET 1001 ID_UNSET 1001 (probed "bin" skel_walk)) /\
  go "missing" skel_walk = Ret 0 (log (lstat_event (skel_entry "missing")) skel_walk).
Proof.
  intros go probed. split.
  - intros sb Hsb.
    pose proof (C5_entry_dispatch false false false (copy_tree_impl false false false 2) 2
                  (skel_entry "bin") (newuser_entry "bin") false ID_UNSET 1001 ID_UNSET 1001
                  skel_walk) as H.
    cbv zeta in H. rewrite Hsb in H.
    assert (Hl : S_ISLNK (st_mode sb) = true) by (vm_compute in Hsb; injection Hsb as <-; reflexivity).
    assert (Hd : S_ISDIR (st_mode sb) = false) by (vm_compute in Hsb; injection Hsb as <-; reflexivity).
    rewrite Hd in H. specialize (H 0 _ eq_refl). rewrite Hl in H.
    exact H.
  - exact (C5_entry_dispatch false false false (copy_tree_impl false false false 2) 2
             (skel_entry "missing") (newuser_entry "missing") false
             ID_UNSET 1001 ID_UNSET 1001 skel_walk).
Defined.

(** ** Inversion of runs *)

Lemma syscall_ok_inv {A} ev (op : filesys -> result (A * filesys)) w a w' :
  syscall ev op w = Ret (Ok a) w' ->
  op (w_fs w) = Ok (a, w_fs w') /\ w' = set_fs (w_fs w') (log ev w).
Proof.
  unfold syscall. destruct (w_fault w _ ev); [discriminate|].
  destruct (op (w_fs w)) as [[a' fs']|e]; [|discriminate].
  intros [= <- <-]. auto.
Qed.

Lemma failed_false_inv {A} (call : M (result A)) w w' :
  failed call w = Ret false w' -> exists a, call w = Ret (Ok a) w'.
Proof.
  unfold failed. intros H. apply bind_Ret_inv in H as (r & w1 & Hc & [= Hr <-]).
  destruct r as [a|e]; [eauto|discriminate].
Qed.

Lemma orelse_false_inv (a b : M bool) w w' :
  orelse a b w = Ret false w' ->
  exists w1, a w = Ret false w1 /\ b w1 = Ret false w'.
Proof.
  unfold orelse. intros H. apply bind_Ret_inv in H as (x & w1 & Ha & Hb).
  destruct x; [discriminate|]. eauto.
Qed.

Lemma drop_id_inv (r : result (fileid * filesys)) u fs' :
  rbind r (fun r => Ok (tt, snd r)) = Ok (u, fs') -> exists id, r = Ok (id, fs').
Proof.
  destruct r as [[id fs1]|e]; simpl; [|discriminate]. intros [= _ <-]. eauto.
Qed.

(** An attribute set through a path: the file the path names has it
    afterwards, and the path still names that file. *)
Lemma path_update_inv fs dirfd path follow f u fs' :
  (forall i, i_body (f i) = i_body i) ->
  rbind (resolve fs dirfd path follow) (fun id => fs_update fs id f) = Ok (u, fs') ->
  exists id i,
    resolve fs dirfd path follow = Ok id /\
    fs_inodes fs !! id = Some i /\ fs_inodes fs' !! id = Some (f i) /\
    fs_ext fs fs' /\ resolve fs' dirfd path follow = Ok id.
Proof.
  intros Hf. destruct (resolve fs dirfd path follow) as [id|e] eqn:Hr; simpl; [|discriminate].
  intros Hu. pose proof (fs_update_ext _ _ _ _ _ Hf Hu) as E.
  destruct (fs_update_lookup _ _ _ _ _ Hu) as (i & Hi & Hi').
  exists id, i. split; [reflexivity|]. split; [exact Hi|]. split; [exact Hi'|].
  split; [exact E|]. eapply resolve_ext; eassumption.
Qed.

Lemma fchownat_ok_inv dirfd path uid gid w w' :
  fchownat dirfd path uid gid AT_SYMLINK_NOFOLLOW w = Ret (Ok tt) w' ->
  exists id i,
    resolve (w_fs w) dirfd path false = Ok id /\
    fs_inodes (w_fs w) !! id = Some i /\
    fs_inodes (w_fs w') !! id = Some (chown_inode uid gid i) /\
    fs_ext (w_fs w) (w_fs w') /\ resolve (w_fs w') dirfd path false = Ok id.
Proof.
  unfold fchownat. intros H. apply syscall_ok_inv in H as (H & _).
  unfold fs_fchownat in H. change (follows AT_SYMLINK_NOFOLLOW) with false in H.
  eapply path_update_inv in H; [exact H|reflexivity].
Qed.

Lemma utimensat_ok_inv dirfd path mt w w' :
  utimensat dirfd path mt AT_SYMLINK_NOFOLLOW w = Ret (Ok tt) w' ->
  exists id i,
    resolve (w_fs w) dirfd path false = Ok id /\
    fs_inodes (w_fs w) !! id = Some i /\
    fs_inodes (w_fs w') !! id = Some (set_times (fst mt) (snd mt) i) /\
    fs_ext (w_fs w) (w_fs w') /\ resolve (w_fs w') dirfd path false = Ok id /\
    w_trace w' = w_trace w ++ [EvUtimensat dirfd path mt AT_SYMLINK_NOFOLLOW].
Proof.
  unfold utimensat. intros H. pose proof H as H'. apply syscall_ok_inv in H as (H & _).
  apply syscall_inv in H' as (Htr & _).
  unfold fs_utimensat in H. change (follows AT_SYMLINK_NOFOLLOW) with false in H.
  eapply path_update_inv in H; [|reflexivity].
  destruct H as (id & i & H1 & H2 & H3 & H4 & H5). exists id, i. tauto.
Qed.

Lemma fchmodat_ok_inv dirfd path mode w w' :
  fchmodat dirfd path mode AT_SYMLINK_NOFOLLOW w = Ret (Ok tt) w' ->
  exists id i,
    resolve (w_fs w) dirfd path false = Ok id /\
    fs_inodes (w_fs w) !! id = Some i /\
    fs_inodes (w_fs w') !! id = Some (set_perm (Z.land mode PERM_MASK) i) /\
    fs_ext (w_fs w) (w_fs w') /\ resolve (w_fs w') dirfd path false = Ok id.
Proof.
  unfold fchmodat. intros H. apply syscall_ok_inv in H as (H & _).
  unfold fs_fchmodat in H. change (follows AT_SYMLINK_NOFOLLOW) with false in H.
  destruct (resolve (w_fs w) dirfd path false) as [id|e] eqn:Hr; simpl in H; [|discriminate].
  destruct (link_target (w_fs w) id); [discriminate|].
  assert (E : fs_ext (w_fs w) (w_fs w')) by (eapply fs_update_ext; [|exact H]; reflexivity).
  destruct (fs_update_lookup _ _ _ _ _ H) as (i & Hi & Hi').
  exists id, i. split; [reflexivity|]. split; [exact Hi|]. split; [exact Hi'|].
  split; [exact E|]. eapply resolve_ext; eassumption.
Qed.

Lemma areadlink_inv path w t w' :
  areadlink path w = Ret (Some t) w' ->
  fs_readlink (w_fs w) path = Ok t /\ w' = log (EvReadlink path) w.
Proof.
  unfold areadlink. intros H. apply bind_Ret_inv in H as (r & w1 & Hs & [= Hr <-]).
  apply syscall_keep_inv in Hs as (-> & ->).
  destruct (w_fault w _ _); [discriminate|].
  destruct (fs_readlink (w_fs w) path); [|discriminate]. injection Hr as ->. auto.
Qed.

(** ** Strings *)

Lemma prefix_append so rest : String.prefix so (so +:+ rest) = true.
Proof.
  induction so as [|ch so IH]; simpl.
  - destruct rest; reflexivity.
  - destruct (ascii_dec ch ch); [exact IH|congruence].
Qed.

Lemma str_offset_append so rest : str_offset (so +:+ rest) (strlen so) = rest.
Proof. induction so as [|ch so IH]; simpl; [reflexivity|exact IH]. Qed.

Lemma prefix_split so t :
  String.prefix so t = true -> t = so +:+ str_offset t (strlen so).
Proof.
  revert t. induction so as [|ch so IH]; intros t; simpl; [intros _; reflexivity|].
  destruct t as [|ch' t]; simpl; [discriminate|].
  destruct (ascii_dec ch ch') as [->|]; [|discriminate].
  intros H. change (String ch' t = String ch' (so +:+ str_offset t (strlen so))).
  f_equal. apply IH. exact H.
Qed.

(** ** Symbolic links *)

Lemma symlinkat_ok_inv target dirfd path w w' :
  symlinkat target dirfd path w = Ret (Ok tt) w' ->
  exists id i,
    resolve (w_fs w') dirfd path false = Ok id /\
    fs_inodes (w_fs w') !! id = Some i /\ i_body i = PLnk target.
Proof.
  unfold symlinkat. intros H. apply syscall_ok_inv in H as (H & _).
  apply drop_id_inv in H as (id & H). unfold fs_symlinkat in H.
  destruct (String.eqb target ""); [discriminate|].
  apply fs_create_resolve in H as (Hr & i & dd & Hi & Hb & _). eauto.
Qed.

Lemma link_target_lookup fs id i t :
  fs_inodes fs !! id = Some i -> i_body i = PLnk t -> link_target fs id = Some t.
Proof. unfold link_target. intros -> ->. reflexivity. Qed.

(** What a successful [copy_symlink] leaves: the link at the destination,
    with the target [copy_symlink] computed from the target read. *)
Lemma copy_symlink_ok S src dst rs statp mt a b c d w w' so do :
  src_orig w = Some so -> dst_orig w = Some do ->
  copy_symlink S src dst rs statp mt a b c d w = Ret 0 w' ->
  exists target id i,
    fs_readlink (w_fs w) (full_path src) = Ok target /\
    resolve (w_fs w') (dirfd dst) (name dst) false = Ok id /\
    fs_inodes (w_fs w') !! id = Some i /\
    i_body i = PLnk (if strprefix target so
                     then do +:+ str_offset target (strlen so) else target) /\
    i_atim i = fst mt /\ i_mtim i = snd mt /\
    exists tr, w_trace w' =
      tr ++ [EvUtimensat (dirfd dst) (name dst) mt AT_SYMLINK_NOFOLLOW].
Proof.
  intros Hso Hdo H. unfold copy_symlink in H.
  apply bind_Ret_inv in H as (so' & w1 & [= <- <-] & H).
  apply bind_Ret_inv in H as (do' & w1 & [= <- <-] & H).
  rewrite Hso, Hdo in H. simpl is_some in H.
  apply bind_Ret_inv in H as ([] & w1 & [= <-] & H).
  apply bind_Ret_inv in H as ([] & w1 & [= <-] & H).
  apply bind_Ret_inv in H as (oldlink & w1 & Hread & H).
  destruct oldlink as [target|]; [|discriminate].
  apply areadlink_inv in Hread as (Hread & ->). cbv zeta in H. simpl default in H.
  set (target' := if strprefix target so
                  then do +:+ str_offset target (strlen so) else target) in *.
  apply bind_Ret_inv in H as (sel & w2 & Hsel & H).
  destruct sel; [discriminate|].
  apply bind_Ret_inv in H as (bad & w3 & Hbad & H).
  destruct bad; [discriminate|].
  apply orelse_false_inv in Hbad as (w4 & Hsym & Hown).
  apply failed_false_inv in Hsym as ([] & Hsym).
  apply failed_false_inv in Hown as ([] & Hown).
  apply bind_Ret_inv in H as (u & w5 & Hut & H).
  destruct u as [[]|e]; [|discriminate]. injection H as <-.
  apply symlinkat_ok_inv in Hsym as (id & i & Hr4 & Hi4 & Hb4).
  unfold chownat_if_needed in Hown. cbv zeta in Hown.
  apply fchownat_ok_inv in Hown as (id3 & i3 & Hr3 & Hi3 & Hi3' & E3 & Hr3').
  assert (id3 = id) as -> by congruence.
  assert (i3 = i) as -> by congruence.
  apply utimensat_ok_inv in Hut as (id5 & i5 & Hr5 & Hi5 & Hi5' & E5 & Hr5' & Htr).
  assert (id5 = id) as -> by congruence.
  rewrite Hi3' in Hi5. injection Hi5 as <-.
  exists target, id. eexists. split; [exact Hread|]. split; [exact Hr5'|].
  split; [exact Hi5'|]. split; [exact Hb4|]. split; [reflexivity|].
  split; [reflexivity|]. eauto.
Qed.

(** C6: after a successful [copy_symlink] the destination names a symbolic
    link; if the target read from the source begins with the recorded
    source root, the new target is the recorded destination root followed
    by the rest of the old target, and if it does not, the new target is
    the old one. *)
Theorem C6_symlink_rewrite (S : bool) (src dst : path_info) (rs : bool) (statp : stat)
    (mt : timespec * timespec) (a b c d : Z) (w w' : world) (so do : string) :
  src_orig w = Some so -> dst_orig w = Some do ->
  copy_symlink S src dst rs statp mt a b c d w = Ret 0 w' ->
  exists target id,
    fs_readlink (w_fs w) (full_path src) = Ok target /\
    resolve (w_fs w') (dirfd dst) (name dst) false = Ok id /\
    (forall rest, target = so +:+ rest -> link_target (w_fs w') id = Some (do +:+ rest)) /\
    ((forall rest, target <> so +:+ rest) -> link_target (w_fs w') id = Some target).
Proof.
  intros Hso Hdo H.
  destruct (copy_symlink_ok _ _ _ _ _ _ _ _ _ _ _ _ _ _ Hso Hdo H)
    as (target & id & i & Hread & Hres & Hi & Hb & _).
  exists target, id. split; [exact Hread|]. split; [exact Hres|]. split.
  - intros rest ->. apply (link_target_lookup _ _ _ _ Hi). rewrite Hb.
    unfold strprefix. rewrite prefix_append, str_offset_append. reflexivity.
  - intros Hno. apply (link_target_lookup _ _ _ _ Hi). rewrite Hb.
    unfold strprefix. destruct (String.prefix so target) eqn:Hp; [|reflexivity].
    exfalso. exact (Hno _ (prefix_split _ _ Hp)).
Qed.

(** The sample tree: self -> /skel/a becomes /home/newuser/a. *)
Lemma C6_witness :
  exists target id,
    fs_readlink (w_fs skel_walk) "/skel/self" = Ok target /\
    resolve (w_fs c6_after) (FD (1, 4)) "self" false = Ok id /\
    (forall rest, target = "/skel" +:+ rest ->
       link_target (w_fs c6_after) id = Some ("/home/newuser" +:+ rest)) /\
    ((forall rest, target <> "/skel" +:+ rest) ->
       link_target (w_fs c6_after) id = Some target).
Proof.
  apply (C6_symlink_rewrite false (skel_entry "self") (newuser_entry "self") false
           self_stat (at_time 11, at_time 12) ID_UNSET 1001 ID_UNSET 1001
           skel_walk c6_after "/skel" "/home/newuser").
  - reflexivity.
  - reflexivity.
  - vm_compute. reflexivity.
Defined.

(** ** Timestamps are set last *)

(** Take a run that returned apart, step by step. *)
Ltac run_inv H :=
  repeat first
    [ apply bind_Ret_inv in H as (? & ? & ? & H); cbv beta in H
    | lazymatch type of H with
      | (match ?x with _ => _ end) _ = Ret _ _ =>
          destruct x eqn:?; try discriminate H; cbv beta iota in H
      end ].

Lemma utimensat_stamps dst mt w w' :
  utimensat (dirfd dst) (name dst) mt AT_SYMLINK_NOFOLLOW w = Ret (Ok tt) w' ->
  stamped w' dst mt.
Proof.
  intros H. apply utimensat_ok_inv in H as (id & i & _ & _ & Hi & _ & Hr & Htr).
  split; [|eauto]. unfold fs_stat, fs_inode. rewrite Hr. simpl. rewrite Hi. simpl.
  eexists. split; [reflexivity|]. split; reflexivity.
Qed.

(** The run ended with a successful [utimensat] on the destination. *)
Ltac stamps_finish H :=
  match goal with
  | Hu : utimensat _ _ _ _ ?w1 = Ret ?r _, E : is_ok ?r = true |- _ =>
      destruct r as [[]|]; [clear E|discriminate E]; apply utimensat_stamps in Hu
  | Hu : utimensat _ _ _ _ ?w1 = Ret ?r _, E : negb (is_ok ?r) = false |- _ =>
      destruct r as [[]|]; [clear E|discriminate E]; apply utimensat_stamps in Hu
  end;
  injection H as <-; assumption.

Lemma copy_symlink_stamps S src dst rs statp mt a b c d w w' :
  copy_symlink S src dst rs statp mt a b c d w = Ret 0 w' -> stamped w' dst mt.
Proof.
  intros H. unfold copy_symlink in H. run_inv H; try discriminate; stamps_finish H.
Qed.

Lemma copy_special_stamps S A X src dst rs statp mt a b c d w w' :
  copy_special S A X src dst rs statp mt a b c d w = Ret 0 w' -> stamped w' dst mt.
Proof.
  intros H. unfold copy_special in H. run_inv H; try discriminate; stamps_finish H.
Qed.

Lemma copy_file_stamps S A X fuel src dst rs statp mt a b c d w w' :
  copy_file S A X fuel src dst rs statp mt a b c d w = Ret 0 w' -> stamped w' dst mt.
Proof.
  intros H. unfold copy_file in H. run_inv H; try discriminate;
    [injection H as -> _; discriminate|stamps_finish H].
Qed.

(** ** The directory strategy *)

(** An entry that is not there cannot be probed, whatever the environment
    says. *)
Lemma lstat_in_probe w w' dst :
  lstat_in w dst = None -> w_fs w' = w_fs w -> exists e, probe_nofollow w' dst = Err e.
Proof.
  unfold lstat_in, probe_nofollow. intros H ->. destruct (w_fault w' _ _); [eauto|].
  destruct (fs_stat (w_fs w) (dirfd dst) (name dst) false); [discriminate|eauto].
Qed.

(** A successful [copy_dir] either found a directory at the destination
    and ran the walk into it, or made the directory, set owner and mode,
    copied ACL and extended attributes, ran the walk, and set the times,
    in this order. *)
Lemma copy_dir_ok_inv S A X rec src dst rs statp mt a b c d w w' :
  copy_dir S A X rec src dst rs statp mt a b c d w = Ret 0 w' ->
  dir_copied S A X rec src dst rs statp mt a b c d w w'.
Proof.
  intros H. unfold dir_copied. unfold copy_dir in H.
  apply bind_Ret_inv in H as (sel & w0 & Hsel & H).
  destruct sel; [discriminate|]. exists w0. split; [exact Hsel|].
  rewrite (bind_Ret _ _ _ _ _ (fstatat_nofollow_run w0 dst)) in H.
  destruct (match probe_nofollow w0 dst with
            | Ok sb => S_ISDIR (st_mode sb)
            | Err _ => false
            end) eqn:Hdir.
  - left. destruct (probe_nofollow w0 dst) as [sb'|]; [|discriminate].
    exists sb'. split; [reflexivity|]. split; [exact Hdir|].
    apply bind_Ret_inv in H as (r & w1 & Hrec & H).
    destruct (Z.eqb_spec r 0) as [->|]; [|discriminate]. injection H as <-. exact Hrec.
  - right. split.
    { intros sb' Hp. rewrite Hp in Hdir. exact Hdir. }
    apply bind_Ret_inv in H as (bad & wl & Hbad & H).
    destruct bad; [discriminate|]. injection H as <-.
    apply orelse_false_inv in Hbad as (wr & Hbad & Hut).
    apply orelse_false_inv in Hbad as (wp & Hbad & Hrec).
    apply orelse_false_inv in Hbad as (w4 & Hbad & Hattr).
    apply orelse_false_inv in Hbad as (w3 & Hbad & Hacl).
    apply orelse_false_inv in Hbad as (w2 & Hbad & Hmod).
    apply orelse_false_inv in Hbad as (w1 & Hmk & Hown).
    apply failed_false_inv in Hmk as ([] & Hmk).
    apply failed_false_inv in Hown as ([] & Hown).
    apply failed_false_inv in Hmod as ([] & Hmod).
    apply failed_false_inv in Hut as ([] & Hut).
    apply bind_Ret_inv in Hrec as (r & wr' & Hrec & Hr).
    destruct (Z.eqb_spec r 0) as [->|]; [|discriminate]. injection Hr as ->.
    exists w1, w2, w3, w4, wp, wr. tauto.
Qed.

Lemma modes_kept_refl fs : modes_kept fs fs.
Proof. split; [apply fs_ext_refl|]. intros id i Hi. eauto. Qed.

Lemma modes_kept_trans fs1 fs2 fs3 :
  modes_kept fs1 fs2 -> modes_kept fs2 fs3 -> modes_kept fs1 fs3.
Proof.
  intros [E1 M1] [E2 M2]. split; [eapply fs_ext_trans; eassumption|].
  intros id i Hi. destruct (M1 id i Hi) as (i2 & Hi2 & Hm2).
  destruct (M2 id i2 Hi2) as (i3 & Hi3 & Hm3). exists i3. split; [exact Hi3|congruence].
Qed.

Lemma world_modes_kept_refl w : world_modes_kept w w.
Proof. apply modes_kept_refl. Qed.

Lemma world_modes_kept_trans w1 w2 w3 :
  world_modes_kept w1 w2 -> world_modes_kept w2 w3 -> world_modes_kept w1 w3.
Proof. apply modes_kept_trans. Qed.

Lemma fs_update_modes fs id f u fs' :
  (forall i, i_body (f i) = i_body i) -> (forall i, i_perm (f i) = i_perm i) ->
  fs_update fs id f = Ok (u, fs') -> modes_kept fs fs'.
Proof.
  intros Hb Hp H. split; [eapply fs_update_ext; eassumption|].
  destruct u. apply fs_update_inv in H as (i0 & Hi0 & ->). simpl.
  intros id' i Hi. rewrite lookup_alter. destruct (decide (id = id')) as [->|].
  - rewrite Hi. simpl. eexists. split; [reflexivity|].
    unfold stat_of. simpl. rewrite Hb, Hp. reflexivity.
  - eauto.
Qed.

Lemma keeps_modes_syscall {A} ev (op : filesys -> result (A * filesys)) :
  (forall fs a fs', op fs = Ok (a, fs') -> modes_kept fs fs') ->
  keeps world_modes_kept (syscall ev op).
Proof.
  intros Hop w r w' H. apply syscall_inv in H as (_ & _ & _ & _ & _ & Hr).
  unfold world_modes_kept. destruct Hr as [(e & _ & ->)|(a & _ & _ & Ho)].
  - apply modes_kept_refl.
  - eapply Hop. exact Ho.
Qed.

Lemma keeps_modes_log ev : keeps world_modes_kept (modify (log ev)).
Proof. apply keeps_modify. intros w. apply modes_kept_refl. Qed.

Lemma keeps_modes_open_existing dirfd path :
  keeps world_modes_kept
    (openat dirfd path (Z.lor (Z.lor (Z.lor O_RDONLY O_NOFOLLOW) O_NONBLOCK) O_CLOEXEC) 0).
Proof.
  unfold openat. apply keeps_modes_syscall. intros fs a fs'.
  change (has_flag _ O_CREAT && has_flag _ O_EXCL) with false. cbv iota.
  unfold keep. destruct (fs_open fs dirfd path _ _); simpl; [|discriminate].
  intros [= _ <-]. apply modes_kept_refl.
Qed.

Lemma keeps_modes_close f : keeps world_modes_kept (close f).
Proof.
  unfold close. apply keeps_modes_syscall. intros fs a fs' [= _ <-].
  apply modes_kept_refl.
Qed.

Lemma keeps_modes_attr_copy_fd s d : keeps world_modes_kept (attr_copy_fd s d).
Proof.
  unfold attr_copy_fd. apply (keeps_bind _ world_modes_kept_trans).
  - apply keeps_modes_syscall. intros fs a fs'. unfold fs_attr_copy.
    destruct (fs_inode fs s); simpl; [|discriminate].
    apply fs_update_modes; reflexivity.
  - intros [u|e]; [apply (keeps_ret _ world_modes_kept_refl)|].
    apply (keeps_bind _ world_modes_kept_trans);
      [|intros ?; apply (keeps_ret _ world_modes_kept_refl)].
    unfold error_acl. destruct (decide (ENOTSUP = e));
      [apply (keeps_ret _ world_modes_kept_refl)|].
    apply (keeps_bind _ world_modes_kept_trans);
      [apply keeps_modes_log|intros ?; apply (keeps_ret _ world_modes_kept_refl)].
Qed.

Lemma keeps_modes_attr_step X rs src dst :
  keeps world_modes_kept (attr_step X rs src dst).
Proof.
  unfold attr_step. destruct (X && negb rs); [|apply (keeps_ret _ world_modes_kept_refl)].
  unfold failed_with_errno, attr_copy_path, copy_path.
  repeat first
    [ apply keeps_modes_open_existing | apply keeps_modes_close
    | apply keeps_modes_attr_copy_fd
    | lazymatch goal with
      | |- keeps _ (mbind _ _) => apply (keeps_bind _ world_modes_kept_trans); [|intros ?]
      | |- keeps _ (mret _) => apply (keeps_ret _ world_modes_kept_refl)
      | |- keeps _ (match ?x with _ => _ end) => destruct x
      end ].
Qed.

(** Bits of [st_mode]. *)
Lemma ftype_bits_perm b : Z.land (ftype_bits b) PERM_MASK = 0.
Proof.
  destruct b as [| | |[]]; reflexivity.
Qed.

Lemma stat_mode_perm id i :
  Z.land (st_mode (stat_of id i)) PERM_MASK = Z.land (i_perm i) PERM_MASK.
Proof.
  simpl. rewrite Z.land_lor_distr_l, ftype_bits_perm, Z.lor_0_l, <- Z.land_assoc.
  reflexivity.
Qed.

Lemma selinux_step_inv S path ftype w b w' :
  selinux_step S path ftype w = Ret b w' ->
  w_fs w' = w_fs w /\ w_fault w' = w_fault w /\ links w' = links w /\
  src_orig w' = src_orig w /\ dst_orig w' = dst_orig w /\
  w_trace w' = w_trace w ++ (if S then [EvSetSelinux path ftype] else []).
Proof.
  unfold selinux_step. destruct S.
  - unfold failed, set_selinux_file_context. intros H.
    apply bind_Ret_inv in H as (r & w1 & Hs & [= _ <-]).
    rewrite syscall_id_run in Hs. injection Hs as _ <-. repeat split; reflexivity.
  - intros [= _ <-]. rewrite app_nil_r. repeat split; reflexivity.
Qed.

Lemma syscall_trace {A} ev (op : filesys -> result (A * filesys)) w r w' :
  syscall ev op w = Ret r w' -> w_trace w' = w_trace w ++ [ev].
Proof. intros H. apply syscall_inv in H. tauto. Qed.

Lemma chownat_if_needed_eq dst statp old_uid new_uid old_gid new_gid :
  chownat_if_needed dst statp old_uid new_uid old_gid new_gid =
  fchownat (dirfd dst) (name dst)
    (remap_spec old_uid new_uid (st_uid statp))
    (remap_spec old_gid new_gid (st_gid statp)) AT_SYMLINK_NOFOLLOW.
Proof.
  unfold chownat_if_needed. cbv zeta.
  pose proof (remap_chain old_uid new_uid (st_uid statp)) as Hu.
  pose proof (remap_chain old_gid new_gid (st_gid statp)) as Hg.
  cbv zeta in Hu, Hg. rewrite Hu, Hg. reflexivity.
Qed.

Lemma mkdirat_ok_inv dirfd path mode w w' :
  mkdirat dirfd path mode w = Ret (Ok tt) w' ->
  exists id i,
    resolve (w_fs w') dirfd path false = Ok id /\
    fs_inodes (w_fs w') !! id = Some i /\
    is_dir_body (i_body i) = true /\ i_perm i = Z.land mode PERM_MASK.
Proof.
  unfold mkdirat. intros H. apply syscall_ok_inv in H as (H & _).
  apply drop_id_inv in H as (id & H). unfold fs_mkdirat in H.
  apply fs_create_resolve in H as (Hr & i & dd & Hi & Hb & Hp).
  exists id, i. rewrite Hb. auto.
Qed.

Lemma perm_in_lookup w p id i :
  resolve (w_fs w) (dirfd p) (name p) false = Ok id ->
  fs_inodes (w_fs w) !! id = Some i ->
  perm_in w p = Some (Z.land (i_perm i) PERM_MASK).
Proof.
  unfold perm_in, fs_stat, fs_inode. intros -> Hi. simpl. rewrite Hi. simpl rbind.
  cbv iota. rewrite stat_mode_perm. reflexivity.
Qed.

Lemma perm_in_modes_kept w w' p perm :
  world_modes_kept w w' -> perm_in w p = Some perm -> perm_in w' p = Some perm.
Proof.
  intros [E Hm]. unfold perm_in, fs_stat, fs_inode.
  destruct (resolve (w_fs w) (dirfd p) (name p) false) as [id|] eqn:Hr; [|discriminate].
  rewrite (resolve_ext _ _ _ _ _ _ E Hr). simpl.
  destruct (fs_inodes (w_fs w) !! id) as [i|] eqn:Hi; [|discriminate].
  destruct (Hm id i Hi) as (i' & -> & Hmode). cbn [rbind].
  rewrite Hmode. auto.
Qed.

(** C3, amended: when the destination is not there yet, a successful
    [copy_dir] has made the directory with mode 0700, then set the owner,
    then the permission bits of the source ([st_mode & 07777]), then
    copied ACL and extended attributes, then run the walk over the
    children, and set the times last.  From the moment the mode is set the
    directory has the source's permission bits, and (without the ACL copy,
    which may change them again) it has them when the walk over the
    children starts. *)
Theorem C3_directory_strategy_order (S A X : bool) (rec : tree_copier)
    (src dst : path_info) (rs : bool) (statp : stat) (mt : timespec * timespec)
    (a b c d : Z) (w w' : world) :
  lstat_in w dst = None ->
  copy_dir S A X rec src dst rs statp mt a b c d w = Ret 0 w' ->
  exists w1 w3 w4 wp wr,
    w_trace w1 = w_trace w ++ (if S then [EvSetSelinux (full_path dst) S_IFDIR] else [])
                   ++ [lstat_event dst; EvMkdirat (dirfd dst) (name dst) MODE_0700] /\
    perm_in w1 dst = Some MODE_0700 /\
    w_trace w3 = w_trace w1
                   ++ [EvFchownat (dirfd dst) (name dst)
                         (remap_spec a b (st_uid statp)) (remap_spec c d (st_gid statp))
                         AT_SYMLINK_NOFOLLOW;
                       EvFchmodat (dirfd dst) (name dst)
                         (Z.land (st_mode statp) PERM_MASK) AT_SYMLINK_NOFOLLOW] /\
    perm_in w3 dst = Some (Z.land (st_mode statp) PERM_MASK) /\
    acl_step A src dst w3 = Ret false w4 /\
    attr_step X rs src dst w4 = Ret false wp /\
    (A = false -> perm_in wp dst = Some (Z.land (st_mode statp) PERM_MASK)) /\
    rec src dst false rs a b c d wp = Ret 0 wr /\
    utimensat (dirfd dst) (name dst) mt AT_SYMLINK_NOFOLLOW wr = Ret (Ok tt) w' /\
    stamped w' dst mt.
Proof.
  intros Hnew H. apply copy_dir_ok_inv in H as (w0 & Hsel & H).
  apply selinux_step_inv in Hsel as (Hfs0 & Hf0 & _ & _ & _ & Htr0).
  destruct H as [(sb' & Hp & _)|(_ & w1 & w2 & w3 & w4 & wp & wr & Hmk & Hown & Hmod &
                                   Hacl & Hattr & Hrec & Hut)].
  { exfalso. destruct (lstat_in_probe w w0 dst Hnew Hfs0) as (e & He). congruence. }
  exists w1, w3, w4, wp, wr.
  pose proof (syscall_trace _ _ _ _ _ Hmk) as Htr1.
  apply mkdirat_ok_inv in Hmk as (id & i & Hr1 & Hi1 & _ & Hperm1).
  rewrite chownat_if_needed_eq in Hown.
  pose proof (syscall_trace _ _ _ _ _ Hown) as Htr2.
  apply fchownat_ok_inv in Hown as (id2 & i2 & Hr2 & Hi2 & Hi2' & _ & Hr2').
  pose proof (syscall_trace _ _ _ _ _ Hmod) as Htr3.
  apply fchmodat_ok_inv in Hmod as (id3 & i3 & Hr3 & Hi3 & Hi3' & _ & Hr3').
  split.
  { rewrite Htr1. simpl. rewrite Htr0, <- !app_assoc. reflexivity. }
  split.
  { rewrite (perm_in_lookup _ _ _ _ Hr1 Hi1), Hperm1, <- Z.land_assoc. reflexivity. }
  split.
  { rewrite Htr3, Htr2, <- app_assoc. reflexivity. }
  assert (Hp3 : perm_in w3 dst = Some (Z.land (st_mode statp) PERM_MASK)).
  { rewrite (perm_in_lookup _ _ _ _ Hr3' Hi3'). simpl.
    rewrite <- !Z.land_assoc. reflexivity. }
  split; [exact Hp3|]. split; [exact Hacl|]. split; [exact Hattr|].
  split.
  { intros ->. injection Hacl as <-.
    apply (perm_in_modes_kept w3 wp); [|exact Hp3].
    exact (keeps_modes_attr_step X rs src dst w3 false wp Hattr). }
  split; [exact Hrec|]. split; [exact Hut|].
  exact (utimensat_stamps _ _ _ _ Hut).
Qed.

Lemma C3_witness :
  let dst := newuser_entry "sub" in
  exists w1 w3 w4 wp wr,
    w_trace w1 = w_trace skel_walk ++ []
                   ++ [lstat_event dst; EvMkdirat (dirfd dst) (name dst) MODE_0700] /\
    perm_in w1 dst = Some MODE_0700 /\
    w_trace w3 = w_trace w1
                   ++ [EvFchownat (dirfd dst) (name dst)
                         (remap_spec ID_UNSET 1001 (st_uid sub_stat))
                         (remap_spec ID_UNSET 1001 (st_gid sub_stat)) AT_SYMLINK_NOFOLLOW;
                       EvFchmodat (dirfd dst) (name dst)
                         (Z.land (st_mode sub_stat) PERM_MASK) AT_SYMLINK_NOFOLLOW] /\
    perm_in w3 dst = Some (Z.land (st_mode sub_stat) PERM_MASK) /\
    acl_step false (skel_entry "sub") dst w3 = Ret false w4 /\
    attr_step false false (skel_entry "sub") dst w4 = Ret false wp /\
    (false = false -> perm_in wp dst = Some (Z.land (st_mode sub_stat) PERM_MASK)) /\
    copy_tree_impl false false false 3 (skel_entry "sub") dst false false
      ID_UNSET 1001 ID_UNSET 1001 wp = Ret 0 wr /\
    utimensat (dirfd dst) (name dst) (at_time 13, at_time 14) AT_SYMLINK_NOFOLLOW wr
      = Ret (Ok tt) c3_after /\
    stamped c3_after dst (at_time 13, at_time 14).
Proof.
  apply (C3_directory_strategy_order false false false
           (copy_tree_impl false false false 3) (skel_entry "sub") (newuser_entry "sub")
           false sub_stat (at_time 13, at_time 14) ID_UNSET 1001 ID_UNSET 1001
           skel_walk c3_after).
  - vm_compute. reflexivity.
  - vm_compute. reflexivity.
Defined.

(** C3 as it is stated fails: /skel/sub has mode 0555, the copy of it
    succeeds, its file f is copied, and when the walk over its children
    starts, the new directory is not writable by its owner. *)
Lemma C3_not_writable_during_population :
  let run := copy_dir false false false (observed_walk 3)
               (skel_entry "sub") (newuser_entry "sub") false sub_stat
               (at_time 13, at_time 14) ID_UNSET 1001 ID_UNSET 1001 skel_walk in
  lstat_in skel_walk (newuser_entry "sub") = None /\
  owner_writable (Z.land (st_mode sub_stat) PERM_MASK) = false /\
  result_of run = Some 0 /\
  is_some (lstat_after run "/home/newuser/sub/f") = true /\
  (w_trace <$> state_of run) =
    Some [ lstat_event (newuser_entry "sub");
           EvMkdirat (FD (1, 4)) "sub" MODE_0700;
           EvFchownat (FD (1, 4)) "sub" 1001 1001 AT_SYMLINK_NOFOLLOW;
           EvFchmodat (FD (1, 4)) "sub" 0x16D AT_SYMLINK_NOFOLLOW;
           EvLog "not owner-writable";
           EvOpenat (FD (1, 2)) "sub" OPEN_DIR_FLAGS 0;
           EvOpenat (FD (1, 4)) "sub" OPEN_DIR_FLAGS 0;
           EvFdopendir (1, 14);
           EvReaddir (1, 14); EvReaddir (1, 14); EvReaddir (1, 14);
           EvAprintf "/skel/sub/f"; EvAprintf "/home/newuser/sub/f";
           EvFstatat (FD (1, 14)) "f" AT_SYMLINK_NOFOLLOW;
           EvFstatat (FD (1, 100)) "f" AT_SYMLINK_NOFOLLOW;
           EvOpenat (FD (1, 14)) "f" 0xA0000 0;
           EvOpenat (FD (1, 100)) "f" 0xA02C1 MODE_0600;
           EvFchown (1, 101) 1001 1001;
           EvFchmod (1, 101) 0x124;
           EvRead (1, 15) 0;
           EvClose (1, 15); EvClose (1, 101);
           EvUtimensat (FD (1, 100)) "f" (at_time 15, at_time 16) AT_SYMLINK_NOFOLLOW;
           EvReaddir (1, 14);
           EvClosedir (1, 14); EvClose (1, 100);
           EvUtimensat (FD (1, 4)) "sub" (at_time 13, at_time 14) AT_SYMLINK_NOFOLLOW ].
Proof.
  split; [vm_compute; reflexivity|]. split; [vm_compute; reflexivity|].
  split; [vm_compute; reflexivity|]. split; [vm_compute; reflexivity|].
  vm_compute. reflexivity.
Qed.

(** ** Strategies that cannot succeed *)

Lemma isdir_not_lnk m : S_ISDIR m = true -> S_ISLNK m = false.
Proof.
  unfold S_ISDIR, S_ISLNK. intros H. apply Z.eqb_eq in H. rewrite H. reflexivity.
Qed.

Lemma isdir_not_reg m : S_ISDIR m = true -> S_ISREG m = false.
Proof.
  unfold S_ISDIR, S_ISREG. intros H. apply Z.eqb_eq in H. rewrite H. reflexivity.
Qed.

Lemma check_link_inv nm sb w lp w' :
  check_link nm sb w = Ret lp w' ->
  w_fs w' = w_fs w /\ w_fault w' = w_fault w /\ w_trace w' = w_trace w /\
  (find_link (links w) sb = None -> lp = None).
Proof.
  unfold check_link, mbind, M_bind, get, assert, modify, mret, M_ret.
  destruct (is_some (src_orig w)); [|discriminate].
  destruct (is_some (dst_orig w)); [|discriminate].
  destruct (find_link (links w) sb) as [n|].
  - intros [= <- <-]. repeat split; auto; discriminate.
  - destruct (st_nlink sb =? 1); intros [= <- <-]; repeat split; auto.
Qed.

(** No link can be made where a name is taken. *)
Lemma fs_linkat_existing fs olddirfd oldpath dirfd path follow id :
  resolve fs dirfd path false = Ok id ->
  exists e, fs_linkat fs olddirfd oldpath dirfd path follow = Err e.
Proof.
  intros Hr. unfold fs_linkat.
  destruct (resolve fs olddirfd oldpath follow) as [oid|e]; simpl; [|eauto].
  destruct (fs_inode fs oid) as [i|e]; simpl; [|eauto].
  destruct (is_dir_body (i_body i)); [eauto|].
  destruct (resolve_parent_of_resolved _ _ _ _ Hr)
    as [->|(dd & last & es & x & Hp & He & Hl & _)]; simpl; [eauto|].
  rewrite Hp. simpl. rewrite He. simpl.
  destruct (negb (fst dd =? fst oid)); [eauto|]. rewrite Hl. eauto.
Qed.

Lemma copy_hardlink_existing dst rs lp w r w' id :
  resolve (w_fs w) (dirfd dst) (name dst) false = Ok id ->
  copy_hardlink dst rs lp w = Ret r w' -> r = -1.
Proof.
  intros Hr H. unfold copy_hardlink in H.
  apply bind_Ret_inv in H as (l & w0 & [= <- <-] & H).
  destruct (links w !! lp) as [node|]; [|discriminate].
  apply bind_Ret_inv in H as (res & w1 & Hl & H).
  destruct res as [u|e]; [|injection H as <-; reflexivity].
  exfalso. unfold linkat in Hl. destruct u. apply syscall_ok_inv in Hl as (Hl & _).
  destruct (fs_linkat_existing (w_fs w) AT_FDCWD (ln_name node) _ _
              (has_flag 0 AT_SYMLINK_FOLLOW) _ Hr) as (e & He).
  rewrite He in Hl. discriminate.
Qed.

(** [mknodat] makes no directory. *)
Lemma fs_mknodat_dir fs dirfd path m dev :
  S_ISDIR m = true ->
  fs_mknodat fs dirfd path (Z.land m (wrap mode_t_bits (Z.lnot PERM_MASK))) dev = Err EPERM.
Proof.
  unfold S_ISDIR, fs_mknodat. intros H. apply Z.eqb_eq in H.
  rewrite <- Z.land_assoc.
  change (Z.land (wrap mode_t_bits (Z.lnot PERM_MASK)) S_IFMT) with S_IFMT.
  rewrite H. reflexivity.
Qed.

Lemma copy_special_dir S A X src dst rs statp mt a b c d w r w' :
  S_ISDIR (st_mode statp) = true ->
  copy_special S A X src dst rs statp mt a b c d w = Ret r w' -> r = -1.
Proof.
  intros Hd H. unfold copy_special in H.
  apply bind_Ret_inv in H as (sel & w0 & _ & H).
  destruct sel; [injection H as <-; reflexivity|].
  apply bind_Ret_inv in H as (res & w1 & Hm & H).
  destruct res as [u|e]; [|injection H as <-; reflexivity].
  exfalso. unfold mknodat in Hm. destruct u. apply syscall_ok_inv in Hm as (Hm & _).
  rewrite (fs_mknodat_dir _ _ _ _ _ Hd) in Hm. discriminate.
Qed.

Lemma orelse_assoc_run (x y z : M bool) w :
  orelse (orelse x y) z w = orelse x (orelse y z) w.
Proof.
  unfold orelse, mbind, M_bind. destruct (x w) as [[|] w1| |]; try reflexivity.
Qed.

Lemma orelse_inv (x y : M bool) w r w' :
  orelse x y w = Ret r w' ->
  (r = true /\ x w = Ret true w') \/ (exists w1, x w = Ret false w1 /\ y w1 = Ret r w').
Proof.
  unfold orelse. intros H. apply bind_Ret_inv in H as (v & w1 & Hx & H).
  destruct v; [injection H as <- <-; auto|eauto].
Qed.

(** Whatever [copy_dir] returns on a destination that is not there: either
    it has left the files and the registry alone, or the destination is
    there now. *)
Lemma copy_dir_any_inv S A X fuel src dst rs statp mt a b c d w err w' :
  lstat_in w dst = None ->
  copy_dir S A X (copy_tree_impl S A X fuel) src dst rs statp mt a b c d w = Ret err w' ->
  w_fault w' = w_fault w /\
  ((w_fs w' = w_fs w /\ links w' = links w /\
    src_orig w' = src_orig w /\ dst_orig w' = dst_orig w) \/
   exists id, resolve (w_fs w') (dirfd dst) (name dst) false = Ok id).
Proof.
  intros Hnew H. split.
  { pose proof (keeps_copy_dir S A X _ (keeps_copy_tree_impl S A X fuel)
                  src dst rs statp mt a b c d _ _ _ H) as (_ & Hf & _). exact Hf. }
  unfold copy_dir in H.
  apply bind_Ret_inv in H as (sel & w0 & Hsel & H).
  apply (selinux_step_inv S) in Hsel as (Hfs0 & Hf0 & Hl0 & Hso0 & Hdo0 & _).
  destruct sel; [injection H as _ <-; left; auto|].
  rewrite (bind_Ret _ _ _ _ _ (fstatat_nofollow_run w0 dst)) in H.
  destruct (lstat_in_probe w w0 dst Hnew Hfs0) as (e & Hp). rewrite Hp in H. cbv iota in H.
  apply bind_Ret_inv in H as (bad & wl & Hbad & [= _ <-]).
  rewrite !orelse_assoc_run in Hbad.
  apply orelse_inv in Hbad as [(_ & Hmk)|(w1 & Hmk & Hrest)].
  - apply bind_Ret_inv in Hmk as (res & wm & Hmk & [= Hres <-]).
    destruct res as [u|e']; [discriminate|].
    apply syscall_inv in Hmk as (_ & Hl & Hso & Hdo & _ & [(? & _ & Hfs)|(? & ? & _)]);
      [|congruence].
    left; simpl in *; repeat split; congruence.
  - right. apply failed_false_inv in Hmk as ([] & Hmk).
    apply mkdirat_ok_inv in Hmk as (id & i & Hr & _).
    exists id. eapply resolve_ext; [|exact Hr].
    refine (proj1 ((_ : keeps world_ext _) w1 bad wl Hrest)).
    pose proof (keeps_copy_tree_impl S A X fuel). keeps_all.
Qed.

(** C7, amended: when [copy_entry] returns 0 for an entry whose
    destination was not there and which is not in the hardlink registry
    (a symbolic link is never looked up), the destination is there and its
    access and modification times are those of the source at the time of
    the probe: the directory (when it makes the directory), symbolic-link,
    special-file and regular-file strategies set the times with their last
    call.  (The hardlink strategy sets no times, and a directory merged
    into an existing one keeps its own.) *)
Theorem C7_timestamps_from_probe (S A X : bool) (fuel' fuel : nat)
    (src dst : path_info) (rs : bool) (a b c d : Z) (w w' : world) (sb : stat) :
  probe_nofollow w src = Ok sb ->
  lstat_in w dst = None ->
  S_ISLNK (st_mode sb) = true \/ find_link (links w) sb = None ->
  copy_entry S A X (copy_tree_impl S A X fuel') fuel src dst rs a b c d w = Ret 0 w' ->
  (exists sb', fs_stat (w_fs w') (dirfd dst) (name dst) false = Ok sb' /\
               st_atim sb' = st_atim sb /\ st_mtim sb' = st_mtim sb) /\
  exists tr,
    w_trace w' =
      tr ++ [EvUtimensat (dirfd dst) (name dst) (st_atim sb, st_mtim sb) AT_SYMLINK_NOFOLLOW]
         ++ (if S_ISDIR (st_mode sb) then [lstat_event dst] else []).
Proof.
  intros Hsrc Hnew Hreg H. unfold copy_entry in H.
  rewrite (bind_Ret _ _ _ _ _ (fstatat_nofollow_run w src)), Hsrc in H.
  cbv zeta in H. set (mt := (st_atim sb, st_mtim sb)) in *.
  apply bind_Ret_inv in H as (err & w2 & Hfirst & H).
  rewrite (bind_Ret _ _ _ _ _ (fstatat_nofollow_run w2 dst)) in H.
  destruct (S_ISDIR (st_mode sb)) eqn:Hdir.
  - (* a directory *)
    assert (Hnew1 : lstat_in (log (lstat_event src) w) dst = None) by exact Hnew.
    destruct (copy_dir_any_inv _ _ _ _ _ _ _ _ _ _ _ _ _ _ _ _ Hnew1 Hfirst)
      as (Hfault & Hcases).
    destruct (probe_nofollow w2 dst) as [sb2|e2] eqn:Hp2; cbn [is_ok] in H.
    + injection H as -> <-.
      apply copy_dir_ok_inv in Hfirst as (w0 & Hsel & Hfirst).
      apply selinux_step_inv in Hsel as (Hfs0 & Hf0 & _).
      destruct Hfirst as [(sb' & Hp & _)|(_ & w1 & w2' & w3 & w4 & wp & wr & _ & _ & _ &
                                            _ & _ & _ & Hut)].
      * exfalso. destruct (lstat_in_probe _ w0 _ Hnew1 Hfs0) as (e & He). congruence.
      * apply utimensat_stamps in Hut as [Hst (tr & Htr)]. split; [exact Hst|].
        exists tr. simpl. rewrite Htr, <- app_assoc. reflexivity.
    + exfalso. rewrite (isdir_not_lnk _ Hdir) in H.
      apply bind_Ret_inv in H as (lp & w4 & Hlp & H).
      apply check_link_inv in Hlp as (Hfs4 & _ & _ & Hnone).
      destruct Hcases as [(Hfs2 & Hl2 & _)|(id & Hid)].
      * destruct Hreg as [Hl|Hl]; [rewrite (isdir_not_lnk _ Hdir) in Hl; discriminate|].
        simpl in Hnone. rewrite Hl2 in Hnone. rewrite (Hnone Hl) in H.
        rewrite (isdir_not_reg _ Hdir) in H. simpl in H.
        apply copy_special_dir in H; [discriminate|exact Hdir].
      * destruct lp as [lp|].
        -- eapply copy_hardlink_existing in H; [discriminate|].
           rewrite Hfs4. exact Hid.
        -- rewrite (isdir_not_reg _ Hdir) in H. simpl in H.
           apply copy_special_dir in H; [discriminate|exact Hdir].
  - (* not a directory *)
    injection Hfirst as <- <-.
    destruct (lstat_in_probe w (log (lstat_event src) w) dst Hnew eq_refl) as (e & He).
    rewrite He in H. cbn [is_ok] in H.
    rewrite app_nil_r.
    destruct (S_ISLNK (st_mode sb)) eqn:Hlnk.
    + apply copy_symlink_stamps in H as [Hst Htr]. auto.
    + destruct Hreg as [Hl|Hl]; [discriminate|].
      apply bind_Ret_inv in H as (lp & w4 & Hlp & H).
      apply check_link_inv in Hlp as (_ & _ & _ & Hnone).
      rewrite (Hnone Hl) in H.
      destruct (S_ISREG (st_mode sb)); simpl in H.
      * apply copy_file_stamps in H as [Hst Htr]. auto.
      * apply copy_special_stamps in H as [Hst Htr]. auto.
Qed.

Lemma C7_witness :
  (exists sb', fs_stat (w_fs c7_after) (FD (1, 4)) ".bashrc" false = Ok sb' /\
               st_atim sb' = st_atim bashrc_stat /\ st_mtim sb' = st_mtim bashrc_stat) /\
  exists tr,
    w_trace c7_after =
      tr ++ [EvUtimensat (FD (1, 4)) ".bashrc" (st_atim bashrc_stat, st_mtim bashrc_stat)
               AT_SYMLINK_NOFOLLOW] ++ [].
Proof.
  apply (C7_timestamps_from_probe false false false 3 3 (skel_entry ".bashrc")
           (newuser_entry ".bashrc") false ID_UNSET 1001 ID_UNSET 1001
           skel_walk c7_after bashrc_stat).
  - vm_compute. reflexivity.
  - vm_compute. reflexivity.
  - right. reflexivity.
  - vm_compute. reflexivity.
Defined.

(** C7 as it is stated fails.  A directory copied into a directory that is
    already there is handled with result 0, and the destination does not
    get the times of the source (here 13 and 14): the directory strategy
    sets no times on this path.  And in a copy of the whole sample tree the
    second name b of the file a is made by the hardlink strategy, which
    never calls [utimensat] on it. *)
Lemma C7_strategies_without_timestamps :
  let merged := sample_copy_entry "sub" merge_world in
  let whole := copy_tree false false false 5 "/skel" "/home/newuser" false false
                 ID_UNSET 1001 ID_UNSET 1001 skel_world in
  (result_of merged = Some 0 /\
   (st_atim <$> lstat_in skel_walk (skel_entry "sub")) = Some (at_time 13) /\
   (st_mtim <$> lstat_in skel_walk (skel_entry "sub")) = Some (at_time 14) /\
   (st_atim <$> lstat_after merged "/home/newuser/sub") = Some (at_time 1000) /\
   (st_mtim <$> lstat_after merged "/home/newuser/sub") = Some (at_time 1001) /\
   (never_stamped "sub" <$> (w_trace <$> state_of merged)) = Some true) /\
  (result_of whole = Some 0 /\
   (st_ino <$> lstat_after whole "/home/newuser/b") =
     (st_ino <$> lstat_after whole "/home/newuser/a") /\
   is_some (lstat_after whole "/home/newuser/b") = true /\
   (never_stamped "b" <$> (w_trace <$> state_of whole)) = Some true).
Proof.
  split.
  - split; [vm_compute; reflexivity|]. split; [vm_compute; reflexivity|].
    split; [vm_compute; reflexivity|]. split; [vm_compute; reflexivity|].
    split; vm_compute; reflexivity.
  - split; [vm_compute; reflexivity|]. split; [vm_compute; reflexivity|].
    split; vm_compute; reflexivity.
Qed.

(** ** [copy_root] *)

Lemma fstatat_follow_run w p :
  fstatat (dirfd p) (name p) 0 w = Ret (probe_follow w p) (log (stat_event p) w).
Proof.
  unfold fstatat, syscall, keep, probe_follow, stat_event.
  destruct (w_fault w _ _); [reflexivity|].
  change (follows 0) with true.
  destruct (fs_stat (w_fs w) (dirfd p) (name p) true); reflexivity.
Qed.

Lemma probe_nofollow_ok w p sb :
  probe_nofollow w p = Ok sb -> fs_stat (w_fs w) (dirfd p) (name p) false = Ok sb.
Proof. unfold probe_nofollow. destruct (w_fault w _ _); [discriminate|auto]. Qed.

(** When the dispatcher returns 0 for a directory outside of any walk, the
    directory strategy has run in full and the destination is there. *)
Lemma copy_entry_dir_ok S A X fuel' fuel src dst rs a b c d w w' sb :
  probe_nofollow w src = Ok sb -> S_ISDIR (st_mode sb) = true ->
  src_orig w = None ->
  copy_entry S A X (copy_tree_impl S A X fuel') fuel src dst rs a b c d w = Ret 0 w' ->
  exists wd,
    dir_copied S A X (copy_tree_impl S A X fuel') src dst rs sb (st_atim sb, st_mtim sb)
      a b c d (log (lstat_event src) w) wd /\
    w' = log (lstat_event dst) wd /\
    is_some (lstat_in w' dst) = true.
Proof.
  intros Hsrc Hdir Hso H. unfold copy_entry in H.
  rewrite (bind_Ret _ _ _ _ _ (fstatat_nofollow_run w src)), Hsrc in H.
  cbv zeta in H. rewrite Hdir in H.
  apply bind_Ret_inv in H as (err & w2 & Hfirst & H).
  rewrite (bind_Ret _ _ _ _ _ (fstatat_nofollow_run w2 dst)) in H.
  pose proof (keeps_copy_dir S A X _ (keeps_copy_tree_impl S A X fuel')
                src dst rs sb _ a b c d _ _ _ Hfirst) as (E2 & _ & Hso2).
  destruct (probe_nofollow w2 dst) as [sb2|e2] eqn:Hp2; cbn [is_ok] in H.
  - injection H as -> <-. exists w2. split; [|split; [reflexivity|]].
    + apply copy_dir_ok_inv. exact Hfirst.
    + unfold lstat_in. cbn [log w_fs]. rewrite (probe_nofollow_ok _ _ _ Hp2). reflexivity.
  - exfalso. rewrite (isdir_not_lnk _ Hdir) in H.
    apply bind_Ret_inv in H as (lp & w4 & Hlp & _).
    unfold check_link in Hlp. apply bind_Ret_inv in Hlp as (so & w5 & [= <- <-] & Hlp).
    apply bind_Ret_inv in Hlp as (do & w5 & [= <- <-] & Hlp).
    apply bind_Ret_inv in Hlp as (u & w5 & Hassert & _).
    simpl in Hassert. simpl in Hso2. rewrite Hso2, Hso in Hassert. discriminate.
Qed.

(** C2, amended: with [copy_root] set, [copy_tree_impl] returns -1 and
    leaves the files alone if the destination (a link at its end
    followed) is there or cannot be probed, or if the source cannot be
    probed or is not a directory; otherwise the call is the entry
    dispatcher on the root.  Whenever it then returns 0 in a process that
    is not inside a walk, either the dispatcher's own probe of the source
    has failed, and nothing at all was done; or the directory strategy has
    run in full ([dir_copied]): the walk over the children of the source
    directory has run with result 0, from the state in which the steps
    before it left the destination directory, and the destination is
    there.  The copy descends. *)
Theorem C2_copy_root (S A X : bool) (fuel : nat) (src dst : path_info) (rs : bool)
    (a b c d : Z) (w : world) :
  let run := copy_tree_impl S A X (Datatypes.S fuel) src dst true rs a b c d w in
  let w1 := log (stat_event dst) w in
  let w2 := log (lstat_event src) w1 in
  match probe_follow w dst with
  | Ok _ => run = Ret (-1) w1
  | Err e =>
      if bool_decide (e <> ENOENT) then run = Ret (-1) w1
      else
        match probe_nofollow w1 src with
        | Err _ => run = Ret (-1) w2
        | Ok sb =>
            if S_ISDIR (st_mode sb) then
              run = copy_entry S A X (copy_tree_impl S A X fuel) fuel src dst rs a b c d w2 /\
              (forall w', src_orig w = None -> run = Ret 0 w' ->
                 ((exists e2, probe_nofollow w2 src = Err e2) /\
                  w' = log (lstat_event src) w2) \/
                 (exists wd,
                    probe_nofollow w2 src = Ok sb /\
                    dir_copied S A X (copy_tree_impl S A X fuel) src dst rs sb
                      (st_atim sb, st_mtim sb) a b c d (log (lstat_event src) w2) wd /\
                    w' = log (lstat_event dst) wd /\
                    is_some (lstat_in w' dst) = true))
            else
              run = Ret (-1) (log (EvLog (full_path src +:+ " is not a directory")) w2)
        end
  end.
Proof.
  cbv zeta. cbn [copy_tree_impl].
  rewrite (bind_Ret _ _ _ _ _ (fstatat_follow_run w dst)).
  destruct (probe_follow w dst) as [sbd|e]; [reflexivity|].
  destruct (bool_decide (e <> ENOENT)); [reflexivity|].
  rewrite (bind_Ret _ _ _ _ _ (fstatat_nofollow_run _ src)).
  destruct (probe_nofollow (log (stat_event dst) w) src) as [sb|e'] eqn:Hsrc; [|reflexivity].
  destruct (S_ISDIR (st_mode sb)) eqn:Hdir; [|reflexivity].
  cbn [negb]. split; [reflexivity|].
  intros w' Hso Hrun.
  assert (Hsame : forall sb2,
            probe_nofollow (log (lstat_event src) (log (stat_event dst) w)) src = Ok sb2 ->
            sb2 = sb).
  { intros sb2 H2. apply probe_nofollow_ok in Hsrc, H2. simpl in Hsrc, H2. congruence. }
  set (w2 := log (lstat_event src) (log (stat_event dst) w)) in *.
  destruct (probe_nofollow w2 src) as [sb2|e2] eqn:Hsrc2.
  - right. rewrite (Hsame sb2 eq_refl) in *.
    destruct (copy_entry_dir_ok S A X fuel fuel src dst rs a b c d w2 w' sb
                Hsrc2 Hdir Hso Hrun) as (wd & Hd & Hw & He).
    exists wd. auto.
  - left. split; [eauto|].
    unfold copy_entry in Hrun.
    rewrite (bind_Ret _ _ _ _ _ (fstatat_nofollow_run w2 src)), Hsrc2 in Hrun.
    injection Hrun as <-. reflexivity.
Qed.

(** The copy of /skel to /home/u2 with [copy_root]: it returns 0, the
    directory strategy has run in full, the walk over /skel included, and
    /home/u2 is there. *)
Lemma C2_witness :
  let w2 := log (lstat_event skel_src) (log (stat_event home_u2) skel_world) in
  exists w',
    copy_root_run = Ret 0 w' /\
    (((exists e2, probe_nofollow w2 skel_src = Err e2) /\
      w' = log (lstat_event skel_src) w2) \/
     (exists wd,
        probe_nofollow w2 skel_src = Ok skel_stat /\
        dir_copied false false false (copy_tree_impl false false false 4)
          skel_src home_u2 false skel_stat (st_atim skel_stat, st_mtim skel_stat)
          ID_UNSET 1001 ID_UNSET 1001 (log (lstat_event skel_src) w2) wd /\
        w' = log (lstat_event home_u2) wd /\
        is_some (lstat_in w' home_u2) = true)).
Proof.
  pose proof (C2_copy_root false false false 4 skel_src home_u2 false
                ID_UNSET 1001 ID_UNSET 1001 skel_world) as H.
  cbv zeta in H.
  replace (probe_follow skel_world home_u2) with (@Err stat ENOENT) in H
    by (vm_compute; reflexivity).
  replace (probe_nofollow (log (stat_event home_u2) skel_world) skel_src)
    with (Ok skel_stat) in H by (vm_compute; reflexivity).
  change (bool_decide (ENOENT <> ENOENT)) with false in H. cbv iota in H.
  change (S_ISDIR (st_mode skel_stat)) with true in H. cbv iota in H.
  destruct H as (_ & H).
  exists (final_state skel_world (fun _ => copy_root_run)).
  split; [vm_compute; reflexivity|].
  apply H; [reflexivity|vm_compute; reflexivity].
Defined.

(** C2 as it is stated fails: the copy of /skel to /home/u2 with
    [copy_root] does descend: the file .bashrc of /skel and the file f of
    /skel/sub are copied too. *)
Lemma C2_copy_root_descends :
  result_of copy_root_run = Some 0 /\
  content_after copy_root_run "/home/u2/.bashrc" = Some [Byte.x68; Byte.x69] /\
  is_some (lstat_after copy_root_run "/home/u2/sub/f") = true.
Proof.
  split; [vm_compute; reflexivity|]. split; vm_compute; reflexivity.
Qed.

(** The first case of C2 happens: when the environment refuses the second
    [lstat] of the source, the one the dispatcher makes, the call with
    [copy_root] returns 0 and has made nothing. *)
Lemma copy_root_returns_0_on_refused_probe :
  result_of copy_root_probe_refused = Some 0 /\
  lstat_after copy_root_probe_refused "/home/u2" = None /\
  (w_fs <$> state_of copy_root_probe_refused) = Some skel_fs.
Proof. repeat split; vm_compute; reflexivity. Qed.

(** ** More steps never change a result *)

Lemma refines_refl {A} (m : M A) : refines m m.
Proof. intros w a w' H. exact H. Qed.

Lemma refines_bind {A B} (m m' : M A) (f f' : A -> M B) :
  refines m m' -> (forall a, refines (f a) (f' a)) -> refines (m ≫= f) (m' ≫= f').
Proof.
  intros Hm Hf w b w' H. apply bind_Ret_inv in H as (a & w1 & H1 & H2).
  rewrite (bind_Ret _ _ _ _ _ (Hm _ _ _ H1)). apply Hf. exact H2.
Qed.

Lemma refines_orelse (x x' y y' : M bool) :
  refines x x' -> refines y y' -> refines (orelse x y) (orelse x' y').
Proof.
  intros Hx Hy. unfold orelse. apply refines_bind; [exact Hx|].
  intros [|]; [apply refines_refl|exact Hy].
Qed.

Ltac refines_step :=
  first
    [ solve [auto]
    | lazymatch goal with
      | |- refines (mbind _ _) (mbind _ _) => apply refines_bind; [|intros ?]
      | |- refines (orelse _ _) (orelse _ _) => apply refines_orelse
      | |- refines (match ?x with _ => _ end) _ => destruct x
      end
    | apply refines_refl ].

Lemma copy_file_loop_fuel fuel :
  forall fuel' ifd ofd offset,
    (fuel <= fuel')%nat ->
    refines (copy_file_loop fuel ifd ofd offset) (copy_file_loop fuel' ifd ofd offset).
Proof.
  induction fuel as [|fuel IH]; intros fuel' ifd ofd offset Hle.
  - intros w a w'. discriminate.
  - destruct fuel' as [|fuel']; [lia|]. simpl.
    assert (Hle' : (fuel <= fuel')%nat) by lia.
    pose proof (fun i o f => IH fuel' i o f Hle') as IH'.
    repeat refines_step.
Qed.

Section refines_recursion.
Variables S A X : bool.
Variables rec rec' : tree_copier.
Variables fuel fuel' : nat.
Hypothesis refines_rec :
  forall src dst cr rs a b c d,
    refines (rec src dst cr rs a b c d) (rec' src dst cr rs a b c d).
Hypothesis fuel_le : (fuel <= fuel')%nat.

Lemma copy_file_fuel src dst rs statp mt a b c d :
  refines (copy_file S A X fuel src dst rs statp mt a b c d)
          (copy_file S A X fuel' src dst rs statp mt a b c d).
Proof.
  pose proof (fun i o f => copy_file_loop_fuel fuel fuel' i o f fuel_le).
  unfold copy_file. repeat refines_step.
Qed.

Lemma copy_dir_fuel src dst rs statp mt a b c d :
  refines (copy_dir S A X rec src dst rs statp mt a b c d)
          (copy_dir S A X rec' src dst rs statp mt a b c d).
Proof. unfold copy_dir. repeat refines_step. Qed.

Lemma copy_entry_fuel src dst rs a b c d :
  refines (copy_entry S A X rec fuel src dst rs a b c d)
          (copy_entry S A X rec' fuel' src dst rs a b c d).
Proof.
  pose proof copy_file_fuel. pose proof copy_dir_fuel.
  unfold copy_entry. repeat refines_step.
Qed.

Lemma copy_tree_entry_fuel src dst dir dst_fd d_name err rs a b c d :
  refines (copy_tree_entry S A X rec fuel src dst dir dst_fd d_name err rs a b c d)
          (copy_tree_entry S A X rec' fuel' src dst dir dst_fd d_name err rs a b c d).
Proof. pose proof copy_entry_fuel. unfold copy_tree_entry. repeat refines_step. Qed.

Lemma copy_tree_loop_fuel src dst dir dst_fd names rs a b c d :
  forall err,
    refines (copy_tree_loop S A X rec fuel src dst dir dst_fd names err rs a b c d)
            (copy_tree_loop S A X rec' fuel' src dst dir dst_fd names err rs a b c d).
Proof.
  pose proof copy_tree_entry_fuel.
  induction names as [|d_name rest IH]; intros err; simpl; repeat refines_step.
Qed.
End refines_recursion.

(** A run of [copy_tree_impl] that returns within [fuel] steps returns the
    same with any larger bound. *)
Lemma copy_tree_impl_fuel S A X fuel :
  forall fuel' src dst cr rs a b c d,
    (fuel <= fuel')%nat ->
    refines (copy_tree_impl S A X fuel src dst cr rs a b c d)
            (copy_tree_impl S A X fuel' src dst cr rs a b c d).
Proof.
  induction fuel as [|fuel IH]; intros fuel' src dst cr rs a b c d Hle.
  - intros w r w'. discriminate.
  - destruct fuel' as [|fuel']; [lia|].
    assert (Hle' : (fuel <= fuel')%nat) by lia.
    pose proof (fun s t cr rs a b c d => IH fuel' s t cr rs a b c d Hle') as IH'.
    pose proof (copy_entry_fuel S A X _ _ fuel fuel' IH' Hle') as Hentry.
    pose proof (copy_tree_loop_fuel S A X _ _ fuel fuel' IH' Hle') as Hloop.
    simpl. repeat refines_step.
Qed.

Lemma copy_tree_fuel S A X fuel extra src_root dst_root cr rs a b c d w r w' :
  copy_tree S A X fuel src_root dst_root cr rs a b c d w = Ret r w' ->
  copy_tree S A X (fuel + extra) src_root dst_root cr rs a b c d w = Ret r w'.
Proof. unfold copy_tree. apply copy_tree_impl_fuel. lia. Qed.

(** ** Hardlink conservation *)

Lemma copy_hardlink_ok_links dst rs lp node w w' :
  links w !! lp = Some node ->
  copy_hardlink dst rs lp w = Ret 0 w' ->
  let count := wrap nlink_t_bits (ln_count node - 1) in
  links w' = if count <=? 0 then delete lp (links w)
             else <[lp := with_count count node]> (links w).
Proof.
  intros Hlp H. unfold copy_hardlink in H.
  apply bind_Ret_inv in H as (l & w0 & [= <- <-] & H). rewrite Hlp in H.
  apply bind_Ret_inv in H as (r & w1 & Hlink & H).
  assert (Hl1 : links w1 = links w).
  { unfold linkat in Hlink. apply syscall_inv in Hlink. tauto. }
  destruct r as [u|e]; [|discriminate]. cbn [is_ok negb] in H. cbv zeta.
  apply bind_Ret_inv in H as ([] & w2 & [= <-] & H).
  apply bind_Ret_inv in H as ([] & w3 & Hrm & [= <-]).
  destruct (wrap nlink_t_bits (ln_count node - 1) <=? 0).
  - injection Hrm as <-. simpl. rewrite Hl1. apply delete_insert_same.
  - injection Hrm as <-. simpl. rewrite Hl1. reflexivity.
Qed.

(** A node registered with count [n] still has count [n - k] after [k < n]
    links were made from it: the count that [check_link] sets to the
    link count of the file is decremented once per further name, never for
    the first one, so it does not reach 0 when the walk has seen all [n]
    names. *)
Lemma hardlinked_count rs lp dsts w w' :
  hardlinked rs lp dsts w w' ->
  forall node,
    links w !! lp = Some node ->
    Z.of_nat (length dsts) < ln_count node < 2 ^ nlink_t_bits ->
    links w' !! lp = Some (with_count (ln_count node - Z.of_nat (length dsts)) node).
Proof.
  induction 1 as [w|dst dsts w w1 w2 Hcopy Hrest IH]; intros node Hlp Hn.
  - simpl. rewrite Z.sub_0_r. rewrite Hlp. destruct node; reflexivity.
  - pose proof (copy_hardlink_ok_links _ _ _ _ _ _ Hlp Hcopy) as Hl1. cbv zeta in Hl1.
    change (length (dst :: dsts)) with (Datatypes.S (length dsts)) in *.
    rewrite Nat2Z.inj_succ in *.
    assert (Hw : wrap nlink_t_bits (ln_count node - 1) = ln_count node - 1).
    { unfold wrap. apply Z.mod_small. lia. }
    rewrite Hw in Hl1.
    destruct (Z.leb_spec (ln_count node - 1) 0) as [Hle|Hgt]; [lia|].
    assert (Hlp1 : links w1 !! lp = Some (with_count (ln_count node - 1) node)).
    { rewrite Hl1. apply list_lookup_insert_eq. eapply lookup_lt_Some. exact Hlp. }
    rewrite (IH _ Hlp1) by (simpl; lia). simpl. f_equal. unfold with_count. simpl.
    f_equal. lia.
Qed.

(** C1 on the sample tree, where a and b are the two names of one file with
    link count 2: with any step bound from 5 on, the copy returns 0; of
    the two names only a is created and filled with the content, b is made
    by the one [linkat] call, as a second name of the recorded destination
    of a; and the registry still holds the node of the file, with
    count 1. *)
Theorem C1_registry_keeps_entry (extra : nat) :
  copy_tree false false false (5 + extra) "/skel" "/home/newuser" false false
    ID_UNSET 1001 ID_UNSET 1001 skel_world = whole_run /\
  result_of whole_run = Some 0 /\
  (st_nlink <$> lstat_in skel_world {| full_path := "/skel/a"; dirfd := AT_FDCWD;
                                       name := "/skel/a" |}) = Some 2 /\
  (created_files <$> (w_trace <$> state_of whole_run)) = Some [".bashrc"; "a"; "f"] /\
  content_after whole_run "/home/newuser/a" = Some [Byte.x7a] /\
  (linkat_calls <$> (w_trace <$> state_of whole_run)) =
    Some [EvLinkat AT_FDCWD "/home/newuser/a" (FD (1, 4)) "b" 0] /\
  (st_ino <$> lstat_after whole_run "/home/newuser/b") =
    (st_ino <$> lstat_after whole_run "/home/newuser/a") /\
  (links <$> state_of whole_run) =
    Some [ {| ln_dev := 1; ln_ino := 12; ln_count := 1; ln_name := "/home/newuser/a" |} ].
Proof.
  split.
  { assert (H : whole_run = Ret 0 (final_state skel_world (fun _ => whole_run)))
      by (vm_compute; reflexivity).
    rewrite H. apply copy_tree_fuel. exact H. }
  split; [vm_compute; reflexivity|]. split; [vm_compute; reflexivity|].
  split; [vm_compute; reflexivity|]. split; [vm_compute; reflexivity|].
  split; [vm_compute; reflexivity|]. split; vm_compute; reflexivity.
Qed.

(** * Further properties of copydir.c *)

(** ** The static variables across a call *)

Lemma session_kept_refl w : session_kept w w.
Proof. split; [split; auto|auto]. Qed.

Lemma session_kept_trans w1 w2 w3 :
  session_kept w1 w2 -> session_kept w2 w3 -> session_kept w1 w3.
Proof.
  intros ((S1 & D1) & L1) ((S2 & D2) & L2). split; [split|auto].
  - congruence.
  - destruct D1 as [D1|(N1 & D1)], D2 as [D2|(N2 & D2)].
    + left; congruence.
    + right. split; congruence.
    + right. split; congruence.
    + right. split; congruence.
Qed.

Lemma session_kept_same w w' :
  src_orig w' = src_orig w -> dst_orig w' = dst_orig w -> links w' = links w ->
  session_kept w w'.
Proof. intros Hs Hd Hl. split; [split; auto|rewrite Hl; auto]. Qed.

Lemma keeps_session_syscall {A} ev (op : filesys -> result (A * filesys)) :
  keeps session_kept (syscall ev op).
Proof.
  intros w r w' H. apply syscall_inv in H as (_ & Hl & Hs & Hd & _).
  apply session_kept_same; assumption.
Qed.

Lemma keeps_session_log ev : keeps session_kept (modify (log ev)).
Proof. apply keeps_modify. intros w. apply session_kept_same; reflexivity. Qed.

(** The calls of copydir.c to the environment, down to [syscall]. *)
Ltac unfold_calls :=
  cbv beta delta
    [failed_with_errno failed orelse perm_copy_path attr_copy_path copy_path
     perm_copy_fd attr_copy_fd error_acl chownat_if_needed fchown_if_needed
     def_chown_if_needed fstatat openat fdopendir readdir closedir close mkdirat fchownat
     fchown fchmodat fchmod utimensat symlinkat linkat mknodat read write_full
     areadlink aprintf set_selinux_file_context reset_selinux_file_context
     fprintf_log].

Ltac session_step :=
  lazymatch goal with
  | |- keeps _ (mbind _ _) => apply (keeps_bind _ session_kept_trans); [|intros ?]
  | |- keeps _ (mret _) => apply (keeps_ret _ session_kept_refl)
  | |- keeps _ (get _) => apply (keeps_get _ session_kept_refl)
  | |- keeps _ (assert _) => apply (keeps_assert _ session_kept_refl)
  | |- keeps _ (fun w => Abort w) => apply keeps_abort
  | |- keeps _ out_of_fuel => apply keeps_out_of_fuel
  | |- keeps _ (modify (log _)) => apply keeps_session_log
  | |- keeps _ (syscall _ _) => apply keeps_session_syscall
  | |- keeps _ (match ?x with _ => _ end) => destruct x
  | |- keeps _ (let _ := _ in _) => cbv zeta
  end.

Ltac session_all := unfold_calls; repeat first [ assumption | solve [auto] | session_step ].

Lemma find_link_None_key l sb :
  find_link l sb = None -> (st_dev sb, st_ino sb) ∉ ln_key <$> l.
Proof.
  intros Hf Hin. apply list_elem_of_fmap in Hin as (node & Hk & Hin).
  injection Hk as Hd Hi.
  apply (proj1 (find_link_None _ _) Hf node Hin). split; congruence.
Qed.

(** [check_link] puts a node in the registry only for a file that has
    none. *)
Lemma keeps_session_check_link nm sb : keeps session_kept (check_link nm sb).
Proof.
  intros w lp w'. unfold check_link, mbind, M_bind, get, assert, modify, mret, M_ret.
  destruct (is_some (src_orig w)); [|discriminate].
  destruct (is_some (dst_orig w)); [|discriminate].
  destruct (find_link (links w) sb) as [n|] eqn:Hf.
  - intros [= <- <-]. apply session_kept_refl.
  - destruct (st_nlink sb =? 1); intros [= <- <-]; [apply session_kept_refl|].
    split; [split; auto|]. simpl. unfold one_node_per_file. rewrite fmap_cons.
    intros Hnd. apply NoDup_cons. split; [|exact Hnd].
    apply find_link_None_key. exact Hf.
Qed.

(** [copy_hardlink] changes the count of a node, or removes the node. *)
Lemma keeps_session_copy_hardlink dst rs lp : keeps session_kept (copy_hardlink dst rs lp).
Proof.
  intros w r w' H. unfold copy_hardlink in H.
  apply bind_Ret_inv in H as (l & w0 & [= <- <-] & H).
  destruct (links w !! lp) as [node|] eqn:Hlp; [|discriminate].
  apply bind_Ret_inv in H as (res & w1 & Hlink & H).
  unfold linkat in Hlink. apply syscall_inv in Hlink as (_ & Hl & Hs & Hd & _).
  destruct res as [u|e]; simpl in H.
  - apply bind_Ret_inv in H as ([] & w2 & [= <-] & H).
    apply bind_Ret_inv in H as ([] & w3 & Hrm & [= _ <-]).
    assert (Hins : ln_key <$> <[lp := {| ln_dev := ln_dev node; ln_ino := ln_ino node;
                      ln_count := wrap nlink_t_bits (ln_count node - 1);
                      ln_name := ln_name node |}]> (links w1) = ln_key <$> links w).
    { rewrite list_fmap_insert, Hl. apply list_insert_id.
      rewrite list_lookup_fmap, Hlp. reflexivity. }
    destruct (wrap nlink_t_bits (ln_count node - 1) <=? 0); injection Hrm as <-.
    + split; [split; simpl; auto|]. simpl. unfold one_node_per_file. intros Hnd.
      eapply sublist_NoDup; [|apply fmap_sublist, sublist_delete].
      rewrite Hins. exact Hnd.
    + split; [split; simpl; auto|]. simpl. unfold one_node_per_file.
      rewrite Hins. auto.
  - injection H as _ <-. apply session_kept_same; assumption.
Qed.

Lemma keeps_session_copy_symlink S src dst rs statp mt a b c d :
  keeps session_kept (copy_symlink S src dst rs statp mt a b c d).
Proof. unfold copy_symlink. session_all. Qed.

Lemma keeps_session_copy_special S A X src dst rs statp mt a b c d :
  keeps session_kept (copy_special S A X src dst rs statp mt a b c d).
Proof. unfold copy_special. session_all. Qed.

Lemma keeps_session_copy_file_loop fuel ifd ofd :
  forall offset, keeps session_kept (copy_file_loop fuel ifd ofd offset).
Proof.
  induction fuel as [|fuel IH]; intros offset; simpl; [apply keeps_out_of_fuel|].
  session_all.
Qed.

Lemma keeps_session_copy_file S A X fuel src dst rs statp mt a b c d :
  keeps session_kept (copy_file S A X fuel src dst rs statp mt a b c d).
Proof.
  pose proof (keeps_session_copy_file_loop fuel).
  unfold copy_file. session_all.
Qed.

Section session_recursion.
Variables S A X : bool.
Variable rec : tree_copier.
Hypothesis keeps_rec :
  forall src dst cr rs a b c d, keeps session_kept (rec src dst cr rs a b c d).

Lemma keeps_session_copy_dir src dst rs statp mt a b c d :
  keeps session_kept (copy_dir S A X rec src dst rs statp mt a b c d).
Proof. unfold copy_dir. session_all. Qed.

Lemma keeps_session_copy_entry fuel src dst rs a b c d :
  keeps session_kept (copy_entry S A X rec fuel src dst rs a b c d).
Proof.
  pose proof keeps_session_copy_dir. pose proof keeps_session_check_link.
  pose proof keeps_session_copy_hardlink. pose proof keeps_session_copy_symlink.
  pose proof keeps_session_copy_special. pose proof keeps_session_copy_file.
  unfold copy_entry. session_all.
Qed.

Lemma keeps_session_copy_tree_entry fuel src dst dir dst_fd d_name err rs a b c d :
  keeps session_kept
    (copy_tree_entry S A X rec fuel src dst dir dst_fd d_name err rs a b c d).
Proof. pose proof keeps_session_copy_entry. unfold copy_tree_entry. session_all. Qed.

Lemma keeps_session_copy_tree_loop fuel src dst dir dst_fd names rs a b c d :
  forall err,
    keeps session_kept
      (copy_tree_loop S A X rec fuel src dst dir dst_fd names err rs a b c d).
Proof.
  pose proof keeps_session_copy_tree_entry.
  induction names as [|d_name rest IH]; intros err; simpl; session_all.
Qed.
End session_recursion.

(** The outermost call sets the two roots and unsets them; a nested call
    leaves them alone. *)
Lemma keeps_session_copy_tree_impl S A X fuel :
  forall src dst cr rs a b c d,
    keeps session_kept (copy_tree_impl S A X fuel src dst cr rs a b c d).
Proof.
  induction fuel as [|fuel IH]; intros src dst cr rs a b c d; simpl;
    [apply keeps_out_of_fuel|].
  pose proof (keeps_session_copy_entry S A X _ IH) as Hentry.
  pose proof (keeps_session_copy_tree_loop S A X _ IH) as Hloop.
  destruct cr; [session_all|].
  do 3 (session_step; [session_all|]; session_step; [|session_all]).
  intros w r w' H. apply bind_Ret_inv in H as (so & w0 & [= <- <-] & H).
  destruct (src_orig w) eqn:Hso; simpl in H.
  - refine ((_ : keeps session_kept _) w r w' H). session_all.
  - apply bind_Ret_inv in H as ([] & w1 & [= <-] & H).
    apply bind_Ret_inv in H as (err & w2 & H2 & H).
    apply Hloop in H2 as ((S2 & D2) & L2).
    apply bind_Ret_inv in H as ([] & w3 & [= <-] & H).
    apply bind_Ret_inv in H as (cl & w4 & H4 & H).
    apply keeps_session_syscall in H4 as ((S4 & D4) & L4).
    apply bind_Ret_inv in H as ([] & w5 & [= <-] & H).
    assert (Hrest : keeps session_kept
              (sel ← (if S then failed reset_selinux_file_context else mret false);
               mret (if sel : bool then -1 else err))) by session_all.
    apply Hrest in H as ((S6 & D6) & L6). simpl in *.
    split; [split|auto].
    + rewrite S6. exact (eq_sym Hso).
    + right. split; [exact Hso|]. destruct D6 as [D6|(_ & D6)]; [rewrite D6|]; auto.
Qed.

(** When [copy_tree] returns, with whatever result, [src_orig] is what it
    was, and so is [dst_orig] if the two were set or unset together: after
    an outermost call both are unset again, so that the next call records
    its own roots, and a call made during a walk leaves the roots of the
    walk in place. *)
Theorem copy_tree_restores_roots (S A X : bool) (fuel : nat) (src_root dst_root : string)
    (copy_root reset_selinux : bool) (old_uid new_uid old_gid new_gid : Z)
    (w : world) (r : Z) (w' : world) :
  copy_tree S A X fuel src_root dst_root copy_root reset_selinux
    old_uid new_uid old_gid new_gid w = Ret r w' ->
  src_orig w' = src_orig w /\
  (is_some (src_orig w) = is_some (dst_orig w) -> dst_orig w' = dst_orig w).
Proof.
  intros H. apply keeps_session_copy_tree_impl in H as ((Hs & Hd) & _).
  split; [exact Hs|]. intros Hp. destruct Hd as [Hd|(Hn & Hd)]; [exact Hd|].
  rewrite Hn in Hp. rewrite Hd. destruct (dst_orig w); [discriminate|reflexivity].
Qed.

Lemma copy_tree_restores_roots_witness :
  src_orig (final_state skel_world
              (copy_tree false false false 5 "/skel" "/home/newuser" false false
                 ID_UNSET 1001 ID_UNSET 1001)) = None /\
  (is_some (src_orig skel_world) = is_some (dst_orig skel_world) ->
   dst_orig (final_state skel_world
               (copy_tree false false false 5 "/skel" "/home/newuser" false false
                  ID_UNSET 1001 ID_UNSET 1001)) = None).
Proof.
  apply (copy_tree_restores_roots false false false 5 "/skel" "/home/newuser" false false
           ID_UNSET 1001 ID_UNSET 1001 skel_world 0).
  vm_compute. reflexivity.
Defined.

(** The registry never holds two nodes for one file: if no two nodes of
    [links] have the same device and inode numbers when [copy_tree] is
    called, none have when it returns. *)
Theorem copy_tree_one_node_per_file (S A X : bool) (fuel : nat)
    (src_root dst_root : string) (copy_root reset_selinux : bool)
    (old_uid new_uid old_gid new_gid : Z) (w : world) (r : Z) (w' : world) :
  copy_tree S A X fuel src_root dst_root copy_root reset_selinux
    old_uid new_uid old_gid new_gid w = Ret r w' ->
  one_node_per_file (links w) -> one_node_per_file (links w').
Proof.
  intros H. apply keeps_session_copy_tree_impl in H as (_ & Hl). exact Hl.
Qed.

Lemma copy_tree_one_node_per_file_witness :
  one_node_per_file
    (links (final_state skel_world
              (copy_tree false false false 5 "/skel" "/home/newuser" false false
                 ID_UNSET 1001 ID_UNSET 1001))).
Proof.
  apply (copy_tree_one_node_per_file false false false 5 "/skel" "/home/newuser"
           false false ID_UNSET 1001 ID_UNSET 1001 skel_world 0).
  - vm_compute. reflexivity.
  - apply NoDup_nil_2.
Defined.

(** ** The values returned *)

Lemma returns_ret {A} (P : A -> Prop) (a : A) : P a -> returns P (mret a).
Proof. intros H w a' w' [= <- _]. exact H. Qed.

Lemma returns_bind {A B} (P : B -> Prop) (m : M A) (f : A -> M B) :
  (forall a, returns P (f a)) -> returns P (m ≫= f).
Proof.
  intros Hf w b w' H. apply bind_Ret_inv in H as (a & w1 & _ & H). eapply Hf, H.
Qed.

Lemma returns_bind_with {A B} (Q : A -> Prop) (P : B -> Prop) (m : M A) (f : A -> M B) :
  returns Q m -> (forall a, Q a -> returns P (f a)) -> returns P (m ≫= f).
Proof.
  intros Hm Hf w b w' H. apply bind_Ret_inv in H as (a & w1 & H1 & H).
  eapply Hf; [eapply Hm, H1|exact H].
Qed.

Ltac returns_step :=
  lazymatch goal with
  | |- returns _ (mbind _ _) =>
      first [ apply (returns_bind_with exit_code); [solve [auto]|intros ? ?]
            | apply returns_bind; intros ? ]
  | |- returns _ (mret _) => apply returns_ret
  | |- returns _ (fun w => Abort w) => intros ? ? ?; discriminate
  | |- returns _ out_of_fuel => intros ? ? ?; discriminate
  | |- returns _ (match ?x with _ => _ end) => destruct x
  | |- returns _ (let _ := _ in _) => cbv zeta
  | |- exit_code (if ?c then _ else _) => destruct c
  | |- exit_code _ => unfold exit_code; lia
  end.

Ltac returns_all := repeat first [ assumption | solve [auto] | returns_step ].

Lemma returns_copy_symlink S src dst rs statp mt a b c d :
  returns exit_code (copy_symlink S src dst rs statp mt a b c d).
Proof. unfold copy_symlink. returns_all. Qed.

Lemma returns_copy_hardlink dst rs lp : returns exit_code (copy_hardlink dst rs lp).
Proof. unfold copy_hardlink. returns_all. Qed.

Lemma returns_copy_special S A X src dst rs statp mt a b c d :
  returns exit_code (copy_special S A X src dst rs statp mt a b c d).
Proof. unfold copy_special. returns_all. Qed.

Lemma returns_copy_file_loop fuel ifd ofd :
  forall offset, returns exit_code (copy_file_loop fuel ifd ofd offset).
Proof. induction fuel as [|fuel IH]; intros offset; simpl; returns_all. Qed.

Lemma returns_copy_file S A X fuel src dst rs statp mt a b c d :
  returns exit_code (copy_file S A X fuel src dst rs statp mt a b c d).
Proof.
  pose proof (returns_copy_file_loop fuel). unfold copy_file. returns_all.
Qed.

(** [copy_dir] returns 0 or 1 when it walks into a directory that is
    there, and 0 or -1 when it makes the directory, whatever the walk
    returns. *)
Lemma returns_copy_dir S A X rec src dst rs statp mt a b c d :
  returns exit_code (copy_dir S A X rec src dst rs statp mt a b c d).
Proof. unfold copy_dir. returns_all. Qed.

Lemma returns_copy_entry S A X rec fuel src dst rs a b c d :
  returns exit_code (copy_entry S A X rec fuel src dst rs a b c d).
Proof.
  pose proof returns_copy_symlink. pose proof returns_copy_hardlink.
  pose proof returns_copy_special. pose proof returns_copy_file.
  unfold copy_entry. do 2 returns_step; [|returns_all]. cbv zeta.
  apply (returns_bind_with exit_code).
  - destruct (S_ISDIR (st_mode a0)); [apply returns_copy_dir|returns_all].
  - intros err Herr. returns_all.
Qed.

Lemma returns_copy_tree_entry S A X rec fuel src dst dir dst_fd d_name err rs a b c d :
  exit_code err ->
  returns exit_code
    (copy_tree_entry S A X rec fuel src dst dir dst_fd d_name err rs a b c d).
Proof.
  intros Herr. pose proof returns_copy_entry. unfold copy_tree_entry. returns_all.
Qed.

Lemma returns_copy_tree_loop S A X rec fuel src dst dir dst_fd names rs a b c d :
  forall err, exit_code err ->
    returns exit_code
      (copy_tree_loop S A X rec fuel src dst dir dst_fd names err rs a b c d).
Proof.
  induction names as [|d_name rest IH]; intros err Herr; cbn [copy_tree_loop].
  - returns_all.
  - destruct (negb (0 =? err)); [returns_all|]. apply returns_bind. intros [ent|];
      [|returns_all].
    apply (returns_bind_with exit_code).
    + apply returns_copy_tree_entry. exact Herr.
    + intros err' Herr'. apply IH. exact Herr'.
Qed.

Lemma returns_copy_tree_impl S A X fuel src dst cr rs a b c d :
  returns exit_code (copy_tree_impl S A X fuel src dst cr rs a b c d).
Proof.
  destruct fuel as [|fuel]; simpl; [returns_all|].
  pose proof returns_copy_entry.
  destruct cr; [returns_all|].
  do 6 returns_step; try solve [returns_all].
  do 2 returns_step.
  apply (returns_bind_with exit_code).
  - apply returns_copy_tree_loop. unfold exit_code. lia.
  - intros err Herr. returns_all.
Qed.

(** [copy_tree] returns 0, -1 or 1, and nothing else: a failure is not
    always reported as -1, as [copy_dir] turns the failure of a walk into
    an existing directory into 1. *)
Theorem copy_tree_exit_codes (S A X : bool) (fuel : nat) (src_root dst_root : string)
    (copy_root reset_selinux : bool) (old_uid new_uid old_gid new_gid : Z)
    (w : world) (r : Z) (w' : world) :
  copy_tree S A X fuel src_root dst_root copy_root reset_selinux
    old_uid new_uid old_gid new_gid w = Ret r w' ->
  r = 0 \/ r = -1 \/ r = 1.
Proof. intros H. exact (returns_copy_tree_impl _ _ _ _ _ _ _ _ _ _ _ _ _ _ _ H). Qed.

Lemma copy_tree_exit_codes_witness :
  result_of (copy_tree false false false 5 "/skel" "/home/newuser" false false
               ID_UNSET 1001 ID_UNSET 1001 merge_start) = Some 1 /\
  (1 = 0 \/ 1 = -1 \/ 1 = 1).
Proof.
  split; [vm_compute; reflexivity|].
  apply (copy_tree_exit_codes false false false 5 "/skel" "/home/newuser" false false
           ID_UNSET 1001 ID_UNSET 1001 merge_start 1
           (final_state merge_start
              (copy_tree false false false 5 "/skel" "/home/newuser" false false
                 ID_UNSET 1001 ID_UNSET 1001))).
  vm_compute. reflexivity.
Defined.

(** ** Roots that are not directories *)

Lemma stat_mode_type id i : Z.land (st_mode (stat_of id i)) S_IFMT = ftype_bits (i_body i).
Proof.
  unfold stat_of. cbn [st_mode]. rewrite Z.land_lor_distr_l, <- Z.land_assoc.
  change (Z.land PERM_MASK S_IFMT) with 0. rewrite Z.land_0_r, Z.lor_0_r.
  destruct (i_body i) as [| | |[]]; reflexivity.
Qed.

(** [openat] with O_DIRECTORY and O_NOFOLLOW gives a descriptor only for a
    path that names a directory, no symbolic link followed at its end. *)
Lemma fs_open_directory fs dirfd path id :
  fs_open fs dirfd path true false = Ok id ->
  exists sb, fs_stat fs dirfd path false = Ok sb /\ S_ISDIR (st_mode sb) = true.
Proof.
  unfold fs_open, fs_stat.
  destruct (resolve fs dirfd path false) as [id'|e]; simpl; [|discriminate].
  destruct (fs_inode fs id') as [i|e]; simpl; [|discriminate].
  destruct (i_body i) eqn:Hb; try discriminate. intros _.
  eexists. split; [reflexivity|]. unfold S_ISDIR. rewrite stat_mode_type, Hb. reflexivity.
Qed.

Lemma openat_directory dirfd path w id w' :
  openat dirfd path OPEN_DIR_FLAGS 0 w = Ret (Ok id) w' ->
  is_directory_in w {| full_path := path; dirfd := dirfd; name := path |} = true /\
  w' = log (EvOpenat dirfd path OPEN_DIR_FLAGS 0) w.
Proof.
  unfold openat. change (has_flag OPEN_DIR_FLAGS O_CREAT && has_flag OPEN_DIR_FLAGS O_EXCL)
    with false. cbv iota.
  change (has_flag OPEN_DIR_FLAGS O_DIRECTORY) with true.
  change (negb (has_flag OPEN_DIR_FLAGS O_NOFOLLOW)) with false.
  intros H. apply syscall_keep_inv in H as (-> & H). split; [|reflexivity].
  destruct (w_fault w _ _); [discriminate|]. symmetry in H.
  apply fs_open_directory in H as (sb & Hs & Hd).
  unfold is_directory_in, lstat_in. simpl. rewrite Hs. exact Hd.
Qed.

Lemma syscall_returns {A} ev (op : filesys -> result (A * filesys)) w :
  exists r w', syscall ev op w = Ret r w'.
Proof.
  unfold syscall. destruct (w_fault w _ ev); [eauto|].
  destruct (op (w_fs w)) as [[a fs']|e]; eauto.
Qed.

(** A call that fails, and one that only reads, leave everything but the
    trace as it is. *)
Lemma syscall_err_inv {A} ev (op : filesys -> result (A * filesys)) w e w' :
  syscall ev op w = Ret (Err e) w' -> w' = log ev w.
Proof.
  unfold syscall. destruct (w_fault w _ ev); [intros [= _ <-]; reflexivity|].
  destruct (op (w_fs w)) as [[a fs']|e']; [discriminate|]. intros [= _ <-]. reflexivity.
Qed.

Lemma close_run f w : exists r, close f w = Ret r (log (EvClose f) w).
Proof.
  unfold close, syscall. destruct (w_fault w _ _); [eauto|].
  exists (Ok tt). destruct w; reflexivity.
Qed.

(** Without [copy_root], [copy_tree_impl] works on two directories that
    are there: if the source or the destination is missing or is no
    directory, it returns -1 and has changed nothing, no file, no node of
    the registry and no root.  Both are opened with O_NOFOLLOW, so a path
    that ends at a symbolic link to a directory names none; a path that
    ends with a slash names what the link leads to ([is_directory_in]). *)
Theorem copy_tree_impl_needs_directories (S A X : bool) (fuel : nat)
    (src dst : path_info) (rs : bool) (a b c d : Z) (w : world) :
  is_directory_in w src && is_directory_in w dst = false ->
  exists w',
    copy_tree_impl S A X (Datatypes.S fuel) src dst false rs a b c d w = Ret (-1) w' /\
    w_fs w' = w_fs w /\ links w' = links w /\
    src_orig w' = src_orig w /\ dst_orig w' = dst_orig w.
Proof.
  intros Hnd. cbn [copy_tree_impl].
  change (Z.lor (Z.lor (Z.lor O_DIRECTORY O_RDONLY) O_NOFOLLOW) O_CLOEXEC)
    with OPEN_DIR_FLAGS.
  destruct (syscall_returns (EvOpenat (dirfd src) (name src) OPEN_DIR_FLAGS 0)
              (fun fs => keep (fun fs => fs_open fs (dirfd src) (name src) true false) fs) w)
    as (r1 & w1 & H1).
  change (openat (dirfd src) (name src) OPEN_DIR_FLAGS 0 w = Ret r1 w1) in H1.
  rewrite (bind_Ret _ _ _ _ _ H1). destruct r1 as [src_fd|e1].
  - apply openat_directory in H1 as (Hs & ->).
    destruct (syscall_returns (EvOpenat (dirfd dst) (name dst) OPEN_DIR_FLAGS 0)
                (fun fs => keep (fun fs => fs_open fs (dirfd dst) (name dst) true false) fs)
                (log (EvOpenat (dirfd src) (name src) OPEN_DIR_FLAGS 0) w))
      as (r2 & w2 & H2).
    change (openat (dirfd dst) (name dst) OPEN_DIR_FLAGS 0
              (log (EvOpenat (dirfd src) (name src) OPEN_DIR_FLAGS 0) w) = Ret r2 w2) in H2.
    rewrite (bind_Ret _ _ _ _ _ H2). destruct r2 as [dst_fd|e2].
    + apply openat_directory in H2 as (Hd & _). exfalso.
      unfold is_directory_in, lstat_in in *. simpl in *. rewrite Hs, Hd in Hnd.
      discriminate.
    + unfold openat in H2. apply syscall_err_inv in H2 as ->.
      destruct (close_run src_fd
                  (log (EvOpenat (dirfd dst) (name dst) OPEN_DIR_FLAGS 0)
                     (log (EvOpenat (dirfd src) (name src) OPEN_DIR_FLAGS 0) w)))
        as (rc & Hc).
      rewrite (bind_Ret _ _ _ _ _ Hc). eexists. split; [reflexivity|]. simpl. auto.
  - unfold openat in H1. apply syscall_err_inv in H1 as ->.
    eexists. split; [reflexivity|]. simpl. auto.
Qed.

Lemma copy_tree_impl_needs_directories_witness :
  exists w',
    copy_tree_impl false false false 1 (skel_entry "bin") newuser_dst false false
      ID_UNSET 1001 ID_UNSET 1001 skel_world = Ret (-1) w' /\
    w_fs w' = w_fs skel_world /\ links w' = links skel_world /\
    src_orig w' = src_orig skel_world /\ dst_orig w' = dst_orig skel_world.
Proof.
  apply (copy_tree_impl_needs_directories false false false 0 (skel_entry "bin")
           newuser_dst false ID_UNSET 1001 ID_UNSET 1001 skel_world).
  vm_compute. reflexivity.
Defined.

(** A symbolic link to a directory as the source root: named /lnk it is
    no directory, and the walk returns -1; named /lnk/ it is the directory
    /skel, and the walk copies it. *)
Lemma link_root_and_trailing_slash :
  is_directory_in lnk_world lnk_src = false /\
  is_directory_in lnk_world lnk_slash_src = true /\
  result_of (copy_tree_impl false false false 5 lnk_src newuser_dst false false
               ID_UNSET 1001 ID_UNSET 1001 lnk_world) = Some (-1) /\
  result_of (copy_tree_impl false false false 5 lnk_slash_src newuser_dst false false
               ID_UNSET 1001 ID_UNSET 1001 lnk_world) = Some 0 /\
  content_after (copy_tree_impl false false false 5 lnk_slash_src newuser_dst false false
                   ID_UNSET 1001 ID_UNSET 1001 lnk_world) "/home/newuser/.bashrc"
    = Some [Byte.x68; Byte.x69].
Proof. repeat split; vm_compute; reflexivity. Qed.

(** ** [copy_root] and a directory that cannot be made *)

Lemma orelse_true (x y : M bool) w w' :
  x w = Ret true w' -> orelse x y w = Ret true w'.
Proof. intros H. unfold orelse. rewrite (bind_Ret _ _ _ _ _ H). reflexivity. Qed.

Lemma mkdirat_refused dirfd path mode w e :
  w_fault w (w_trace w) (EvMkdirat dirfd path mode) = Some e \/
  fs_mkdirat (w_fs w) dirfd path mode = Err e ->
  exists e', mkdirat dirfd path mode w = Ret (Err e') (log (EvMkdirat dirfd path mode) w).
Proof.
  intros H. unfold mkdirat, syscall.
  destruct (w_fault w _ _) as [e0|]; [eauto|].
  destruct H as [H|H]; [discriminate|]. rewrite H. simpl. eauto.
Qed.

(** An entry that is not there, or whose probe the environment always
    refuses, cannot be probed. *)
Lemma probe_fails w w' p :
  lstat_in w p = None \/ (forall tr, w_fault w tr (lstat_event p) <> None) ->
  w_fs w' = w_fs w -> w_fault w' = w_fault w ->
  exists e, probe_nofollow w' p = Err e.
Proof.
  intros [H|H] Hfs Hf; [exact (lstat_in_probe w w' p H Hfs)|].
  unfold probe_nofollow. rewrite Hf.
  destruct (w_fault w (w_trace w') (lstat_event p)) as [e|] eqn:E; [eauto|].
  exfalso. exact (H _ E).
Qed.

(** [copy_dir] on a destination that cannot be probed and cannot be made:
    it returns -1, and neither the files nor the static variables have
    changed. *)
Lemma copy_dir_not_made (S A X : bool) rec src dst rs statp mt a b c d w e' :
  lstat_in w dst = None \/ (forall tr, w_fault w tr (lstat_event dst) <> None) ->
  (w_fault w (w_trace w ++ (if S then [EvSetSelinux (full_path dst) S_IFDIR] else [])
                ++ [lstat_event dst])
     (EvMkdirat (dirfd dst) (name dst) MODE_0700) = Some e' \/
   fs_mkdirat (w_fs w) (dirfd dst) (name dst) MODE_0700 = Err e') ->
  exists w',
    copy_dir S A X rec src dst rs statp mt a b c d w = Ret (-1) w' /\
    w_fs w' = w_fs w /\ w_fault w' = w_fault w /\ src_orig w' = src_orig w.
Proof.
  intros Hdst Hmk. unfold copy_dir.
  assert (Hsel : exists sel w0,
            (if S then failed (set_selinux_file_context (full_path dst) S_IFDIR)
             else mret false) w = Ret sel w0 /\
            w_fs w0 = w_fs w /\ w_fault w0 = w_fault w /\ src_orig w0 = src_orig w /\
            w_trace w0 = w_trace w
                           ++ (if S then [EvSetSelinux (full_path dst) S_IFDIR] else [])).
  { destruct S; [|exists false, w; rewrite app_nil_r; auto].
    unfold failed, set_selinux_file_context.
    rewrite (bind_Ret _ _ _ _ _ (syscall_id_run _ _ _)).
    eexists _, _. split; [reflexivity|]. simpl. auto. }
  destruct Hsel as (sel & w0 & Hsel & Hfs & Hf & Hso & Htr).
  rewrite (bind_Ret _ _ _ _ _ Hsel). destruct sel; [eauto|].
  rewrite (bind_Ret _ _ _ _ _ (fstatat_nofollow_run w0 dst)).
  destruct (probe_fails w w0 dst Hdst Hfs Hf) as (e & Hdst0). rewrite Hdst0.
  destruct (mkdirat_refused (dirfd dst) (name dst) MODE_0700 (log (lstat_event dst) w0) e')
    as (e0 & Hm).
  { cbn [log w_fault w_trace w_fs]. rewrite Hf, Hfs, Htr, <- app_assoc. exact Hmk. }
  assert (Hfailed : failed (mkdirat (dirfd dst) (name dst) MODE_0700)
                      (log (lstat_event dst) w0) =
                    Ret true (log (EvMkdirat (dirfd dst) (name dst) MODE_0700)
                                (log (lstat_event dst) w0))).
  { unfold failed. rewrite (bind_Ret _ _ _ _ _ Hm). reflexivity. }
  erewrite bind_Ret; [|do 6 apply orelse_true; exact Hfailed].
  eexists. split; [reflexivity|]. simpl. auto.
Qed.

(** With [copy_root], a source that is a directory and a destination that
    is not there (or cannot be probed), [copy_tree_impl] hands the root to
    [copy_entry].  If the directory cannot be made (the environment
    refuses the call when it is made, or the directory above it is
    missing), [copy_dir] fails before any walk has recorded the roots;
    [copy_entry] then finds that the destination is still not there and
    goes on to [check_link], whose assertion that [src_orig] is set fails.
    So outside of a walk such a call does not return -1: the process is
    aborted, the files being as they were. *)
Theorem copy_root_aborts_when_mkdir_fails (S A X : bool) (fuel : nat)
    (src dst : path_info) (rs : bool) (a b c d : Z) (w : world)
    (sb : stat) (e' : errno) :
  let w1 := log (stat_event dst) w in
  let w2 := log (lstat_event src) w1 in
  let tr := w_trace w ++ [stat_event dst; lstat_event src; lstat_event src]
              ++ (if S then [EvSetSelinux (full_path dst) S_IFDIR] else [])
              ++ [lstat_event dst] in
  src_orig w = None ->
  probe_follow w dst = Err ENOENT ->
  probe_nofollow w1 src = Ok sb -> S_ISDIR (st_mode sb) = true ->
  probe_nofollow w2 src = Ok sb ->
  lstat_in w dst = None \/ (forall tr', w_fault w tr' (lstat_event dst) <> None) ->
  (w_fault w tr (EvMkdirat (dirfd dst) (name dst) MODE_0700) = Some e' \/
   fs_mkdirat (w_fs w) (dirfd dst) (name dst) MODE_0700 = Err e') ->
  exists w',
    copy_tree_impl S A X (Datatypes.S fuel) src dst true rs a b c d w = Abort w' /\
    w_fs w' = w_fs w.
Proof.
  intros w1 w2 tr Hso Hfollow Hsrc Hdir Hsrc2 Hdst Hmk. cbn [copy_tree_impl].
  rewrite (bind_Ret _ _ _ _ _ (fstatat_follow_run w dst)), Hfollow.
  change (bool_decide (ENOENT <> ENOENT)) with false. cbv iota.
  rewrite (bind_Ret _ _ _ _ _ (fstatat_nofollow_run _ src)).
  fold w1. rewrite Hsrc, Hdir. cbn [negb]. unfold copy_entry.
  rewrite (bind_Ret _ _ _ _ _ (fstatat_nofollow_run _ src)).
  fold w2. rewrite Hsrc2. cbv zeta. rewrite Hdir.
  destruct (copy_dir_not_made S A X (copy_tree_impl S A X fuel) src dst rs sb
              (st_atim sb, st_mtim sb) a b c d (log (lstat_event src) w2) e')
    as (w3 & Hcd & Hfs & Hf & Hs).
  { exact Hdst. }
  { unfold tr in Hmk. unfold w2, w1. cbn [log w_fault w_trace w_fs].
    rewrite <- !app_assoc. cbn [app] in Hmk |- *. exact Hmk. }
  rewrite (bind_Ret _ _ _ _ _ Hcd).
  rewrite (bind_Ret _ _ _ _ _ (fstatat_nofollow_run w3 dst)).
  destruct (probe_fails w w3 dst Hdst) as (e1 & Hdst1);
    [rewrite Hfs; reflexivity|rewrite Hf; reflexivity|].
  rewrite Hdst1. cbn [is_ok]. rewrite (isdir_not_lnk _ Hdir).
  unfold w2, w1 in Hs, Hfs. cbn [src_orig w_fs log] in Hs, Hfs.
  unfold check_link, mbind, M_bind, get, assert. cbn [src_orig log].
  rewrite Hs, Hso. cbn [is_some].
  eexists. split; [reflexivity|]. simpl. exact Hfs.
Qed.

Lemma copy_root_aborts_when_mkdir_fails_witness :
  exists w',
    copy_tree_impl false false false 1 skel_src nowhere_u2 true false
      ID_UNSET 1001 ID_UNSET 1001 skel_world = Abort w' /\
    w_fs w' = w_fs skel_world.
Proof.
  apply (copy_root_aborts_when_mkdir_fails false false false 0 skel_src nowhere_u2 false
           ID_UNSET 1001 ID_UNSET 1001 skel_world skel_stat ENOENT).
  - reflexivity.
  - vm_compute. reflexivity.
  - vm_compute. reflexivity.
  - vm_compute. reflexivity.
  - vm_compute. reflexivity.
  - left. vm_compute. reflexivity.
  - right. vm_compute. reflexivity.
Defined.

(** ** The files that are there *)

(** [copy_tree] removes nothing and renames nothing: when it returns, with
    whatever result, every file that was there is there, every directory
    has the entries it had, in their order and before any new one, every
    symbolic link has its target, and so every path names the file it
    named. *)
Theorem copy_tree_only_extends (S A X : bool) (fuel : nat) (src_root dst_root : string)
    (copy_root reset_selinux : bool) (old_uid new_uid old_gid new_gid : Z)
    (w : world) (r : Z) (w' : world) :
  copy_tree S A X fuel src_root dst_root copy_root reset_selinux
    old_uid new_uid old_gid new_gid w = Ret r w' ->
  fs_ext (w_fs w) (w_fs w') /\
  forall dirfd path follow id,
    resolve (w_fs w) dirfd path follow = Ok id ->
    resolve (w_fs w') dirfd path follow = Ok id.
Proof.
  intros H. apply keeps_copy_tree_impl in H as (E & _). split; [exact E|].
  intros dirfd path follow id Hr. eapply resolve_ext; eassumption.
Qed.

Lemma copy_tree_only_extends_witness :
  fs_ext (w_fs skel_world)
    (w_fs (final_state skel_world
             (copy_tree false false false 5 "/skel" "/home/newuser" false false
                ID_UNSET 1001 ID_UNSET 1001))) /\
  forall dirfd path follow id,
    resolve (w_fs skel_world) dirfd path follow = Ok id ->
    resolve (w_fs (final_state skel_world
                     (copy_tree false false false 5 "/skel" "/home/newuser" false false
                        ID_UNSET 1001 ID_UNSET 1001))) dirfd path follow = Ok id.
Proof.
  apply (copy_tree_only_extends false false false 5 "/skel" "/home/newuser" false false
           ID_UNSET 1001 ID_UNSET 1001 skel_world 0).
  vm_compute. reflexivity.
Defined.

(** ** The copy of a regular file *)

Lemma fs_open_resolve fs dirfd path directory follow id :
  fs_open fs dirfd path directory follow = Ok id ->
  resolve fs dirfd path follow = Ok id.
Proof.
  unfold fs_open. destruct (resolve fs dirfd path follow) as [id'|e]; simpl; [|discriminate].
  destruct (fs_inode fs id') as [i|e]; simpl; [|discriminate].
  destruct (i_body i); try discriminate; try (intros [= ->]; reflexivity);
    destruct directory; try discriminate; intros [= ->]; reflexivity.
Qed.

Lemma openat_existing_inv dirfd path flags mode w id w' :
  has_flag flags O_CREAT = false ->
  openat dirfd path flags mode w = Ret (Ok id) w' ->
  w' = log (EvOpenat dirfd path flags mode) w /\
  resolve (w_fs w) dirfd path (negb (has_flag flags O_NOFOLLOW)) = Ok id.
Proof.
  intros Hc. unfold openat. rewrite Hc. cbn [andb]. intros H.
  apply syscall_keep_inv in H as (-> & H). split; [reflexivity|].
  destruct (w_fault w _ _); [discriminate|]. symmetry in H.
  eapply fs_open_resolve. exact H.
Qed.

Lemma openat_create_inv dirfd path flags mode w id w' :
  has_flag flags O_CREAT && has_flag flags O_EXCL = true ->
  openat dirfd path flags mode w = Ret (Ok id) w' ->
  fs_create (w_fs w) dirfd path mode (fun _ _ => PReg []) = Ok (id, w_fs w').
Proof.
  intros Hc. unfold openat. rewrite Hc. intros H.
  apply syscall_ok_inv in H as (H & _). apply fs_open_excl_create. exact H.
Qed.

(** An update of one file leaves the others as they are. *)
Lemma fs_update_other fs id f u fs' id' :
  fs_update fs id f = Ok (u, fs') -> id' <> id ->
  fs_inodes fs' !! id' = fs_inodes fs !! id'.
Proof.
  intros H Hne. destruct u. apply fs_update_inv in H as (i & _ & ->). simpl.
  apply lookup_alter_ne. congruence.
Qed.

Lemma fs_update_euid fs id f u fs' :
  fs_update fs id f = Ok (u, fs') -> fs_euid fs' = fs_euid fs /\ fs_egid fs' = fs_egid fs.
Proof.
  intros H. destruct u. apply fs_update_inv in H as (i & _ & ->). auto.
Qed.

Lemma fs_write_inv fs id bytes u fs' :
  fs_write fs id bytes = Ok (u, fs') ->
  exists i data,
    fs_inodes fs !! id = Some i /\ i_body i = PReg data /\
    fs_inodes fs' =
      <[id := set_mtim (now fs) (set_body (PReg (data ++ bytes)) i)]> (fs_inodes fs).
Proof.
  unfold fs_write, fs_inode. destruct (fs_inodes fs !! id) as [i|]; [|discriminate].
  simpl. destruct (i_body i) as [|data| |] eqn:Hb; try discriminate.
  intros [= _ <-]. eauto.
Qed.

Lemma close_inv f w r w' : close f w = Ret r w' -> w' = log (EvClose f) w.
Proof.
  intros H. destruct (close_run f w) as (r' & Hr). rewrite Hr in H.
  injection H as _ <-. reflexivity.
Qed.

Lemma same_attrs_refl i : same_attrs i i.
Proof. repeat split. Qed.

Lemma same_attrs_trans i1 i2 i3 : same_attrs i1 i2 -> same_attrs i2 i3 -> same_attrs i1 i3.
Proof.
  unfold same_attrs. intros (?&?&?&?&?&?&?) (?&?&?&?&?&?&?). repeat split; congruence.
Qed.

Lemma take_length_take {A} (l : list A) (n : nat) :
  take (length (take n l)) l = take n l.
Proof. revert n. induction l as [|x l IH]; intros [|n]; simpl; f_equal; auto. Qed.

Lemma take_take_drop {A} (l : list A) (i n : nat) :
  take i l ++ take n (drop i l) = take (i + length (take n (drop i l))) l.
Proof.
  revert i. induction l as [|x l IH]; intros i.
  - rewrite drop_nil, !take_nil. reflexivity.
  - destruct i as [|i].
    + simpl drop. simpl (take 0 _). simpl app. simpl Nat.add.
      symmetry. apply take_length_take. 
    + simpl. f_equal. apply IH.
Qed.

Lemma take_nil_inv {A} (l : list A) (n : nat) : (0 < n)%nat -> take n l = [] -> l = [].
Proof. destruct n; [lia|]. destruct l; [reflexivity|discriminate]. Qed.

Lemma drop_nil_take {A} (l : list A) (i : nat) : drop i l = [] -> take i l = l.
Proof.
  revert i. induction l as [|x l IH]; intros [|i]; simpl; try reflexivity; try discriminate.
  intros H. f_equal. apply IH. exact H.
Qed.

Lemma is_nil_true {A} (l : list A) : is_nil l = true -> l = [].
Proof. destruct l; [reflexivity|discriminate]. Qed.

(** What [read] returned, when the file has the content [data]. *)
Lemma read_data f offset count w buf w' data :
  read f offset count w = Ret (Ok buf) w' ->
  fs_read (w_fs w) f = Ok data ->
  buf = take count (drop offset data) /\ w' = log (EvRead f offset) w.
Proof.
  unfold read. intros H Hd. apply syscall_keep_inv in H as (-> & H).
  destruct (w_fault w _ _); [discriminate|]. rewrite Hd in H. simpl in H.
  injection H as ->. auto.
Qed.

Lemma read_state f offset count w r w' :
  read f offset count w = Ret r w' -> w' = log (EvRead f offset) w.
Proof. unfold read. intros H. apply syscall_keep_inv in H as (-> & _). reflexivity. Qed.

(** The loop of [copy_file] changes the content and the modification time
    of the output file, and nothing else; when it returns 0, the output
    file, which had the first [offset] bytes of the input, has them
    all. *)
Lemma copy_file_loop_inv fuel ifd ofd :
  forall offset w r w',
    copy_file_loop fuel ifd ofd offset w = Ret r w' ->
    (forall id, id <> ofd -> fs_inodes (w_fs w') !! id = fs_inodes (w_fs w) !! id) /\
    (forall i, fs_inodes (w_fs w) !! ofd = Some i ->
       exists i', fs_inodes (w_fs w') !! ofd = Some i' /\ same_attrs i i' /\
         (forall data, ifd <> ofd -> fs_read (w_fs w) ifd = Ok data ->
            i_body i = PReg (take offset data) -> r = 0 -> i_body i' = PReg data)).
Proof.
  induction fuel as [|fuel IH]; intros offset w r w' H; simpl in H; [discriminate|].
  apply bind_Ret_inv in H as (cnt & w1 & Hread & H).
  pose proof (read_state _ _ _ _ _ _ Hread) as Hw1.
  assert (Hfail : forall w2, w_fs w2 = w_fs w ->
            (close ofd;; close ifd;; mret (-1)) w2 = Ret r w' ->
            (forall id, id <> ofd -> fs_inodes (w_fs w') !! id = fs_inodes (w_fs w) !! id) /\
            (forall i, fs_inodes (w_fs w) !! ofd = Some i ->
               exists i', fs_inodes (w_fs w') !! ofd = Some i' /\ same_attrs i i' /\
                 (forall data, ifd <> ofd -> fs_read (w_fs w) ifd = Ok data ->
                    i_body i = PReg (take offset data) -> r = 0 -> i_body i' = PReg data))).
  { intros w2 Hfs Hc. apply bind_Ret_inv in Hc as (r1 & w3 & H1 & Hc).
    apply bind_Ret_inv in Hc as (r2 & w4 & H2 & [= <- <-]).
    apply close_inv in H1 as ->. apply close_inv in H2 as ->. simpl. rewrite Hfs.
    split; [auto|]. intros i Hi. exists i. split; [exact Hi|].
    split; [apply same_attrs_refl|]. discriminate. }
  destruct cnt as [buf|e].
  - destruct (is_nil buf) eqn:Hnil.
    + injection H as <- <-. subst w1. simpl. split; [auto|].
      intros i Hi. exists i. split; [exact Hi|]. split; [apply same_attrs_refl|].
      intros data Hne Hrd Hb _. rewrite Hb. f_equal.
      destruct (read_data _ _ _ _ _ _ _ Hread Hrd) as (Hbuf & _).
      apply is_nil_true in Hnil. rewrite Hnil in Hbuf. symmetry in Hbuf.
      apply take_nil_inv in Hbuf; [|lia]. apply drop_nil_take. exact Hbuf.
    + apply bind_Ret_inv in H as (wr & w2 & Hwrite & H).
      destruct wr as [u|e]; cbn [is_ok negb] in H.
      * unfold write_full in Hwrite. apply syscall_ok_inv in Hwrite as (Hwrite & _).
        apply fs_write_inv in Hwrite as (i0 & data0 & Hi0 & Hb0 & Hfs2).
        subst w1. simpl in Hi0, Hfs2.
        apply IH in H as (Hother & Hofd).
        split.
        -- intros id Hne. rewrite (Hother id Hne), Hfs2. apply lookup_insert_ne. congruence.
        -- intros i Hi. assert (i0 = i) as -> by congruence.
           destruct (Hofd _ ltac:(rewrite Hfs2; apply lookup_insert_eq))
             as (i' & Hi' & Hattrs & Hdata).
           exists i'. split; [exact Hi'|]. split.
           ++ eapply same_attrs_trans; [|exact Hattrs]. repeat split.
           ++ intros data Hne Hrd Hb Hr. apply Hdata; auto.
              ** unfold fs_read, fs_inode in *. rewrite Hfs2, lookup_insert_ne by congruence.
                 exact Hrd.
              ** simpl. rewrite Hb in Hb0. injection Hb0 as <-.
                 destruct (read_data _ _ _ _ _ _ _ Hread Hrd) as (-> & _).
                 rewrite take_take_drop. reflexivity.
      * apply (Hfail w2); [|exact H].
        unfold write_full in Hwrite. apply syscall_err_inv in Hwrite as ->.
        subst w1. reflexivity.
  - destruct (decide (e = EINTR)).
    + apply IH in H as (Hother & Hofd). subst w1. simpl in *. split; [exact Hother|].
      exact Hofd.
    + apply (Hfail w1); [subst w1; reflexivity|exact H].
Qed.

Lemma fs_read_lookup fs fs' id :
  fs_inodes fs' !! id = fs_inodes fs !! id -> fs_read fs' id = fs_read fs id.
Proof. unfold fs_read, fs_inode. intros ->. reflexivity. Qed.

(** The file [fs_create] makes belongs to the effective user and group;
    the files that are no directories are as they were. *)
Lemma fs_create_new fs dirfd path perm body id fs' :
  fs_create fs dirfd path perm body = Ok (id, fs') ->
  fs_inodes fs !! id = None /\
  (exists i d, fs_inodes fs' !! id = Some i /\ i_body i = body id d /\
     i_perm i = Z.land perm PERM_MASK /\ i_uid i = fs_euid fs /\ i_gid i = fs_egid fs) /\
  (forall id' data, fs_read fs id' = Ok data ->
     fs_inodes fs' !! id' = fs_inodes fs !! id').
Proof.
  unfold fs_create.
  destruct (resolve_parent fs dirfd path) as [[d last]|e]; [|discriminate]. simpl.
  destruct (fs_entries fs d) as [es|e] eqn:He; [|discriminate]. simpl.
  destruct (dir_lookup es last) eqn:Hl; [discriminate|].
  destruct (ends_with_slash path && negb (is_dir_body (body _ d))); [discriminate|].
  destruct (fs_inodes fs !! (fst d, fs_next_ino fs)) eqn:Hi; [discriminate|].
  destruct (referenced fs (fst d, fs_next_ino fs)) eqn:Hr; [discriminate|].
  intros [= <- <-].
  assert (Hd : d <> (fst d, fs_next_ino fs)).
  { intros Heq. unfold fs_entries in He. rewrite <- Heq in Hi. rewrite Hi in He. discriminate. }
  split; [exact Hi|]. split.
  - eexists _, d. simpl. rewrite lookup_alter_ne, lookup_insert_eq by congruence.
    split; [reflexivity|]. simpl. auto.
  - intros id' data Hrd. simpl.
    assert (id' <> d).
    { intros ->. unfold fs_entries in He. unfold fs_read, fs_inode in Hrd.
      destruct (fs_inodes fs !! d) as [di|]; [|discriminate]. simpl in Hrd.
      destruct (i_body di); discriminate. }
    assert (id' <> (fst d, fs_next_ino fs)).
    { intros ->. unfold fs_read, fs_inode in Hrd. rewrite Hi in Hrd. discriminate. }
    rewrite lookup_alter_ne, lookup_insert_ne by congruence. reflexivity.
Qed.

Lemma fchown_ok_inv f uid gid w u w' :
  fchown f uid gid w = Ret (Ok u) w' ->
  fs_update (w_fs w) f (chown_inode uid gid) = Ok (u, w_fs w').
Proof. unfold fchown. intros H. apply syscall_ok_inv in H as (H & _). exact H. Qed.

Lemma fchmod_ok_inv f mode w u w' :
  fchmod f mode w = Ret (Ok u) w' ->
  fs_update (w_fs w) f (set_perm (Z.land mode PERM_MASK)) = Ok (u, w_fs w').
Proof. unfold fchmod. intros H. apply syscall_ok_inv in H as (H & _). exact H. Qed.

Lemma error_acl_fs e w en w' : error_acl e w = Ret en w' -> w_fs w' = w_fs w.
Proof.
  unfold error_acl. destruct (decide (ENOTSUP = e)); [intros [= _ <-]; reflexivity|].
  intros H. apply bind_Ret_inv in H as ([] & w1 & [= <-] & [= _ <-]). reflexivity.
Qed.

(** The ACL step on two descriptors, when it lets the copy go on: the
    access control list was copied, or nothing was done. *)
Lemma perm_copy_fd_pass (A : bool) ifd ofd w w' :
  (if A then failed_with_errno (perm_copy_fd ifd ofd) else mret false) w = Ret false w' ->
  w_fs w' = w_fs w \/ (A = true /\ fs_perm_copy (w_fs w) ifd ofd = Ok (tt, w_fs w')).
Proof.
  destruct A; [|intros [= <-]; auto].
  unfold failed_with_errno, perm_copy_fd. intros H.
  apply bind_Ret_inv in H as ([r en] & w1 & H & [= _ <-]).
  apply bind_Ret_inv in H as (res & w2 & Hs & H). destruct res as [[]|e].
  - injection H as _ _ <-. apply syscall_ok_inv in Hs as (Hs & _). auto.
  - apply syscall_err_inv in Hs as ->.
    apply bind_Ret_inv in H as (en' & w3 & He & [= _ _ <-]).
    apply error_acl_fs in He. auto.
Qed.

Lemma attr_copy_fd_pass (X : bool) ifd ofd w w' :
  (if X then failed_with_errno (attr_copy_fd ifd ofd) else mret false) w = Ret false w' ->
  w_fs w' = w_fs w \/ fs_attr_copy (w_fs w) ifd ofd = Ok (tt, w_fs w').
Proof.
  destruct X; [|intros [= <-]; auto].
  unfold failed_with_errno, attr_copy_fd. intros H.
  apply bind_Ret_inv in H as ([r en] & w1 & H & [= _ <-]).
  apply bind_Ret_inv in H as (res & w2 & Hs & H). destruct res as [[]|e].
  - injection H as _ _ <-. apply syscall_ok_inv in Hs as (Hs & _). auto.
  - apply syscall_err_inv in Hs as ->.
    apply bind_Ret_inv in H as (en' & w3 & He & [= _ _ <-]).
    apply error_acl_fs in He. auto.
Qed.

Lemma fs_perm_copy_inv fs s d u fs' :
  fs_perm_copy fs s d = Ok (u, fs') ->
  exists si,
    fs_update fs d (fun di =>
      set_acl (i_acl si)
        (set_perm (Z.lor (Z.land (i_perm di) (Z.lxor PERM_MASK MODE_0777))
                         (Z.land (i_perm si) MODE_0777)) di)) = Ok (u, fs').
Proof.
  unfold fs_perm_copy. destruct (fs_inode fs s) as [si|e]; simpl; [|discriminate]. eauto.
Qed.

Lemma fs_attr_copy_inv fs s d u fs' :
  fs_attr_copy fs s d = Ok (u, fs') ->
  exists si, fs_update fs d (set_xattr (i_xattr si)) = Ok (u, fs').
Proof.
  unfold fs_attr_copy. destruct (fs_inode fs s) as [si|e]; simpl; [|discriminate]. eauto.
Qed.

Lemma attr_step_on_update ofd f fs u fs' :
  (forall i, i_body (f i) = i_body i) ->
  fs_update fs ofd f = Ok (u, fs') ->
  attr_step_on ofd (fun i i' => i' = f i) fs fs'.
Proof.
  intros Hf H. split; [|split].
  - intros i Hi. destruct (fs_update_lookup _ _ _ _ _ H) as (i0 & Hi0 & Hi').
    exists (f i). split; [|reflexivity]. congruence.
  - intros id Hne. eapply fs_update_other; eassumption.
  - eapply fs_update_ext; eassumption.
Qed.

Lemma attr_step_on_same ofd (P : inode -> inode -> Prop) fs fs' :
  (forall i, P i i) -> fs' = fs -> attr_step_on ofd P fs fs'.
Proof.
  intros HP ->. split; [|split].
  - intros i Hi. eauto.
  - reflexivity.
  - apply fs_ext_refl.
Qed.

Lemma attr_step_on_weaken ofd (P Q : inode -> inode -> Prop) fs fs' :
  (forall i i', P i i' -> Q i i') -> attr_step_on ofd P fs fs' -> attr_step_on ofd Q fs fs'.
Proof.
  intros HPQ (H1 & H2 & H3). split; [|auto].
  intros i Hi. destruct (H1 i Hi) as (i' & Hi' & HP). eauto.
Qed.

Lemma land_07000_perm_copy p s :
  Z.land (Z.lor (Z.land p (Z.lxor PERM_MASK MODE_0777)) (Z.land s MODE_0777)) MODE_07000 =
  Z.land p MODE_07000.
Proof.
  rewrite Z.land_lor_distr_l, <- !Z.land_assoc.
  change (Z.land (Z.lxor PERM_MASK MODE_0777) MODE_07000) with MODE_07000.
  change (Z.land MODE_0777 MODE_07000) with 0.
  rewrite Z.land_0_r, Z.lor_0_r. reflexivity.
Qed.

Lemma meta_kept_refl A i : meta_kept A i i.
Proof. repeat split. Qed.

Lemma acl_step_on (A : bool) ifd ofd w w' :
  (if A then failed_with_errno (perm_copy_fd ifd ofd) else mret false) w = Ret false w' ->
  attr_step_on ofd (meta_kept A) (w_fs w) (w_fs w').
Proof.
  intros H. apply perm_copy_fd_pass in H as [H|(-> & H)].
  - apply attr_step_on_same; [apply meta_kept_refl|exact H].
  - apply fs_perm_copy_inv in H as (si & H).
    eapply attr_step_on_weaken; [|eapply attr_step_on_update; [|exact H]; reflexivity].
    intros i i' ->. split; [reflexivity|]. split; [reflexivity|]. split; [reflexivity|].
    split; [apply land_07000_perm_copy|discriminate].
Qed.

Lemma xattr_step_on (A X : bool) ifd ofd w w' :
  (if X then failed_with_errno (attr_copy_fd ifd ofd) else mret false) w = Ret false w' ->
  attr_step_on ofd (meta_kept A) (w_fs w) (w_fs w').
Proof.
  intros H. apply attr_copy_fd_pass in H as [H|H].
  - apply attr_step_on_same; [apply meta_kept_refl|exact H].
  - apply fs_attr_copy_inv in H as (si & H).
    eapply attr_step_on_weaken; [|eapply attr_step_on_update; [|exact H]; reflexivity].
    intros i i' ->. repeat split.
Qed.

Lemma utimensat_ok_update dirfd path mt w u w' :
  utimensat dirfd path mt AT_SYMLINK_NOFOLLOW w = Ret (Ok u) w' ->
  exists id,
    resolve (w_fs w) dirfd path false = Ok id /\
    fs_update (w_fs w) id (set_times (fst mt) (snd mt)) = Ok (u, w_fs w').
Proof.
  unfold utimensat. intros H. apply syscall_ok_inv in H as (H & _).
  unfold fs_utimensat in H. change (follows AT_SYMLINK_NOFOLLOW) with false in H.
  destruct (resolve (w_fs w) dirfd path false) as [id|e]; simpl in H; [|discriminate].
  eauto.
Qed.

Lemma copy_file_ok_inv S A X fuel src dst rs statp mt a b c d w w' :
  copy_file S A X fuel src dst rs statp mt a b c d w = Ret 0 w' ->
  exists ifd ofd i,
    resolve (w_fs w) (dirfd src) (name src) false = Ok ifd /\
    fs_inodes (w_fs w) !! ofd = None /\
    resolve (w_fs w') (dirfd dst) (name dst) false = Ok ofd /\
    fs_inodes (w_fs w') !! ofd = Some i /\
    i_uid i = owner_after (remap_spec a b (st_uid statp)) (fs_euid (w_fs w)) /\
    i_gid i = owner_after (remap_spec c d (st_gid statp)) (fs_egid (w_fs w)) /\
    Z.land (i_perm i) MODE_07000 = Z.land (st_mode statp) MODE_07000 /\
    (A = false -> i_perm i = Z.land (st_mode statp) PERM_MASK) /\
    (forall data, fs_read (w_fs w) ifd = Ok data ->
       i_body i = PReg data /\ fs_read (w_fs w') ifd = Ok data).
Proof.
  intros H. unfold copy_file in H.
  apply bind_Ret_inv in H as (rifd & w1 & Hopen & H).
  destruct rifd as [ifd|e]; [|discriminate].
  apply openat_existing_inv in Hopen as (-> & Hifd); [|reflexivity].
  change (negb (has_flag (Z.lor (Z.lor O_RDONLY O_NOFOLLOW) O_CLOEXEC) O_NOFOLLOW))
    with false in Hifd.
  apply bind_Ret_inv in H as (sel & w2 & Hsel & H).
  apply (selinux_step_inv S (full_path dst) S_IFREG) in Hsel as (Hfs2 & _).
  destruct sel.
  { apply bind_Ret_inv in H as (? & ? & _ & H). discriminate. }
  apply bind_Ret_inv in H as (rofd & w3 & Hcreate & H).
  destruct rofd as [ofd|e].
  2:{ apply bind_Ret_inv in H as (? & ? & _ & H). discriminate. }
  apply openat_create_inv in Hcreate; [|reflexivity].
  rewrite Hfs2 in Hcreate. cbn [w_fs log] in Hcreate.
  pose proof (fs_create_ext _ _ _ _ _ _ _ Hcreate) as E3.
  destruct (fs_create_resolve _ _ _ _ _ _ _ Hcreate) as (Hres3 & _).
  destruct (fs_create_new _ _ _ _ _ _ _ Hcreate)
    as (Hfresh & (i0 & d0 & Hi0 & Hb0 & Hp0 & Hu0 & Hg0) & Hreg3).
  apply bind_Ret_inv in H as (bad & w7 & Hsteps & H).
  destruct bad.
  { apply bind_Ret_inv in H as (? & ? & _ & H).
    apply bind_Ret_inv in H as (? & ? & _ & H). discriminate. }
  apply orelse_false_inv in Hsteps as (w6 & Hsteps & Hattr).
  apply orelse_false_inv in Hsteps as (w5 & Hsteps & Hacl).
  apply orelse_false_inv in Hsteps as (w4 & Hchown & Hchmod).
  apply failed_false_inv in Hchown as (u4 & Hchown).
  apply failed_false_inv in Hchmod as (u5 & Hchmod).
  unfold fchown_if_needed, def_chown_if_needed in Hchown.
  rewrite !remap_chain in Hchown.
  apply fchown_ok_inv in Hchown. apply fchmod_ok_inv in Hchmod.
  apply attr_step_on_update in Hchown as (S4 & O4 & E4); [|reflexivity].
  apply attr_step_on_update in Hchmod as (S5 & O5 & E5); [|reflexivity].
  apply acl_step_on in Hacl as (S6 & O6 & E6).
  apply (xattr_step_on A) in Hattr as (S7 & O7 & E7).
  destruct (S4 _ Hi0) as (i4 & Hi4 & ->).
  destruct (S5 _ Hi4) as (i5 & Hi5 & ->).
  destruct (S6 _ Hi5) as (i6 & Hi6 & M6).
  destruct (S7 _ Hi6) as (i7 & Hi7 & M7).
  apply bind_Ret_inv in H as (r & w8 & Hloop & H).
  destruct (Z.eqb_spec r 0) as [->|Hr]; cbn [negb] in H.
  2:{ injection H as H _. contradiction. }
  pose proof (keeps_copy_file_loop _ _ _ _ _ _ _ Hloop) as (E8 & _).
  apply copy_file_loop_inv in Hloop as (O8 & S8).
  destruct (S8 _ Hi7) as (i8 & Hi8 & A8 & B8).
  apply bind_Ret_inv in H as (c1 & w9 & Hc1 & H). apply close_inv in Hc1 as ->.
  apply bind_Ret_inv in H as (c2 & w10 & Hc2 & H). apply close_inv in Hc2 as ->.
  destruct (match c2 with Ok _ => false | Err e => bool_decide (e <> EINTR) end);
    [discriminate|].
  apply bind_Ret_inv in H as (u & w11 & Hut & H).
  destruct u as [u|e]; [|discriminate]. injection H as <-.
  apply utimensat_ok_update in Hut as (id & Hid & Hut). cbn [w_fs log] in Hid, Hut.
  assert (Hres8 : resolve (w_fs w8) (dirfd dst) (name dst) false = Ok ofd).
  { eapply resolve_ext; [|exact Hres3].
    eapply fs_ext_trans; [exact E4|]. eapply fs_ext_trans; [exact E5|].
    eapply fs_ext_trans; [exact E6|]. eapply fs_ext_trans; [exact E7|exact E8]. }
  assert (id = ofd) as -> by congruence.
  apply attr_step_on_update in Hut as (S11 & O11 & E11); [|reflexivity].
  destruct (S11 _ Hi8) as (i11 & Hi11 & ->).
  destruct M6 as (U6 & G6 & B6 & P6 & Q6), M7 as (U7 & G7 & B7 & P7 & Q7).
  destruct A8 as (P8 & _ & U8 & G8 & _).
  exists ifd, ofd, (set_times (fst mt) (snd mt) i8).
  split; [exact Hifd|]. split; [exact Hfresh|].
  split; [eapply resolve_ext; [exact E11|exact Hres8]|].
  split; [exact Hi11|]. cbn [i_uid i_gid i_perm i_body set_times].
  split; [rewrite U8, U7, U6; unfold chown_inode, owner_after; cbn; rewrite Hu0; reflexivity|].
  split; [rewrite G8, G7, G6; unfold chown_inode, owner_after; cbn; rewrite Hg0; reflexivity|].
  split.
  { rewrite P8, P7, P6. cbn. rewrite <- !Z.land_assoc. reflexivity. }
  split.
  { intros HA. rewrite P8, (Q7 HA), (Q6 HA). cbn. rewrite <- Z.land_assoc. reflexivity. }
  intros data Hrd.
  assert (Hne : ifd <> ofd).
  { intros ->. unfold fs_read, fs_inode in Hrd. rewrite Hfresh in Hrd. discriminate. }
  assert (Hrd7 : fs_read (w_fs w7) ifd = Ok data).
  { rewrite <- Hrd. apply fs_read_lookup.
    rewrite (O7 _ Hne), (O6 _ Hne), (O5 _ Hne), (O4 _ Hne). eapply Hreg3. exact Hrd. }
  split.
  - apply B8; auto. rewrite B7, B6. cbn. exact Hb0.
  - rewrite <- Hrd7. apply fs_read_lookup. rewrite (O11 _ Hne). apply O8. exact Hne.
Qed.

(** When [copy_file] returns 0, the destination names a file that was not
    there before and that holds the bytes of the source, which itself has
    them still. *)
Theorem copy_file_content (S A X : bool) (fuel : nat) (src dst : path_info)
    (reset_selinux : bool) (statp : stat) (mt : timespec * timespec)
    (old_uid new_uid old_gid new_gid : Z) (w w' : world)
    (ifd : fileid) (data : list Byte.byte) :
  resolve (w_fs w) (dirfd src) (name src) false = Ok ifd ->
  fs_read (w_fs w) ifd = Ok data ->
  copy_file S A X fuel src dst reset_selinux statp mt
    old_uid new_uid old_gid new_gid w = Ret 0 w' ->
  exists ofd,
    fs_inodes (w_fs w) !! ofd = None /\
    resolve (w_fs w') (dirfd dst) (name dst) false = Ok ofd /\
    fs_read (w_fs w') ofd = Ok data /\
    fs_read (w_fs w') ifd = Ok data.
Proof.
  intros Hifd Hrd H.
  apply copy_file_ok_inv in H
    as (ifd' & ofd & i & Hifd' & Hfresh & Hres & Hi & _ & _ & _ & _ & Hdata).
  assert (ifd' = ifd) as -> by congruence.
  destruct (Hdata _ Hrd) as (Hb & Hrd').
  exists ofd. split; [exact Hfresh|]. split; [exact Hres|]. split; [|exact Hrd'].
  unfold fs_read, fs_inode. rewrite Hi. simpl. rewrite Hb. reflexivity.
Qed.

Lemma copy_file_content_witness :
  exists ofd,
    fs_inodes (w_fs skel_walk) !! ofd = None /\
    resolve (w_fs (final_state skel_walk copy_bashrc)) (FD (1, 4)) ".bashrc" false = Ok ofd /\
    fs_read (w_fs (final_state skel_walk copy_bashrc)) ofd = Ok [Byte.x68; Byte.x69] /\
    fs_read (w_fs (final_state skel_walk copy_bashrc)) (1, 10) = Ok [Byte.x68; Byte.x69].
Proof.
  apply (copy_file_content false false false 3 (skel_entry ".bashrc")
           (newuser_entry ".bashrc") false bashrc_stat (at_time 5, at_time 6)
           ID_UNSET 1001 ID_UNSET 1001 skel_walk (final_state skel_walk copy_bashrc)
           (1, 10) [Byte.x68; Byte.x69]).
  - vm_compute. reflexivity.
  - vm_compute. reflexivity.
  - vm_compute. reflexivity.
Defined.

Lemma stat_mode_0777 id i :
  Z.land (st_mode (stat_of id i)) MODE_0777 = Z.land (i_perm i) MODE_0777.
Proof.
  simpl. rewrite Z.land_lor_distr_l, <- Z.land_assoc.
  change (Z.land PERM_MASK MODE_0777) with MODE_0777.
  destruct (i_body i) as [| | |[]]; reflexivity.
Qed.

Lemma land_perm_0777 m : Z.land (Z.land m PERM_MASK) MODE_0777 = Z.land m MODE_0777.
Proof. rewrite <- Z.land_assoc. reflexivity. Qed.

(** What [lstat] says of a file that a path names. *)
Lemma lstat_in_lookup w p id i :
  resolve (w_fs w) (dirfd p) (name p) false = Ok id ->
  fs_inodes (w_fs w) !! id = Some i ->
  lstat_in w p = Some (stat_of id i).
Proof.
  intros Hr Hi. unfold lstat_in, fs_stat, fs_inode. rewrite Hr. simpl. rewrite Hi. reflexivity.
Qed.

(** When [copy_file] returns 0, the new file has the owner and the group
    the remap law gives (the new id where the old id is unset or is the
    owner of the source, and the new id is set; the owner of the source
    otherwise), and, built without ACLs, the nine permission bits of the
    source mode. *)
Theorem copy_file_attributes (S A X : bool) (fuel : nat) (src dst : path_info)
    (reset_selinux : bool) (statp : stat) (mt : timespec * timespec)
    (old_uid new_uid old_gid new_gid : Z) (w w' : world) :
  copy_file S A X fuel src dst reset_selinux statp mt
    old_uid new_uid old_gid new_gid w = Ret 0 w' ->
  exists sb,
    lstat_in w' dst = Some sb /\
    remap_law old_uid new_uid (st_uid statp) (st_uid sb) /\
    remap_law old_gid new_gid (st_gid statp) (st_gid sb) /\
    (A = false -> Z.land (st_mode sb) MODE_0777 = Z.land (st_mode statp) MODE_0777).
Proof.
  intros H.
  apply copy_file_ok_inv in H
    as (ifd & ofd & i & _ & _ & Hres & Hi & Hu & Hg & _ & Hperm & _).
  exists (stat_of ofd i). split; [exact (lstat_in_lookup _ _ _ _ Hres Hi)|].
  cbn [st_uid st_gid stat_of].
  split; [rewrite Hu; apply remap_law_owner|].
  split; [rewrite Hg; apply remap_law_owner|].
  intros HA. rewrite stat_mode_0777, (Hperm HA). apply land_perm_0777.
Qed.

Lemma copy_file_attributes_witness :
  exists sb,
    lstat_in (final_state skel_walk copy_bashrc) (newuser_entry ".bashrc") = Some sb /\
    remap_law ID_UNSET 1001 (st_uid bashrc_stat) (st_uid sb) /\
    remap_law ID_UNSET 1001 (st_gid bashrc_stat) (st_gid sb) /\
    (false = false -> Z.land (st_mode sb) MODE_0777 = Z.land (st_mode bashrc_stat) MODE_0777).
Proof.
  apply (copy_file_attributes false false false 3 (skel_entry ".bashrc")
           (newuser_entry ".bashrc") false bashrc_stat (at_time 5, at_time 6)
           ID_UNSET 1001 ID_UNSET 1001 skel_walk (final_state skel_walk copy_bashrc)).
  vm_compute. reflexivity.
Defined.

(** ** Files that are left alone *)

Lemma inode_kept_refl i : inode_kept i i.
Proof.
  unfold inode_kept. repeat split; try reflexivity.
  destruct (i_body i); auto. exists []. rewrite app_nil_r. reflexivity.
Qed.

Lemma inode_kept_trans i1 i2 i3 : inode_kept i1 i2 -> inode_kept i2 i3 -> inode_kept i1 i3.
Proof.
  unfold inode_kept. intros (P1 & U1 & G1 & C1 & X1 & B1) (P2 & U2 & G2 & C2 & X2 & B2).
  repeat split; try congruence.
  destruct (i_body i1) as [es|data|t|k r].
  - destruct B1 as (e1 & B1). rewrite B1 in B2. destruct B2 as (e2 & B2).
    exists (e1 ++ e2). rewrite B2, app_assoc. reflexivity.
  - destruct B1 as (B1 & M1). rewrite B1 in B2. destruct B2 as (B2 & M2). split; congruence.
  - destruct B1 as (B1 & M1). rewrite B1 in B2. destruct B2 as (B2 & M2). split; congruence.
  - destruct B1 as (B1 & M1). rewrite B1 in B2. destruct B2 as (B2 & M2). split; congruence.
Qed.

Lemma files_kept_refl fs : files_kept fs fs.
Proof. split; [apply fs_ext_refl|]. intros id i Hi. exists i. split; [exact Hi|apply inode_kept_refl]. Qed.

Lemma files_kept_trans fs1 fs2 fs3 : files_kept fs1 fs2 -> files_kept fs2 fs3 -> files_kept fs1 fs3.
Proof.
  intros (E1 & K1) (E2 & K2). split; [eapply fs_ext_trans; eassumption|].
  intros id i Hi. destruct (K1 id i Hi) as (i2 & Hi2 & H12).
  destruct (K2 id i2 Hi2) as (i3 & Hi3 & H23). exists i3. split; [exact Hi3|].
  eapply inode_kept_trans; eassumption.
Qed.

Lemma world_files_kept_refl w : world_files_kept w w.
Proof. apply files_kept_refl. Qed.

Lemma world_files_kept_trans w1 w2 w3 :
  world_files_kept w1 w2 -> world_files_kept w2 w3 -> world_files_kept w1 w3.
Proof. apply files_kept_trans. Qed.

Lemma inode_kept_nlink n i : inode_kept i (set_nlink n i).
Proof.
  unfold inode_kept. cbn. repeat split.
  destruct (i_body i); auto. exists []. rewrite app_nil_r. reflexivity.
Qed.

Lemma inode_kept_add_dirent t nm id sub i : inode_kept i (add_dirent t nm id sub i).
Proof.
  unfold add_dirent. destruct (i_body i) as [es| | |] eqn:Hb; try apply inode_kept_refl.
  unfold inode_kept. cbn. rewrite Hb. repeat split. eauto.
Qed.

Lemma tidy_keep {A} (op : filesys -> result A) : tidy (keep op).
Proof.
  intros fs a fs'. unfold keep. destruct (op fs); simpl; [|discriminate].
  intros [= _ <-]. apply files_kept_refl.
Qed.

Lemma tidy_id {A} (a : A) : tidy (fun fs => Ok (a, fs)).
Proof. intros fs a' fs' [= _ <-]. apply files_kept_refl. Qed.

Lemma tidy_create dirfd path perm body :
  tidy (fun fs => fs_create fs dirfd path perm body).
Proof.
  intros fs id fs' H. split; [eapply fs_create_ext; exact H|].
  apply fs_create_inv in H
    as (d & last & es & i & Hp & He & Hl & Hid & Hfree & Hunref & Hb & _ & ->).
  intros id' i' Hi'. simpl. rewrite lookup_alter.
  assert (id' <> id) by congruence.
  destruct (decide (d = id')) as [<-|Hne].
  - rewrite lookup_insert_ne, Hi' by congruence. simpl.
    eexists. split; [reflexivity|]. apply inode_kept_add_dirent.
  - rewrite lookup_insert_ne by congruence.
    exists i'. split; [exact Hi'|apply inode_kept_refl].
Qed.

Lemma tidy_drop_id (op : filesys -> result (fileid * filesys)) :
  tidy op -> tidy (fun fs => rbind (op fs) (fun r => Ok (tt, snd r))).
Proof.
  intros Hop fs a fs'. destruct (op fs) as [[id fs1]|e] eqn:Ho; simpl; [|discriminate].
  intros [= _ <-]. eapply Hop. exact Ho.
Qed.

Lemma tidy_mknodat dirfd path mode dev :
  tidy (fun fs => fs_mknodat fs dirfd path mode dev).
Proof.
  intros fs a fs'. unfold fs_mknodat.
  repeat match goal with |- context [if ?b then _ else _] => destruct b end;
    try discriminate; apply tidy_create.
Qed.

Lemma tidy_symlinkat target dirfd path :
  tidy (fun fs => fs_symlinkat fs target dirfd path).
Proof.
  intros fs a fs'. unfold fs_symlinkat.
  destruct (String.eqb target ""); [discriminate|]. apply tidy_create.
Qed.

Lemma tidy_linkat olddirfd oldpath newdirfd newpath follow :
  tidy (fun fs => fs_linkat fs olddirfd oldpath newdirfd newpath follow).
Proof.
  intros fs u fs' H. split; [eapply fs_linkat_ext; exact H|].
  unfold fs_linkat in H.
  destruct (resolve fs olddirfd oldpath follow) as [id|e]; [|discriminate]. simpl in H.
  destruct (fs_inode fs id) as [i|e]; [|discriminate]. simpl in H.
  destruct (is_dir_body (i_body i)); [discriminate|].
  destruct (resolve_parent fs newdirfd newpath) as [[d last]|e]; [|discriminate]. simpl in H.
  destruct (fs_entries fs d) as [es|e]; [|discriminate]. simpl in H.
  destruct (negb (fst d =? fst id)); [discriminate|].
  destruct (dir_lookup es last); [discriminate|].
  destruct (ends_with_slash newpath); [discriminate|].
  injection H as _ <-. intros id' i' Hi'. simpl. rewrite !lookup_alter.
  repeat case_decide; subst; rewrite ?Hi'; simpl;
    (eexists; split; [reflexivity|]);
    first [ apply inode_kept_refl
          | apply inode_kept_add_dirent
          | apply inode_kept_nlink
          | eapply inode_kept_trans; [apply inode_kept_nlink|apply inode_kept_add_dirent] ].
Qed.

Lemma tidy_openat dirfd path flags mode :
  tidy (fun fs =>
          if has_flag flags O_CREAT && has_flag flags O_EXCL
          then fs_open_excl fs dirfd path mode
          else keep (fun fs => fs_open fs dirfd path (has_flag flags O_DIRECTORY)
                                 (negb (has_flag flags O_NOFOLLOW))) fs).
Proof.
  intros fs a fs'. destruct (has_flag flags O_CREAT && has_flag flags O_EXCL).
  - intros H. apply fs_open_excl_create in H. eapply tidy_create. exact H.
  - apply tidy_keep.
Qed.

Lemma keeps_tidy_syscall {A} ev (op : filesys -> result (A * filesys)) :
  tidy op -> keeps world_files_kept (syscall ev op).
Proof.
  intros Hop w r w' H. apply syscall_inv in H as (_ & _ & _ & _ & _ & Hr).
  destruct Hr as [(e & _ & Hfs)|(a & _ & _ & Ho)].
  - unfold world_files_kept. rewrite Hfs. apply files_kept_refl.
  - eapply Hop. exact Ho.
Qed.

Lemma keeps_tidy_modify (f : world -> world) :
  (forall w, w_fs (f w) = w_fs w) -> keeps world_files_kept (modify f).
Proof.
  intros Hf. apply keeps_modify. intros w. unfold world_files_kept. rewrite Hf.
  apply files_kept_refl.
Qed.

Create HintDb tidy discriminated.

#[local] Hint Resolve tidy_keep tidy_id tidy_create tidy_drop_id tidy_mknodat
  tidy_symlinkat tidy_linkat tidy_openat : tidy.

Ltac tidy_step :=
  lazymatch goal with
  | |- keeps _ (mbind _ _) => apply (keeps_bind _ world_files_kept_trans); [|intros ?]
  | |- keeps _ (mret _) => apply (keeps_ret _ world_files_kept_refl)
  | |- keeps _ (get _) => apply (keeps_get _ world_files_kept_refl)
  | |- keeps _ (assert _) => apply (keeps_assert _ world_files_kept_refl)
  | |- keeps _ (fun w => Abort w) => apply keeps_abort
  | |- keeps _ out_of_fuel => apply keeps_out_of_fuel
  | |- keeps _ (modify _) => apply keeps_tidy_modify; reflexivity
  | |- keeps _ (syscall _ _) => apply keeps_tidy_syscall; solve [auto with tidy]
  | |- keeps _ (match ?x with _ => _ end) => destruct x
  | |- keeps _ (let _ := _ in _) => cbv zeta
  end.

Ltac tidy_all := unfold_calls; repeat first [ assumption | solve [auto] | tidy_step ].

Lemma keeps_tidy_check_link nm sb : keeps world_files_kept (check_link nm sb).
Proof. unfold check_link. tidy_all. Qed.

Lemma keeps_tidy_copy_hardlink dst rs lp : keeps world_files_kept (copy_hardlink dst rs lp).
Proof. unfold copy_hardlink, remove_link. tidy_all. Qed.

(** *** A strategy that has made its destination *)

Lemma anchor_kept_refl fs0 id p w : anchor_kept fs0 id p w w.
Proof. intros H. exact H. Qed.

Lemma anchor_kept_trans fs0 id p w1 w2 w3 :
  anchor_kept fs0 id p w1 w2 -> anchor_kept fs0 id p w2 w3 -> anchor_kept fs0 id p w1 w3.
Proof. unfold anchor_kept. auto. Qed.

Lemma anchor_op_tidy fs0 id p {A} (op : filesys -> result (A * filesys)) :
  tidy op -> anchor_op fs0 id p op.
Proof.
  intros Hop fs a fs' H (K & R). apply Hop in H. split.
  - eapply files_kept_trans; eassumption.
  - eapply resolve_ext; [apply H|exact R].
Qed.

Section anchor.
Variables (fs0 : filesys) (id : fileid) (p : path_info).
Hypothesis Hfresh : fs_inodes fs0 !! id = None.

(** A change of the attributes of the new file leaves the files of [fs0]
    as they are. *)
Lemma anchored_update fs f u fs' :
  (forall i, i_body (f i) = i_body i) ->
  fs_update fs id f = Ok (u, fs') ->
  anchored fs0 id p fs -> anchored fs0 id p fs'.
Proof.
  intros Hf H ((E & K) & R). pose proof (fs_update_ext _ _ _ _ _ Hf H) as E'.
  split; [split|].
  - eapply fs_ext_trans; eassumption.
  - intros id0 i Hi. destruct (K id0 i Hi) as (i' & Hi' & Hk). exists i'.
    split; [|exact Hk]. rewrite <- Hi'. eapply fs_update_other; [exact H|]. congruence.
  - eapply resolve_ext; eassumption.
Qed.

Lemma anchor_op_fchown uid gid : anchor_op fs0 id p (fun fs => fs_fchown fs id uid gid).
Proof. intros fs u fs' H. eapply anchored_update; [|exact H]. reflexivity. Qed.

Lemma anchor_op_fchmod mode : anchor_op fs0 id p (fun fs => fs_fchmod fs id mode).
Proof. intros fs u fs' H. eapply anchored_update; [|exact H]. reflexivity. Qed.

Lemma anchor_op_fchownat uid gid :
  anchor_op fs0 id p
    (fun fs => fs_fchownat fs (dirfd p) (name p) uid gid (follows AT_SYMLINK_NOFOLLOW)).
Proof.
  intros fs u fs' H Ha. unfold fs_fchownat in H.
  change (follows AT_SYMLINK_NOFOLLOW) with false in H.
  rewrite (proj2 Ha) in H. simpl in H. eapply anchored_update; [|exact H|exact Ha].
  reflexivity.
Qed.

Lemma anchor_op_fchmodat mode :
  anchor_op fs0 id p
    (fun fs => fs_fchmodat fs (dirfd p) (name p) mode (follows AT_SYMLINK_NOFOLLOW)).
Proof.
  intros fs u fs' H Ha. unfold fs_fchmodat in H.
  change (follows AT_SYMLINK_NOFOLLOW) with false in H.
  rewrite (proj2 Ha) in H. simpl in H. destruct (link_target fs id); [discriminate|].
  eapply anchored_update; [|exact H|exact Ha]. reflexivity.
Qed.

Lemma anchor_op_utimensat mt :
  anchor_op fs0 id p
    (fun fs => fs_utimensat fs (dirfd p) (name p) mt (follows AT_SYMLINK_NOFOLLOW)).
Proof.
  intros fs u fs' H Ha. unfold fs_utimensat in H.
  change (follows AT_SYMLINK_NOFOLLOW) with false in H.
  rewrite (proj2 Ha) in H. simpl in H. eapply anchored_update; [|exact H|exact Ha].
  reflexivity.
Qed.

Lemma anchor_op_perm_copy s : anchor_op fs0 id p (fun fs => fs_perm_copy fs s id).
Proof.
  intros fs u fs' H. apply fs_perm_copy_inv in H as (si & H).
  eapply anchored_update; [|exact H]. reflexivity.
Qed.

Lemma anchor_op_attr_copy s : anchor_op fs0 id p (fun fs => fs_attr_copy fs s id).
Proof.
  intros fs u fs' H. apply fs_attr_copy_inv in H as (si & H).
  eapply anchored_update; [|exact H]. reflexivity.
Qed.

Lemma anchor_op_write bytes : anchor_op fs0 id p (fun fs => fs_write fs id bytes).
Proof.
  intros fs u fs' H ((E & K) & R). pose proof (fs_write_ext _ _ _ _ _ H) as E'.
  apply fs_write_inv in H as (i0 & data & _ & _ & Hfs).
  split; [split|].
  - eapply fs_ext_trans; eassumption.
  - intros id0 i Hi. destruct (K id0 i Hi) as (i' & Hi' & Hk). exists i'.
    split; [|exact Hk]. rewrite Hfs, lookup_insert_ne by congruence. exact Hi'.
  - eapply resolve_ext; eassumption.
Qed.

Lemma keeps_anchor_syscall {A} ev (op : filesys -> result (A * filesys)) :
  anchor_op fs0 id p op -> keeps (anchor_kept fs0 id p) (syscall ev op).
Proof.
  intros Hop w r w' H Ha. apply syscall_inv in H as (_ & _ & _ & _ & _ & Hr).
  destruct Hr as [(e & _ & Hfs)|(a & _ & _ & Ho)].
  - rewrite Hfs. exact Ha.
  - eapply Hop; eassumption.
Qed.

Lemma keeps_anchor_tidy {A} (m : M A) :
  keeps world_files_kept m -> keeps (anchor_kept fs0 id p) m.
Proof.
  intros Hm w r w' H (K & R). apply Hm in H. split.
  - eapply files_kept_trans; eassumption.
  - eapply resolve_ext; [apply H|exact R].
Qed.

(** A descriptor opened for the destination is the new file. *)
Lemma keeps_anchor_bind_open {B} flags mode (f : result fileid -> M B) :
  has_flag flags O_CREAT = false -> has_flag flags O_NOFOLLOW = true ->
  keeps (anchor_kept fs0 id p) (f (Ok id)) ->
  (forall e, keeps (anchor_kept fs0 id p) (f (Err e))) ->
  keeps (anchor_kept fs0 id p) (openat (dirfd p) (name p) flags mode ≫= f).
Proof.
  intros Hc Hn Hok Herr w b w' H Ha. apply bind_Ret_inv in H as (r & w1 & Ho & H).
  destruct r as [id'|e].
  - apply openat_existing_inv in Ho as (-> & Hr); [|exact Hc]. rewrite Hn in Hr.
    simpl in Hr. rewrite (proj2 Ha) in Hr. injection Hr as <-.
    eapply Hok; [exact H|exact Ha].
  - unfold openat in Ho. apply syscall_err_inv in Ho as ->.
    eapply Herr; [exact H|exact Ha].
Qed.
End anchor.

Create HintDb anchor discriminated.

#[local] Hint Resolve anchor_op_fchown anchor_op_fchmod anchor_op_fchownat
  anchor_op_fchmodat anchor_op_utimensat anchor_op_perm_copy anchor_op_attr_copy
  anchor_op_write : anchor.

Ltac anchor_step :=
  lazymatch goal with
  | |- keeps _ (mbind _ _) => apply (keeps_bind _ (anchor_kept_trans _ _ _)); [|intros ?]
  | |- keeps _ (mret _) => apply (keeps_ret _ (anchor_kept_refl _ _ _))
  | |- keeps _ (get _) => apply (keeps_get _ (anchor_kept_refl _ _ _))
  | |- keeps _ (assert _) => apply (keeps_assert _ (anchor_kept_refl _ _ _))
  | |- keeps _ (fun w => Abort w) => apply keeps_abort
  | |- keeps _ out_of_fuel => apply keeps_out_of_fuel
  | |- keeps _ (modify (log _)) => apply keeps_modify; intros ? ?; assumption
  | |- keeps _ (syscall _ _) =>
      apply keeps_anchor_syscall;
      first [ solve [auto with anchor] | apply anchor_op_tidy; solve [auto with tidy] ]
  | |- keeps _ (match ?x with _ => _ end) => destruct x
  | |- keeps _ (let _ := _ in _) => cbv zeta
  end.

Ltac anchor_all := unfold_calls; repeat first [ assumption | solve [auto] | anchor_step ].

Section anchor_steps.
Variables (fs0 : filesys) (id : fileid) (p : path_info).
Hypothesis Hfresh : fs_inodes fs0 !! id = None.

Lemma keeps_anchor_chownat_if_needed statp a b c d :
  keeps (anchor_kept fs0 id p) (chownat_if_needed p statp a b c d).
Proof. anchor_all. Qed.

Lemma keeps_anchor_fchown_if_needed statp a b c d :
  keeps (anchor_kept fs0 id p) (fchown_if_needed id statp a b c d).
Proof. anchor_all. Qed.

Lemma keeps_anchor_perm_copy_fd s : keeps (anchor_kept fs0 id p) (perm_copy_fd s id).
Proof. anchor_all. Qed.

Lemma keeps_anchor_attr_copy_fd s : keeps (anchor_kept fs0 id p) (attr_copy_fd s id).
Proof. anchor_all. Qed.

Lemma keeps_anchor_copy_path copy_fd src :
  (forall s, keeps (anchor_kept fs0 id p) (copy_fd s id)) ->
  keeps (anchor_kept fs0 id p) (copy_path copy_fd src p).
Proof.
  intros Hfd. unfold copy_path. anchor_step; [anchor_all|].
  destruct a as [src_fd|e]; [|anchor_all].
  apply keeps_anchor_bind_open; [reflexivity|reflexivity| |intros ?]; anchor_all.
Qed.

Lemma keeps_anchor_acl_step (A : bool) src :
  keeps (anchor_kept fs0 id p)
    (if A then failed_with_errno (perm_copy_path src p) else mret false).
Proof.
  destruct A; [|anchor_all]. unfold failed_with_errno, perm_copy_path.
  anchor_step; [|anchor_all]. apply keeps_anchor_copy_path. exact keeps_anchor_perm_copy_fd.
Qed.

Lemma keeps_anchor_attr_step (X : bool) src :
  keeps (anchor_kept fs0 id p)
    (if X then failed_with_errno (attr_copy_path src p) else mret false).
Proof.
  destruct X; [|anchor_all]. unfold failed_with_errno, attr_copy_path.
  anchor_step; [|anchor_all]. apply keeps_anchor_copy_path. exact keeps_anchor_attr_copy_fd.
Qed.

Lemma keeps_anchor_copy_file_loop fuel ifd :
  forall offset, keeps (anchor_kept fs0 id p) (copy_file_loop fuel ifd id offset).
Proof. induction fuel as [|fuel IH]; intros offset; simpl; anchor_all. Qed.
End anchor_steps.

(** *** The strategies *)

Lemma created_anchor fs dirfd path perm body id fs' :
  fs_create fs dirfd path perm body = Ok (id, fs') ->
  files_kept fs fs' /\ fs_inodes fs !! id = None /\ resolve fs' dirfd path false = Ok id.
Proof.
  intros H. split; [eapply tidy_create; exact H|]. split.
  - apply fs_create_inv in H as (d & last & es & i & _ & _ & _ & _ & Hfree & _). exact Hfree.
  - apply fs_create_resolve in H as (Hr & _). exact Hr.
Qed.

Lemma makes_keeps p x : makes p x -> keeps world_files_kept x.
Proof. intros H w b w' Hx. apply (H w b w' Hx). Qed.

Lemma makes_step p x m :
  makes p x ->
  (forall fs0 id, fs_inodes fs0 !! id = None -> keeps (anchor_kept fs0 id p) m) ->
  makes p (orelse x m).
Proof.
  intros Hx Hm w b w' H. apply orelse_inv in H as [(-> & H)|(w1 & H1 & H2)].
  - destruct (Hx _ _ _ H) as (K & _). split; [exact K|discriminate].
  - destruct (Hx _ _ _ H1) as (K & Hid). destruct (Hid eq_refl) as (id & Hfresh & Hr).
    destruct (Hm _ _ Hfresh _ _ _ H2 (conj K Hr)) as (K' & Hr'). split; [exact K'|].
    intros _. eauto.
Qed.

Lemma makes_creation p {A} ev (op : filesys -> result (A * filesys)) :
  (forall fs a fs', op fs = Ok (a, fs') ->
     files_kept fs fs' /\
     exists id, fs_inodes fs !! id = None /\ resolve fs' (dirfd p) (name p) false = Ok id) ->
  makes p (failed (syscall ev op)).
Proof.
  intros Hop w b w' H. unfold failed in H.
  apply bind_Ret_inv in H as (r & w1 & Hs & [= <- <-]).
  apply syscall_inv in Hs as (_ & _ & _ & _ & _ & Hr).
  destruct Hr as [(e & -> & Hfs)|(a & -> & _ & Ho)].
  - rewrite Hfs. split; [apply files_kept_refl|discriminate].
  - destruct (Hop _ _ _ Ho) as (K & Hid). split; [exact K|]. intros _. exact Hid.
Qed.

Lemma makes_mkdirat p mode : makes p (failed (mkdirat (dirfd p) (name p) mode)).
Proof.
  apply makes_creation. intros fs a fs' H. apply drop_id_inv in H as (id & H).
  apply created_anchor in H as (K & Hf & Hr). eauto.
Qed.

Lemma makes_symlinkat p target : makes p (failed (symlinkat target (dirfd p) (name p))).
Proof.
  apply makes_creation. intros fs a fs' H. apply drop_id_inv in H as (id & H).
  unfold fs_symlinkat in H. destruct (String.eqb target ""); [discriminate|].
  apply created_anchor in H as (K & Hf & Hr). eauto.
Qed.

Lemma makes_mknodat p mode dev : makes p (failed (mknodat (dirfd p) (name p) mode dev)).
Proof.
  apply makes_creation. intros fs a fs' H. apply drop_id_inv in H as (id & H).
  unfold fs_mknodat in H.
  repeat match type of H with
         | (if ?b then _ else _) = _ => destruct b
         end; try discriminate;
    apply created_anchor in H as (K & Hf & Hr); eauto.
Qed.

(** A strategy that runs [rest] once its destination is made: the run is
    [rest] in an anchored state. *)
Lemma makes_then {B} p (x : M bool) (rest : bool -> M B) :
  makes p x ->
  keeps world_files_kept (rest true) ->
  (forall fs0 id, fs_inodes fs0 !! id = None -> keeps (anchor_kept fs0 id p) (rest false)) ->
  keeps world_files_kept (x ≫= rest).
Proof.
  intros Hx Ht Hf w b w' H. apply bind_Ret_inv in H as (bad & w1 & H1 & H2).
  destruct (Hx _ _ _ H1) as (K & Hid). destruct bad.
  - eapply files_kept_trans; [exact K|]. eapply Ht. exact H2.
  - destruct (Hid eq_refl) as (id & Hfresh & Hr).
    apply (Hf _ _ Hfresh _ _ _ H2 (conj K Hr)).
Qed.

Lemma keeps_tidy_copy_symlink S src dst rs statp mt a b c d :
  keeps world_files_kept (copy_symlink S src dst rs statp mt a b c d).
Proof.
  unfold copy_symlink. do 5 (tidy_step; [tidy_all|]).
  destruct a4 as [oldlink|]; [|tidy_all]. cbv zeta.
  tidy_step; [tidy_all|]. destruct a4; [tidy_all|].
  apply (makes_then dst).
  - apply makes_step; [apply makes_symlinkat|].
    intros fs0 id Hfresh. anchor_all.
  - cbv beta iota. tidy_all.
  - intros fs0 id Hfresh. cbv beta iota. anchor_all.
Qed.

Lemma keeps_tidy_copy_special S A X src dst rs statp mt a b c d :
  keeps world_files_kept (copy_special S A X src dst rs statp mt a b c d).
Proof.
  unfold copy_special. tidy_step; [tidy_all|]. destruct a0; [tidy_all|].
  intros w r w' H. apply bind_Ret_inv in H as (res & w1 & Hmk & H).
  assert (Hm : failed (mknodat (dirfd dst) (name dst)
                 (Z.land (st_mode statp) (wrap mode_t_bits (Z.lnot PERM_MASK)))
                 (st_rdev statp)) w = Ret (negb (is_ok res)) w1).
  { unfold failed. rewrite (bind_Ret _ _ _ _ _ Hmk). reflexivity. }
  apply makes_mknodat in Hm as (K & Hid).
  destruct res as [u|e]; cbn [is_ok negb] in H, Hid.
  2:{ injection H as _ <-. exact K. }
  destruct (Hid eq_refl) as (id & Hfresh & Hr).
  refine (proj1 ((_ : keeps (anchor_kept (w_fs w) id dst) _) w1 r w' H (conj K Hr))).
  pose proof (keeps_anchor_chownat_if_needed _ _ dst Hfresh).
  pose proof (keeps_anchor_acl_step _ _ dst Hfresh).
  pose proof (keeps_anchor_attr_step _ _ dst Hfresh).
  repeat first [ assumption | solve [auto]
               | lazymatch goal with
                 | |- keeps _ (mbind _ (fchmodat _ _ _ _)) => unfold fchmodat
                 | |- keeps _ (mbind _ (utimensat _ _ _ _)) => unfold utimensat
                 end
               | anchor_step ].
Qed.

Lemma creates_then {B} p flags mode (rest : result fileid -> M B) :
  has_flag flags O_CREAT && has_flag flags O_EXCL = true ->
  (forall e, keeps world_files_kept (rest (Err e))) ->
  (forall fs0 id, fs_inodes fs0 !! id = None ->
     keeps (anchor_kept fs0 id p) (rest (Ok id))) ->
  keeps world_files_kept (openat (dirfd p) (name p) flags mode ≫= rest).
Proof.
  intros Hc Herr Hok w b w' H. apply bind_Ret_inv in H as (r & w1 & Ho & H).
  destruct r as [id|e].
  - apply openat_create_inv in Ho; [|exact Hc].
    apply created_anchor in Ho as (K & Hfresh & Hr).
    apply (Hok _ _ Hfresh _ _ _ H (conj K Hr)).
  - unfold openat in Ho. apply syscall_err_inv in Ho as ->.
    apply (Herr e _ _ _ H).
Qed.

Lemma keeps_tidy_copy_file S A X fuel src dst rs statp mt a b c d :
  keeps world_files_kept (copy_file S A X fuel src dst rs statp mt a b c d).
Proof.
  unfold copy_file. tidy_step; [tidy_all|]. destruct a0 as [ifd|e]; [|tidy_all].
  tidy_step; [tidy_all|]. destruct a0; [tidy_all|].
  apply (creates_then dst); [reflexivity|intros e; tidy_all|].
  intros fs0 ofd Hfresh. cbv beta iota.
  pose proof (keeps_anchor_copy_file_loop _ _ dst Hfresh fuel ifd).
  anchor_all.
Qed.

Ltac makes_peel :=
  lazymatch goal with
  | |- makes _ (orelse _ _) => apply makes_step; [makes_peel|intros fs0 id Hfresh]
  | _ => idtac
  end.

Section tidy_recursion.
Variables S A X : bool.
Variable rec : tree_copier.
Hypothesis keeps_rec :
  forall src dst cr rs a b c d, keeps world_files_kept (rec src dst cr rs a b c d).

Lemma keeps_tidy_copy_dir src dst rs statp mt a b c d :
  keeps world_files_kept (copy_dir S A X rec src dst rs statp mt a b c d).
Proof.
  unfold copy_dir. tidy_step; [tidy_all|]. destruct a0; [tidy_all|].
  tidy_step; [tidy_all|].
  destruct (match a0 with Ok sb => S_ISDIR (st_mode sb) | Err _ => false end); [tidy_all|].
  tidy_step; [|tidy_all]. apply (makes_keeps dst).
  makes_peel.
  - apply makes_mkdirat.
  - anchor_all.
  - anchor_all.
  - apply keeps_anchor_acl_step. exact Hfresh.
  - apply keeps_anchor_attr_step. exact Hfresh.
  - apply keeps_anchor_tidy. tidy_all.
  - anchor_all.
Qed.

Lemma keeps_tidy_copy_entry fuel src dst rs a b c d :
  keeps world_files_kept (copy_entry S A X rec fuel src dst rs a b c d).
Proof.
  pose proof keeps_tidy_copy_dir. pose proof keeps_tidy_check_link.
  pose proof keeps_tidy_copy_hardlink. pose proof keeps_tidy_copy_symlink.
  pose proof keeps_tidy_copy_special. pose proof keeps_tidy_copy_file.
  unfold copy_entry. tidy_all.
Qed.

Lemma keeps_tidy_copy_tree_entry fuel src dst dir dst_fd d_name err rs a b c d :
  keeps world_files_kept
    (copy_tree_entry S A X rec fuel src dst dir dst_fd d_name err rs a b c d).
Proof. pose proof keeps_tidy_copy_entry. unfold copy_tree_entry. tidy_all. Qed.

Lemma keeps_tidy_copy_tree_loop fuel src dst dir dst_fd names rs a b c d :
  forall err,
    keeps world_files_kept
      (copy_tree_loop S A X rec fuel src dst dir dst_fd names err rs a b c d).
Proof.
  pose proof keeps_tidy_copy_tree_entry.
  induction names as [|d_name rest IH]; intros err; simpl; tidy_all.
Qed.
End tidy_recursion.

Lemma keeps_tidy_copy_tree_impl S A X fuel :
  forall src dst cr rs a b c d,
    keeps world_files_kept (copy_tree_impl S A X fuel src dst cr rs a b c d).
Proof.
  induction fuel as [|fuel IH]; intros src dst cr rs a b c d; simpl;
    [apply keeps_out_of_fuel|].
  pose proof (keeps_tidy_copy_entry S A X _ IH) as Hentry.
  pose proof (keeps_tidy_copy_tree_loop S A X _ IH) as Hloop.
  tidy_all.
Qed.

(** [copy_tree] changes no file that is there: when it returns, with
    whatever result, every file that was there has the permission bits,
    the owner, the group, the access control list and the extended
    attributes it had; a file that is no directory also has its content
    (or target, or device number) and its modification time; a directory
    has the entries it had, followed by those the copy has added.  (Link
    counts change, and the model has no say on access times.)  So neither
    the source tree, nor anything that the destination held already, is
    modified. *)
Theorem copy_tree_keeps_files (S A X : bool) (fuel : nat) (src_root dst_root : string)
    (copy_root reset_selinux : bool) (old_uid new_uid old_gid new_gid : Z)
    (w : world) (r : Z) (w' : world) :
  copy_tree S A X fuel src_root dst_root copy_root reset_selinux
    old_uid new_uid old_gid new_gid w = Ret r w' ->
  forall id i, fs_inodes (w_fs w) !! id = Some i ->
    exists i', fs_inodes (w_fs w') !! id = Some i' /\ inode_kept i i'.
Proof.
  intros H. apply keeps_tidy_copy_tree_impl in H as (_ & K). exact K.
Qed.

(** ** A destination that is there *)

Lemma fs_create_existing fs dirfd path perm body id :
  resolve fs dirfd path false = Ok id ->
  exists e, fs_create fs dirfd path perm body = Err e.
Proof.
  intros Hr. unfold fs_create.
  destruct (resolve_parent_of_resolved _ _ _ _ Hr)
    as [->|(d & last & es & x & -> & He & Hl & _)]; simpl; [eauto|].
  rewrite He. simpl. rewrite Hl. eauto.
Qed.

Lemma fs_mknodat_existing fs dirfd path mode dev id :
  resolve fs dirfd path false = Ok id ->
  exists e, fs_mknodat fs dirfd path mode dev = Err e.
Proof.
  intros Hr. unfold fs_mknodat.
  repeat match goal with |- context [if ?b then _ else _] => destruct b end;
    eauto using fs_create_existing.
Qed.

Lemma fs_symlinkat_existing fs target dirfd path id :
  resolve fs dirfd path false = Ok id ->
  exists e, rbind (fs_symlinkat fs target dirfd path) (fun r => Ok (tt, snd r)) = Err e.
Proof.
  intros Hr. unfold fs_symlinkat. destruct (String.eqb target ""); simpl; [eauto|].
  destruct (fs_create_existing fs dirfd path MODE_0777 (fun _ _ => PLnk target) id Hr)
    as (e & ->). simpl. eauto.
Qed.

(** A call that cannot succeed has failed and has left the files alone. *)
Lemma syscall_cannot {A} ev (op : filesys -> result (A * filesys)) w r w' :
  (exists e, op (w_fs w) = Err e) ->
  syscall ev op w = Ret r w' -> is_ok r = false /\ w_fs w' = w_fs w.
Proof.
  intros (e & He) H. apply syscall_inv in H as (_ & _ & _ & _ & _ & Hr).
  destruct Hr as [(e' & -> & Hfs)|(a & _ & _ & Ho)]; [auto|congruence].
Qed.

Lemma areadlink_fs path w r w' : areadlink path w = Ret r w' -> w_fs w' = w_fs w.
Proof.
  unfold areadlink. intros H. apply bind_Ret_inv in H as (res & w1 & Hs & [= _ <-]).
  apply syscall_keep_inv in Hs as (-> & _). reflexivity.
Qed.

Lemma openat_existing_fs dirfd path flags mode w r w' :
  has_flag flags O_CREAT = false ->
  openat dirfd path flags mode w = Ret r w' -> w_fs w' = w_fs w.
Proof.
  intros Hc. unfold openat. rewrite Hc. cbn [andb]. intros H.
  apply syscall_keep_inv in H as (-> & _). reflexivity.
Qed.

(** No strategy replaces an entry: called for a destination that is there
    (the dispatcher calls them when its probe found none, so the entry has
    appeared since), [copy_symlink], [copy_hardlink], [copy_special] and
    [copy_file] return -1 and leave every file as it is. *)
Theorem strategies_never_replace (S A X : bool) (fuel : nat) (src dst : path_info)
    (reset_selinux : bool) (statp : stat) (mt : timespec * timespec)
    (old_uid new_uid old_gid new_gid : Z) (lp : nat) (w : world) (id : fileid)
    (r : Z) (w' : world) :
  resolve (w_fs w) (dirfd dst) (name dst) false = Ok id ->
  copy_symlink S src dst reset_selinux statp mt old_uid new_uid old_gid new_gid w
    = Ret r w' \/
  copy_hardlink dst reset_selinux lp w = Ret r w' \/
  copy_special S A X src dst reset_selinux statp mt old_uid new_uid old_gid new_gid w
    = Ret r w' \/
  copy_file S A X fuel src dst reset_selinux statp mt old_uid new_uid old_gid new_gid w
    = Ret r w' ->
  r = -1 /\ w_fs w' = w_fs w.
Proof.
  intros Hdst [H|[H|[H|H]]].
  - unfold copy_symlink in H.
    apply bind_Ret_inv in H as (so & w0 & [= <- <-] & H).
    apply bind_Ret_inv in H as (do & w0 & [= <- <-] & H).
    apply bind_Ret_inv in H as ([] & w0 & Ha & H).
    unfold assert in Ha. destruct (is_some (src_orig w)); [|discriminate].
    injection Ha as <-.
    apply bind_Ret_inv in H as ([] & w0 & Ha & H).
    unfold assert in Ha. destruct (is_some (dst_orig w)); [|discriminate].
    injection Ha as <-.
    apply bind_Ret_inv in H as (ol & w1 & Hrl & H). apply areadlink_fs in Hrl.
    destruct ol as [oldlink|]; [|injection H as <- <-; auto]. cbv zeta in H.
    apply bind_Ret_inv in H as (sel & w2 & Hsel & H).
    apply (selinux_step_inv S (full_path dst) S_IFLNK) in Hsel as (Hfs2 & _).
    destruct sel; [injection H as <- <-; split; [reflexivity|congruence]|].
    apply bind_Ret_inv in H as (bad & w3 & Hchain & H).
    apply orelse_inv in Hchain as [(-> & Hmk)|(w4 & Hmk & _)].
    + injection H as <- <-. split; [reflexivity|].
      unfold failed in Hmk. apply bind_Ret_inv in Hmk as (res & w4 & Hs & [= _ <-]).
      unfold symlinkat in Hs. apply syscall_cannot in Hs as (_ & Hfs3); [congruence|].
      eapply fs_symlinkat_existing. rewrite Hfs2, Hrl. exact Hdst.
    + exfalso. apply failed_false_inv in Hmk as (u & Hs).
      unfold symlinkat in Hs. apply syscall_cannot in Hs as (Hs & _); [discriminate|].
      eapply fs_symlinkat_existing. rewrite Hfs2, Hrl. exact Hdst.
  - split; [eapply copy_hardlink_existing; eassumption|].
    unfold copy_hardlink in H. apply bind_Ret_inv in H as (l & w0 & [= <- <-] & H).
    destruct (links w !! lp) as [node|]; [|discriminate].
    apply bind_Ret_inv in H as (res & w1 & Hl & H).
    unfold linkat in Hl. apply syscall_cannot in Hl as (Hr & Hfs).
    + destruct res; [discriminate|]. injection H as _ <-. exact Hfs.
    + eapply fs_linkat_existing. exact Hdst.
  - unfold copy_special in H.
    apply bind_Ret_inv in H as (sel & w2 & Hsel & H).
    apply (selinux_step_inv S (full_path dst) (Z.land (st_mode statp) S_IFMT)) in Hsel
      as (Hfs2 & _).
    destruct sel; [injection H as <- <-; auto|].
    apply bind_Ret_inv in H as (res & w3 & Hmk & H).
    unfold mknodat in Hmk. apply syscall_cannot in Hmk as (Hr & Hfs3).
    + destruct res; [discriminate|]. injection H as <- <-. split; [reflexivity|congruence].
    + destruct (fs_mknodat_existing (w_fs w2) (dirfd dst) (name dst)
                  (Z.land (st_mode statp) (wrap mode_t_bits (Z.lnot PERM_MASK)))
                  (st_rdev statp) id) as (e & ->); [congruence|]. simpl. eauto.
  - unfold copy_file in H.
    apply bind_Ret_inv in H as (rifd & w1 & Hopen & H).
    apply openat_existing_fs in Hopen; [|reflexivity].
    destruct rifd as [ifd|e]; [|injection H as <- <-; auto].
    apply bind_Ret_inv in H as (sel & w2 & Hsel & H).
    apply (selinux_step_inv S (full_path dst) S_IFREG) in Hsel as (Hfs2 & _).
    destruct sel.
    { apply bind_Ret_inv in H as (c1 & w3 & Hc & [= <- <-]). apply close_inv in Hc as ->.
      split; [reflexivity|]. simpl. congruence. }
    apply bind_Ret_inv in H as (rofd & w3 & Hcreate & H).
    unfold openat in Hcreate.
    change (has_flag _ O_CREAT && has_flag _ O_EXCL) with true in Hcreate. cbv iota in Hcreate.
    apply syscall_cannot in Hcreate as (Hr & Hfs3).
    + destruct rofd; [discriminate|].
      apply bind_Ret_inv in H as (c1 & w4 & Hc & [= <- <-]). apply close_inv in Hc as ->.
      split; [reflexivity|]. simpl. congruence.
    + unfold fs_open_excl. destruct (ends_with_slash (name dst)); [eauto|].
      eapply fs_create_existing. rewrite Hfs2, Hopen. exact Hdst.
Qed.

(** ** Hard links *)

(** What a successful [linkat] did. *)
Lemma fs_linkat_inv fs olddirfd oldpath newdirfd newpath follow u fs' :
  fs_linkat fs olddirfd oldpath newdirfd newpath follow = Ok (u, fs') ->
  exists id i,
    resolve fs olddirfd oldpath follow = Ok id /\
    fs_inodes fs !! id = Some i /\
    resolve fs' newdirfd newpath false = Ok id /\
    fs_inodes fs' !! id = Some (set_nlink (wrap nlink_t_bits (i_nlink i + 1)) i) /\
    (forall id', fs_inodes fs !! id' = None -> fs_inodes fs' !! id' = None).
Proof.
  intros H. pose proof (fs_linkat_ext _ _ _ _ _ _ _ _ H) as E. unfold fs_linkat in H.
  destruct (resolve fs olddirfd oldpath follow) as [id|e]; [|discriminate]. simpl in H.
  unfold fs_inode in H.
  destruct (fs_inodes fs !! id) as [i|] eqn:Hi; [|discriminate]. simpl in H.
  destruct (is_dir_body (i_body i)) eqn:Hnd; [discriminate|].
  destruct (resolve_parent fs newdirfd newpath) as [[d last]|e] eqn:Hp; [|discriminate].
  simpl in H.
  destruct (fs_entries fs d) as [es|e] eqn:He; [|discriminate]. simpl in H.
  destruct (negb (fst d =? fst id)); [discriminate|].
  destruct (dir_lookup es last) eqn:Hl; [discriminate|].
  destruct (ends_with_slash newpath) eqn:Hsl; [discriminate|].
  injection H as _ <-.
  assert (Hd : d <> id).
  { intros ->. unfold fs_entries in He. rewrite Hi in He.
    destruct (i_body i); try discriminate. }
  exists id, i. split; [reflexivity|]. split; [exact Hi|]. split; [|split].
  - rewrite (resolve_via_parent _ _ _ d last Hsl (resolve_parent_ext _ _ _ _ _ E Hp)).
    unfold fs_entries. simpl. rewrite lookup_alter_eq, lookup_alter_ne by congruence.
    unfold fs_entries in He. destruct (fs_inodes fs !! d) as [di|]; [|discriminate].
    simpl. unfold add_dirent. destruct (i_body di); try discriminate.
    injection He as ->. simpl.
    rewrite (dir_lookup_app_None _ _ _ Hl). simpl. rewrite String.eqb_refl. reflexivity.
  - simpl. rewrite lookup_alter_ne, lookup_alter_eq, Hi by congruence. reflexivity.
  - intros id' Hn. simpl. rewrite !lookup_alter.
    repeat case_decide; subst; rewrite ?Hn; reflexivity.
Qed.

(** A successful [copy_hardlink] is a successful [linkat] from the
    recorded path, no symbolic link followed at its end. *)
Lemma copy_hardlink_ok_fs dst reset_selinux lp node w w' :
  links w !! lp = Some node ->
  copy_hardlink dst reset_selinux lp w = Ret 0 w' ->
  fs_linkat (w_fs w) AT_FDCWD (ln_name node) (dirfd dst) (name dst) false =
    Ok (tt, w_fs w').
Proof.
  intros Hlp H. unfold copy_hardlink in H.
  apply bind_Ret_inv in H as (l & w0 & [= <- <-] & H). rewrite Hlp in H.
  apply bind_Ret_inv in H as (res & w1 & Hl & H).
  destruct res as [[]|e]; [|discriminate]. cbn [is_ok negb] in H.
  apply bind_Ret_inv in H as ([] & w2 & [= <-] & H).
  apply bind_Ret_inv in H as ([] & w3 & Hrm & [= <-]).
  assert (Hfs : w_fs w3 = w_fs w1).
  { destruct (wrap nlink_t_bits (ln_count node - 1) <=? 0); injection Hrm as <-;
      reflexivity. }
  rewrite Hfs. unfold linkat in Hl. apply syscall_ok_inv in Hl as (Hl & _). exact Hl.
Qed.

(** When [copy_hardlink] returns 0, the destination is one more name of
    the file that the recorded path names: the two paths lead to one file,
    which differs from what it was by its link count only, one more than
    it was, and no file was made. *)
Theorem copy_hardlink_links (dst : path_info) (reset_selinux : bool) (lp : nat)
    (node : link_name) (w w' : world) :
  links w !! lp = Some node ->
  copy_hardlink dst reset_selinux lp w = Ret 0 w' ->
  exists id i i',
    resolve (w_fs w) AT_FDCWD (ln_name node) false = Ok id /\
    resolve (w_fs w') AT_FDCWD (ln_name node) false = Ok id /\
    resolve (w_fs w') (dirfd dst) (name dst) false = Ok id /\
    fs_inodes (w_fs w) !! id = Some i /\
    fs_inodes (w_fs w') !! id = Some i' /\
    i' = set_nlink (wrap nlink_t_bits (i_nlink i + 1)) i /\
    (forall id', fs_inodes (w_fs w) !! id' = None -> fs_inodes (w_fs w') !! id' = None).
Proof.
  intros Hlp H. apply (copy_hardlink_ok_fs _ _ _ _ _ _ Hlp) in H.
  pose proof (fs_linkat_ext _ _ _ _ _ _ _ _ H) as E.
  apply fs_linkat_inv in H as (id & i & Hold & Hi & Hnew & Hi' & Hdom).
  exists id, i, (set_nlink (wrap nlink_t_bits (i_nlink i + 1)) i).
  split; [exact Hold|]. split; [eapply resolve_ext; eassumption|].
  split; [exact Hnew|]. split; [exact Hi|]. split; [exact Hi'|].
  split; [reflexivity|exact Hdom].
Qed.

(** ** A regular file through the dispatcher *)

Lemma isreg_not_dir m : S_ISREG m = true -> S_ISDIR m = false.
Proof.
  unfold S_ISDIR, S_ISREG. intros H. apply Z.eqb_eq in H. rewrite H. reflexivity.
Qed.

Lemma isreg_not_lnk m : S_ISREG m = true -> S_ISLNK m = false.
Proof.
  unfold S_ISLNK, S_ISREG. intros H. apply Z.eqb_eq in H. rewrite H. reflexivity.
Qed.

(** [copy_entry] on a regular file whose destination is not there and
    that the registry does not know: when it returns 0, the destination
    names a new file with the bytes of the source.  (The file is entered
    in the registry on the way if its link count is not 1.) *)
Theorem copy_entry_copies_file (S A X : bool) (rec : tree_copier) (fuel : nat)
    (src dst : path_info) (reset_selinux : bool)
    (old_uid new_uid old_gid new_gid : Z) (w w' : world)
    (sb : stat) (e : errno) (ifd : fileid) (data : list Byte.byte) :
  probe_nofollow w src = Ok sb -> S_ISREG (st_mode sb) = true ->
  probe_nofollow (log (lstat_event src) w) dst = Err e ->
  find_link (links w) sb = None ->
  resolve (w_fs w) (dirfd src) (name src) false = Ok ifd ->
  fs_read (w_fs w) ifd = Ok data ->
  copy_entry S A X rec fuel src dst reset_selinux old_uid new_uid old_gid new_gid w
    = Ret 0 w' ->
  exists ofd,
    fs_inodes (w_fs w) !! ofd = None /\
    resolve (w_fs w') (dirfd dst) (name dst) false = Ok ofd /\
    fs_read (w_fs w') ofd = Ok data /\
    fs_read (w_fs w') ifd = Ok data.
Proof.
  intros Hsrc Hreg Hdst Hfind Hifd Hrd H. unfold copy_entry in H.
  rewrite (bind_Ret _ _ _ _ _ (fstatat_nofollow_run w src)), Hsrc in H.
  cbv zeta in H. rewrite (isreg_not_dir _ Hreg) in H.
  apply bind_Ret_inv in H as (err & w0 & [= <- <-] & H).
  rewrite (bind_Ret _ _ _ _ _ (fstatat_nofollow_run _ dst)) in H.
  rewrite Hdst in H. cbn [is_ok] in H. rewrite (isreg_not_lnk _ Hreg) in H.
  apply bind_Ret_inv in H as (lp & w1 & Hcl & H).
  apply check_link_inv in Hcl as (Hfs1 & _ & _ & Hnone).
  rewrite (Hnone Hfind) in H. rewrite Hreg in H. cbn [negb] in H.
  cbn [w_fs log] in Hfs1.
  apply copy_file_ok_inv in H
    as (ifd' & ofd & i & Hifd' & Hfresh & Hres & Hi & _ & _ & _ & _ & Hdata).
  rewrite Hfs1 in Hifd', Hfresh, Hdata.
  assert (ifd' = ifd) as -> by congruence.
  destruct (Hdata _ Hrd) as (Hb & Hrd').
  exists ofd. split; [exact Hfresh|]. split; [exact Hres|]. split; [|exact Hrd'].
  unfold fs_read, fs_inode. rewrite Hi. simpl. rewrite Hb. reflexivity.
Qed.

(** ** A further name of a registered file *)

(** [copy_entry] on a further name of a file the registry knows (no
    directory and no symbolic link, the destination not there): when it
    returns 0, it has copied nothing; the destination is a new name of the
    file that the path recorded in the node names. *)
Theorem copy_entry_links_known_file (S A X : bool) (rec : tree_copier) (fuel : nat)
    (src dst : path_info) (reset_selinux : bool)
    (old_uid new_uid old_gid new_gid : Z) (w w' : world)
    (sb : stat) (e : errno) (lp : nat) (node : link_name) :
  probe_nofollow w src = Ok sb ->
  S_ISDIR (st_mode sb) = false -> S_ISLNK (st_mode sb) = false ->
  probe_nofollow (log (lstat_event src) w) dst = Err e ->
  find_link (links w) sb = Some lp -> links w !! lp = Some node ->
  copy_entry S A X rec fuel src dst reset_selinux old_uid new_uid old_gid new_gid w
    = Ret 0 w' ->
  exists id,
    resolve (w_fs w) AT_FDCWD (ln_name node) false = Ok id /\
    resolve (w_fs w') AT_FDCWD (ln_name node) false = Ok id /\
    resolve (w_fs w') (dirfd dst) (name dst) false = Ok id /\
    (forall id', fs_inodes (w_fs w) !! id' = None -> fs_inodes (w_fs w') !! id' = None).
Proof.
  intros Hsrc Hdir Hlnk Hdst Hfind Hlp H. unfold copy_entry in H.
  rewrite (bind_Ret _ _ _ _ _ (fstatat_nofollow_run w src)), Hsrc in H.
  cbv zeta in H. rewrite Hdir in H.
  apply bind_Ret_inv in H as (err & w0 & [= <- <-] & H).
  rewrite (bind_Ret _ _ _ _ _ (fstatat_nofollow_run _ dst)) in H.
  rewrite Hdst in H. cbn [is_ok] in H. rewrite Hlnk in H.
  apply bind_Ret_inv in H as (r & w1 & Hcl & H).
  unfold check_link, mbind, M_bind, get, assert, modify, mret, M_ret in Hcl.
  destruct (is_some (src_orig _)); [|discriminate].
  destruct (is_some (dst_orig _)); [|discriminate].
  cbn [links log] in Hcl. rewrite Hfind in Hcl. injection Hcl as <- <-.
  apply (copy_hardlink_ok_fs dst reset_selinux lp node
           (log (lstat_event dst) (log (lstat_event src) w)) w' Hlp) in H.
  cbn [w_fs log] in H.
  pose proof (fs_linkat_ext _ _ _ _ _ _ _ _ H) as E.
  apply fs_linkat_inv in H as (id & i & Hold & _ & Hnew & _ & Hdom).
  exists id. split; [exact Hold|]. split; [eapply resolve_ext; eassumption|].
  split; [exact Hnew|exact Hdom].
Qed.

(** ** A walk that succeeds *)

Lemma fdopendir_inv f w dir w' :
  fdopendir f w = Ret (Ok dir) w' ->
  fst dir = f /\ fs_readdir (w_fs w) f = Ok (snd dir) /\ w_fs w' = w_fs w.
Proof.
  unfold fdopendir. intros H. apply syscall_keep_inv in H as (-> & H).
  destruct (w_fault w _ _); [discriminate|].
  destruct (fs_readdir (w_fs w) f) as [names|e]; simpl in H; [|discriminate].
  injection H as ->. auto.
Qed.

(** When [copy_tree_impl], without [copy_root], returns 0, it has opened
    the two directories and a stream on the names the source directory
    has, and it has handled these names one after the other, each with
    result 0 and from the state the one before it left ([siblings_ok]; "."
    and ".." are passed over, every other name goes through the
    dispatcher), up to the end of the stream, or up to a [readdir] that
    failed.  In the second case the names not yet read are left out, and
    the result is 0 all the same: the loop does not tell an error of
    [readdir] from the end of the directory.  After the loop the files
    are not touched. *)
Theorem walk_handles_every_entry (S A X : bool) (fuel : nat) (src dst : path_info)
    (reset_selinux : bool) (old_uid new_uid old_gid new_gid : Z) (w w' : world) :
  copy_tree_impl S A X (Datatypes.S fuel) src dst false reset_selinux
    old_uid new_uid old_gid new_gid w = Ret 0 w' ->
  exists src_fd dst_fd names wa wb wc handled rest w1,
    openat (dirfd src) (name src) OPEN_DIR_FLAGS 0 w = Ret (Ok src_fd) wa /\
    openat (dirfd dst) (name dst) OPEN_DIR_FLAGS 0 wa = Ret (Ok dst_fd) wb /\
    fdopendir src_fd wb = Ret (Ok (src_fd, names)) wc /\
    fs_readdir (w_fs w) src_fd = Ok names /\
    names = handled ++ rest /\
    siblings_ok S A X (copy_tree_impl S A X fuel) fuel src dst src_fd dst_fd
      reset_selinux old_uid new_uid old_gid new_gid handled (enter_walk src dst wc) w1 /\
    (rest = [] \/ w_fault w1 (w_trace w1) (EvReaddir src_fd) <> None) /\
    w_fault w1 = w_fault w /\
    w_fs w' = w_fs w1.
Proof.
  intros H. pose proof H as Hrun. cbn [copy_tree_impl] in H.
  change (Z.lor (Z.lor (Z.lor O_DIRECTORY O_RDONLY) O_NOFOLLOW) O_CLOEXEC)
    with OPEN_DIR_FLAGS in H.
  apply bind_Ret_inv in H as (r1 & wa & H1 & H). destruct r1 as [src_fd|e]; [|discriminate].
  apply bind_Ret_inv in H as (r2 & wb & H2 & H). destruct r2 as [dst_fd|e].
  2:{ apply bind_Ret_inv in H as (? & ? & _ & H). discriminate. }
  apply bind_Ret_inv in H as (r3 & wc & H3 & H). destruct r3 as [[dfd names]|e].
  2:{ apply bind_Ret_inv in H as (? & ? & _ & H).
      apply bind_Ret_inv in H as (? & ? & _ & H). discriminate. }
  clear H.
  destruct (fdopendir_inv _ _ _ _ H3) as (Hdir & Hnames & Hfs3). cbn [fst snd] in Hdir, Hnames.
  subst dfd.
  assert (Hfsa : w_fs wa = w_fs w) by (eapply openat_existing_fs; [|exact H1]; reflexivity).
  assert (Hfsb : w_fs wb = w_fs wa) by (eapply openat_existing_fs; [|exact H2]; reflexivity).
  assert (Hfc : w_fault (enter_walk src dst wc) = w_fault w).
  { apply keeps_openat in H1 as (_ & F1 & _). apply keeps_openat in H2 as (_ & F2 & _).
    apply keeps_fdopendir in H3 as (_ & F3 & _).
    unfold enter_walk. destruct (src_orig wc); cbn [w_fault set_roots]; congruence. }
  rewrite (copy_tree_impl_opened _ _ _ _ _ _ _ _ _ _ _ _ _ _ _ _ _ _ H1 H2 H3) in Hrun.
  cbn [fst snd] in Hrun.
  apply bind_Ret_inv in Hrun as (err & w6 & Hloop & Hrun).
  destruct (walk_epilogue S (src_fd, names) dst_fd (negb (is_some (src_orig wc))) err w6)
    as (w7 & Hepi & Hfs7 & _).
  rewrite Hepi in Hrun. injection Hrun as Herr <-.
  assert (err = 0) as ->.
  { destruct S; [|exact Herr]. destruct (w_fault w6 _ EvResetSelinux); [discriminate|exact Herr]. }
  pose proof (keeps_copy_tree_loop S A X _ (keeps_copy_tree_impl S A X fuel) _ _ _ _ _ _ _
                _ _ _ _ _ _ _ _ Hloop) as (_ & F6 & _).
  apply copy_tree_loop_ok_inv in Hloop as (handled & rest & w1 & Hn & Hs & Hend & ->).
  exists src_fd, dst_fd, names, wa, wb, wc, handled, rest, w1.
  split; [exact H1|]. split; [exact H2|]. split; [exact H3|].
  split; [rewrite <- Hfsa, <- Hfsb; exact Hnames|].
  split; [exact Hn|]. split; [exact Hs|]. split; [exact Hend|].
  split; [cbn [w_fault log] in F6; congruence|exact Hfs7].
Qed.

(** ** The copy of a directory *)

Lemma meta_kept_trans A i1 i2 i3 : meta_kept A i1 i2 -> meta_kept A i2 i3 -> meta_kept A i1 i3.
Proof.
  unfold meta_kept. intros (U1 & G1 & B1 & P1 & Q1) (U2 & G2 & B2 & P2 & Q2).
  repeat split; try congruence. intros HA. rewrite (Q2 HA). auto.
Qed.

Lemma perm_copy_fd_step s d w r w' :
  perm_copy_fd s d w = Ret r w' -> attr_step_on d (meta_kept true) (w_fs w) (w_fs w').
Proof.
  unfold perm_copy_fd. intros H. apply bind_Ret_inv in H as (res & w1 & Hs & H).
  destruct res as [[]|e].
  - injection H as _ <-. apply syscall_ok_inv in Hs as (Hs & _).
    apply fs_perm_copy_inv in Hs as (si & Hs).
    eapply attr_step_on_weaken; [|eapply attr_step_on_update; [|exact Hs]; reflexivity].
    intros i i' ->. split; [reflexivity|]. split; [reflexivity|]. split; [reflexivity|].
    split; [apply land_07000_perm_copy|discriminate].
  - apply syscall_err_inv in Hs as ->.
    apply bind_Ret_inv in H as (en & w2 & He & [= _ <-]). apply error_acl_fs in He.
    apply attr_step_on_same; [apply meta_kept_refl|exact He].
Qed.

Lemma attr_copy_fd_step A s d w r w' :
  attr_copy_fd s d w = Ret r w' -> attr_step_on d (meta_kept A) (w_fs w) (w_fs w').
Proof.
  unfold attr_copy_fd. intros H. apply bind_Ret_inv in H as (res & w1 & Hs & H).
  destruct res as [[]|e].
  - injection H as _ <-. apply syscall_ok_inv in Hs as (Hs & _).
    apply fs_attr_copy_inv in Hs as (si & Hs).
    eapply attr_step_on_weaken; [|eapply attr_step_on_update; [|exact Hs]; reflexivity].
    intros i i' ->. repeat split.
  - apply syscall_err_inv in Hs as ->.
    apply bind_Ret_inv in H as (en & w2 & He & [= _ <-]). apply error_acl_fs in He.
    apply attr_step_on_same; [apply meta_kept_refl|exact He].
Qed.

(** The copy of attributes from one path to another changes the file the
    destination names, as the copy between descriptors does, or nothing. *)
Lemma copy_path_step (P : inode -> inode -> Prop) copy_fd src dst id w r w' :
  (forall i, P i i) ->
  (forall s w r w', copy_fd s id w = Ret r w' -> attr_step_on id P (w_fs w) (w_fs w')) ->
  resolve (w_fs w) (dirfd dst) (name dst) false = Ok id ->
  copy_path copy_fd src dst w = Ret r w' ->
  attr_step_on id P (w_fs w) (w_fs w').
Proof.
  intros HP Hfd Hdst H. unfold copy_path in H.
  apply bind_Ret_inv in H as (r1 & w1 & H1 & H).
  assert (Hfs1 : w_fs w1 = w_fs w) by (eapply openat_existing_fs; [|exact H1]; reflexivity).
  destruct r1 as [src_fd|e].
  2:{ injection H as _ <-. apply attr_step_on_same; auto. }
  apply bind_Ret_inv in H as (r2 & w2 & H2 & H).
  assert (Hfs2 : w_fs w2 = w_fs w1) by (eapply openat_existing_fs; [|exact H2]; reflexivity).
  destruct r2 as [dst_fd|e].
  - apply openat_existing_inv in H2 as (_ & H2); [|reflexivity].
    change (negb (has_flag _ O_NOFOLLOW)) with false in H2.
    rewrite Hfs1, Hdst in H2. injection H2 as <-.
    apply bind_Ret_inv in H as (ret & w3 & H3 & H). apply Hfd in H3.
    apply bind_Ret_inv in H as (c1 & w4 & Hc1 & H). apply close_inv in Hc1 as ->.
    apply bind_Ret_inv in H as (c2 & w5 & Hc2 & [= _ <-]). apply close_inv in Hc2 as ->.
    cbn [w_fs log]. rewrite Hfs2, Hfs1 in H3. exact H3.
  - apply bind_Ret_inv in H as (c1 & w4 & Hc1 & [= _ <-]). apply close_inv in Hc1 as ->.
    apply attr_step_on_same; [exact HP|]. cbn [w_fs log]. congruence.
Qed.

Lemma acl_step_path A src dst id w b w' :
  resolve (w_fs w) (dirfd dst) (name dst) false = Ok id ->
  acl_step A src dst w = Ret b w' ->
  attr_step_on id (meta_kept A) (w_fs w) (w_fs w').
Proof.
  intros Hdst H. unfold acl_step in H. destruct A.
  - unfold failed_with_errno in H. apply bind_Ret_inv in H as (r & w1 & H & [= _ <-]).
    eapply copy_path_step; [apply meta_kept_refl| |exact Hdst|exact H].
    intros s w0 r0 w0'. apply perm_copy_fd_step.
  - injection H as _ <-. apply attr_step_on_same; [apply meta_kept_refl|reflexivity].
Qed.

Lemma attr_step_path A X rs src dst id w b w' :
  resolve (w_fs w) (dirfd dst) (name dst) false = Ok id ->
  attr_step X rs src dst w = Ret b w' ->
  attr_step_on id (meta_kept A) (w_fs w) (w_fs w').
Proof.
  intros Hdst H. unfold attr_step in H. destruct (X && negb rs).
  - unfold failed_with_errno in H. apply bind_Ret_inv in H as (r & w1 & H & [= _ <-]).
    eapply copy_path_step; [apply meta_kept_refl| |exact Hdst|exact H].
    intros s w0 r0 w0'. apply attr_copy_fd_step.
  - injection H as _ <-. apply attr_step_on_same; [apply meta_kept_refl|reflexivity].
Qed.

(** What a successful [copy_dir] leaves where there was no destination:
    a directory with the owner and the mode that were put on it before the
    walk into it. *)
Lemma copy_dir_made_inv S A X fuel src dst rs statp mt a b c d w w' :
  lstat_in w dst = None ->
  copy_dir S A X (copy_tree_impl S A X fuel) src dst rs statp mt a b c d w = Ret 0 w' ->
  exists id i,
    resolve (w_fs w') (dirfd dst) (name dst) false = Ok id /\
    fs_inodes (w_fs w') !! id = Some i /\
    is_dir_body (i_body i) = true /\
    i_uid i = owner_after (remap_spec a b (st_uid statp)) (fs_euid (w_fs w)) /\
    i_gid i = owner_after (remap_spec c d (st_gid statp)) (fs_egid (w_fs w)) /\
    (A = false -> i_perm i = Z.land (st_mode statp) PERM_MASK).
Proof.
  intros Habs H. apply copy_dir_ok_inv in H as (w0 & Hsel & H).
  apply selinux_step_inv in Hsel as (Hfs0 & _).
  destruct H as [(sb' & Hp & _)|(_ & w1 & w2 & w3 & w4 & wp & wr & Hmk & Hown & Hmod & Hacl
                                  & Hattr & Hrec & Hut)].
  { exfalso. destruct (lstat_in_probe w w0 dst Habs Hfs0) as (e & He). congruence. }
  unfold mkdirat in Hmk. apply syscall_ok_inv in Hmk as (Hmk & _).
  apply drop_id_inv in Hmk as (id & Hmk). unfold fs_mkdirat in Hmk.
  cbn [w_fs log] in Hmk.
  destruct (fs_create_resolve _ _ _ _ _ _ _ Hmk) as (Hres1 & _).
  destruct (fs_create_new _ _ _ _ _ _ _ Hmk)
    as (_ & (i0 & d0 & Hi0 & Hb0 & Hp0 & Hu0 & Hg0) & _).
  rewrite Hfs0 in Hu0, Hg0.
  rewrite chownat_if_needed_eq in Hown.
  apply fchownat_ok_inv in Hown as (id2 & i & Hr & Hi & Hi2 & _ & Hres2).
  assert (id2 = id) as -> by congruence. assert (i = i0) as -> by congruence.
  apply fchmodat_ok_inv in Hmod as (id3 & i & Hr' & Hi' & Hi3 & _ & Hres3).
  assert (id3 = id) as -> by congruence.
  assert (i = chown_inode (remap_spec a b (st_uid statp))
                (remap_spec c d (st_gid statp)) i0) as -> by congruence.
  apply (acl_step_path A src dst id) in Hacl as (S4 & _ & E4); [|exact Hres3].
  destruct (S4 _ Hi3) as (i4 & Hi4 & M4).
  assert (Hres4 : resolve (w_fs w4) (dirfd dst) (name dst) false = Ok id)
    by (eapply resolve_ext; eassumption).
  apply (attr_step_path A X rs src dst id) in Hattr as (S5 & _ & E5);
    [|exact Hres4].
  destruct (S5 _ Hi4) as (i5 & Hi5 & M5).
  assert (Hres5 : resolve (w_fs wp) (dirfd dst) (name dst) false = Ok id)
    by (eapply resolve_ext; eassumption).
  apply keeps_tidy_copy_tree_impl in Hrec as (E6 & K6).
  destruct (K6 _ _ Hi5) as (i6 & Hi6 & P6 & U6 & G6 & _ & _ & B6).
  assert (Hres6 : resolve (w_fs wr) (dirfd dst) (name dst) false = Ok id)
    by (eapply resolve_ext; eassumption).
  apply utimensat_ok_update in Hut as (id7 & Hr7 & Hut).
  assert (id7 = id) as -> by congruence.
  apply attr_step_on_update in Hut as (S7 & _ & E7); [|reflexivity].
  destruct (S7 _ Hi6) as (i7 & Hi7 & ->).
  pose proof (meta_kept_trans _ _ _ _ M4 M5) as (U5 & G5 & B5 & P5 & Q5).
  exists id, (set_times (fst mt) (snd mt) i6).
  split; [exact (resolve_ext _ _ _ _ _ _ E7 Hres6)|]. split; [exact Hi7|].
  cbn [i_body i_uid i_gid i_perm set_times]. split.
  { rewrite B5 in B6. cbn [i_body set_perm chown_inode set_owner] in B6.
    rewrite Hb0 in B6. destruct B6 as (extra & ->). reflexivity. }
  split; [rewrite U6, U5; unfold chown_inode, owner_after; cbn; rewrite Hu0; reflexivity|].
  split; [rewrite G6, G5; unfold chown_inode, owner_after; cbn; rewrite Hg0; reflexivity|].
  intros HA. rewrite P6, (Q5 HA). cbn. rewrite <- Z.land_assoc. reflexivity.
Qed.

(** When [copy_dir] has made its destination (there was none) and returns
    0, the destination is a directory with the owner and the group the
    remap law gives and, built without ACLs, with the nine permission bits
    of the source mode: what [copy_dir] sets before the walk into the
    directory is what the directory has after it. *)
Theorem copy_dir_attributes (S A X : bool) (fuel : nat) (src dst : path_info)
    (reset_selinux : bool) (statp : stat) (mt : timespec * timespec)
    (old_uid new_uid old_gid new_gid : Z) (w w' : world) :
  lstat_in w dst = None ->
  copy_dir S A X (copy_tree_impl S A X fuel) src dst reset_selinux statp mt
    old_uid new_uid old_gid new_gid w = Ret 0 w' ->
  exists sb,
    lstat_in w' dst = Some sb /\
    S_ISDIR (st_mode sb) = true /\
    remap_law old_uid new_uid (st_uid statp) (st_uid sb) /\
    remap_law old_gid new_gid (st_gid statp) (st_gid sb) /\
    (A = false -> Z.land (st_mode sb) MODE_0777 = Z.land (st_mode statp) MODE_0777).
Proof.
  intros Habs H.
  apply copy_dir_made_inv in H as (id & i & Hres & Hi & Hb & Hu & Hg & Hperm); [|exact Habs].
  exists (stat_of id i). split; [exact (lstat_in_lookup _ _ _ _ Hres Hi)|].
  split.
  { unfold S_ISDIR. rewrite stat_mode_type. destruct (i_body i); try discriminate.
    reflexivity. }
  cbn [st_uid st_gid stat_of].
  split; [rewrite Hu; apply remap_law_owner|].
  split; [rewrite Hg; apply remap_law_owner|].
  intros HA. rewrite stat_mode_0777, (Hperm HA). apply land_perm_0777.
Qed.

(** ** The owner of a copy *)








(** The law cannot be read as an "if and only if": a source owner that is
    the new id already gives the new id to the copy, whatever the old id
    is. *)
Remark remap_law_same_owner :
  remap_law 5 7 7 7 /\ ~ ((5 = ID_UNSET \/ 7 = 5) /\ 7 <> ID_UNSET).
Proof.
  split; [exact (remap_law_owner 5 7 7 0)|]. intros [[H|H] _]; discriminate H.
Qed.

(** ** The properties on the sample tree *)

Lemma copy_tree_keeps_files_witness :
  exists i',
    fs_inodes (w_fs whole_end) !! (1, 10) = Some i' /\
    inode_kept (mk_inode 0x1A4 1 0 0 (at_time 5) (at_time 6) (PReg [Byte.x68; Byte.x69])) i'.
Proof.
  apply (copy_tree_keeps_files false false false 5 "/skel" "/home/newuser" false false
           ID_UNSET 1001 ID_UNSET 1001 skel_world 0 whole_end).
  - vm_compute. reflexivity.
  - vm_compute. reflexivity.
Defined.

Lemma strategies_never_replace_witness :
  -1 = -1 /\
  w_fs (final_state (final_state skel_walk copy_bashrc) copy_bashrc) =
    w_fs (final_state skel_walk copy_bashrc).
Proof.
  apply (strategies_never_replace false false false 3 (skel_entry ".bashrc")
           (newuser_entry ".bashrc") false bashrc_stat (at_time 5, at_time 6)
           ID_UNSET 1001 ID_UNSET 1001 0 (final_state skel_walk copy_bashrc) (1, 100)
           (-1) (final_state (final_state skel_walk copy_bashrc) copy_bashrc)).
  - vm_compute. reflexivity.
  - right. right. right. vm_compute. reflexivity.
Defined.

Lemma copy_hardlink_links_witness :
  exists id i i',
    resolve (w_fs a_copied) AT_FDCWD "/home/newuser/a" false = Ok id /\
    resolve (w_fs b_linked) AT_FDCWD "/home/newuser/a" false = Ok id /\
    resolve (w_fs b_linked) (FD (1, 4)) "b" false = Ok id /\
    fs_inodes (w_fs a_copied) !! id = Some i /\
    fs_inodes (w_fs b_linked) !! id = Some i' /\
    i' = set_nlink (wrap nlink_t_bits (i_nlink i + 1)) i /\
    (forall id', fs_inodes (w_fs a_copied) !! id' = None ->
                 fs_inodes (w_fs b_linked) !! id' = None).
Proof.
  apply (copy_hardlink_links (newuser_entry "b") false 0 a_node a_copied b_linked).
  - vm_compute. reflexivity.
  - vm_compute. reflexivity.
Defined.

Lemma copy_entry_copies_file_witness :
  exists ofd,
    fs_inodes (w_fs skel_walk) !! ofd = None /\
    resolve (w_fs c7_after) (FD (1, 4)) ".bashrc" false = Ok ofd /\
    fs_read (w_fs c7_after) ofd = Ok [Byte.x68; Byte.x69] /\
    fs_read (w_fs c7_after) (1, 10) = Ok [Byte.x68; Byte.x69].
Proof.
  apply (copy_entry_copies_file false false false (copy_tree_impl false false false 3) 3
           (skel_entry ".bashrc") (newuser_entry ".bashrc") false
           ID_UNSET 1001 ID_UNSET 1001 skel_walk c7_after bashrc_stat ENOENT (1, 10)
           [Byte.x68; Byte.x69]).
  - vm_compute. reflexivity.
  - vm_compute. reflexivity.
  - vm_compute. reflexivity.
  - reflexivity.
  - vm_compute. reflexivity.
  - vm_compute. reflexivity.
  - vm_compute. reflexivity.
Defined.

Lemma copy_entry_links_known_file_witness :
  exists id,
    resolve (w_fs a_copied) AT_FDCWD "/home/newuser/a" false = Ok id /\
    resolve (w_fs (final_state a_copied (sample_copy_entry "b")))
      AT_FDCWD "/home/newuser/a" false = Ok id /\
    resolve (w_fs (final_state a_copied (sample_copy_entry "b"))) (FD (1, 4)) "b" false
      = Ok id /\
    (forall id', fs_inodes (w_fs a_copied) !! id' = None ->
       fs_inodes (w_fs (final_state a_copied (sample_copy_entry "b"))) !! id' = None).
Proof.
  apply (copy_entry_links_known_file false false false (copy_tree_impl false false false 3)
           3 (skel_entry "b") (newuser_entry "b") false ID_UNSET 1001 ID_UNSET 1001
           a_copied (final_state a_copied (sample_copy_entry "b")) a_stat ENOENT 0 a_node).
  - vm_compute. reflexivity.
  - vm_compute. reflexivity.
  - vm_compute. reflexivity.
  - vm_compute. reflexivity.
  - vm_compute. reflexivity.
  - vm_compute. reflexivity.
  - vm_compute. reflexivity.
Defined.

Lemma walk_handles_every_entry_witness :
  exists src_fd dst_fd names wa wb wc handled rest w1,
    openat AT_FDCWD "/skel" OPEN_DIR_FLAGS 0 skel_world = Ret (Ok src_fd) wa /\
    openat AT_FDCWD "/home/newuser" OPEN_DIR_FLAGS 0 wa = Ret (Ok dst_fd) wb /\
    fdopendir src_fd wb = Ret (Ok (src_fd, names)) wc /\
    fs_readdir (w_fs skel_world) src_fd = Ok names /\
    names = handled ++ rest /\
    siblings_ok false false false (copy_tree_impl false false false 4) 4
      skel_src newuser_dst src_fd dst_fd false ID_UNSET 1001 ID_UNSET 1001
      handled (enter_walk skel_src newuser_dst wc) w1 /\
    (rest = [] \/ w_fault w1 (w_trace w1) (EvReaddir src_fd) <> None) /\
    w_fault w1 = w_fault skel_world /\
    w_fs whole_end = w_fs w1.
Proof.
  apply (walk_handles_every_entry false false false 4 skel_src newuser_dst false
           ID_UNSET 1001 ID_UNSET 1001 skel_world whole_end).
  vm_compute. reflexivity.
Defined.

Lemma copy_dir_attributes_witness :
  exists sb,
    lstat_in c3_after (newuser_entry "sub") = Some sb /\
    S_ISDIR (st_mode sb) = true /\
    remap_law ID_UNSET 1001 (st_uid sub_stat) (st_uid sb) /\
    remap_law ID_UNSET 1001 (st_gid sub_stat) (st_gid sb) /\
    (false = false -> Z.land (st_mode sb) MODE_0777 = Z.land (st_mode sub_stat) MODE_0777).
Proof.
  apply (copy_dir_attributes false false false 3 (skel_entry "sub") (newuser_entry "sub")
           false sub_stat (at_time 13, at_time 14) ID_UNSET 1001 ID_UNSET 1001
           skel_walk c3_after).
  - vm_compute. reflexivity.
  - vm_compute. reflexivity.
Defined.
